(** * libguiding: the adaptive 2^D-ary tree and its learning wrapper

    A shallow embedding of [guiding/distributions/btree.h] (class
    [BTreeDistribution<D, V>]), [guiding/wrapper.h] (class [Wrapper<S, C>])
    and [computeOverlap] and the type tags of [guiding/guiding.h].  The
    members [write] and [read] of the tree and of its nodes are left out:
    inside them the unqualified names [write] and [read] denote the
    one-parameter members themselves, so their two-argument calls have no
    meaning to embed.

    Conventions of the embedding.
    - [Float] is idealised as the exact rationals [Q]; rounding, infinities
      and NaN are outside the model.  [Value] is instantiated with a scalar.
    - [int] and [size_t] indices are integers [Z], without overflow except
      where it is written out ([to_int] where [split] stores a [size_t] in
      the [int] array of children, [wrap64] for the wrapper's counters); a
      pool is a [list] of nodes addressed through [node_at].
    - Running a member function yields an [outcome]: a result, a failed
      [assert], or [Stuck] for an out-of-bounds access or a recursion that
      does not return within its fuel.
    - Calls are sequential: the atomics are plain fields and the locks of
      the wrapper are left out. *)

From Stdlib Require Import ZArith NArith QArith Qminmax Qround Lqa Lia List.
From Stdlib.Strings Require Import Byte.
From stdpp Require Import base option list.

Open Scope Z_scope.

(** ** Outcomes *)

Inductive outcome (A : Type) : Type :=
| Done (a : A)
| AssertFailed
| Stuck.
Arguments Done {A} a.
Arguments AssertFailed {A}.
Arguments Stuck {A}.

Definition obind {A B} (m : outcome A) (k : A -> outcome B) : outcome B :=
  match m with
  | Done a => k a
  | AssertFailed => AssertFailed
  | Stuck => Stuck
  end.

Notation "'let*' p ':=' m 'in' k" := (obind m (fun p => k))
  (at level 10, p pattern, m at level 100, k at level 200).

(** [assert(b)] *)
Definition assert (b : bool) : outcome unit :=
  if b then Done tt else AssertFailed.

Definition terminates {A} (m : outcome A) : Prop := m <> Stuck.

(** ** Scalars and vectors *)

Definition Qlt_bool (x y : Q) : bool := negb (Qle_bool y x).

(** A [size_t] stored in an [int]: the value modulo [2^32], read in two's
    complement. *)
Definition to_int (z : Z) : Z := (z + 2 ^ 31) mod 2 ^ 32 - 2 ^ 31.

(** [VectorXf<D>]: D floats, read with [x[dim]] and written in place. *)
Abbreviation Vector := (list Q).
Definition vget (x : Vector) (dim : nat) : Q := nth dim x 0%Q.
Definition vset (x : Vector) (dim : nat) (v : Q) : Vector := <[dim := v]> x.

(** ** Tree nodes *)

(** [struct TreeNode]; [F] is [Float] and [V] the user's [Value]. *)
Record TreeNode (F V : Type) : Type := mkTreeNode {
  children : list Z;
  density : F;
  value : V;
  weight : F
}.
Arguments mkTreeNode {F V} _ _ _ _.
Arguments children {F V} _.
Arguments density {F V} _.
Arguments value {F V} _.
Arguments weight {F V} _.

Abbreviation Node := (TreeNode Q Q).

(** [children[c]] *)
Definition child {F V} (n : TreeNode F V) (c : Z) : Z :=
  nth (Z.to_nat c) (children n) 0.

Definition set_child {F V} (n : TreeNode F V) (c : nat) (v : Z) : TreeNode F V :=
  mkTreeNode (<[c := v]> (children n)) (density n) (value n) (weight n).

Definition set_weight {F V} (n : TreeNode F V) (w : F) : TreeNode F V :=
  mkTreeNode (children n) (density n) (value n) w.

Definition isLeaf {F V} (n : TreeNode F V) : bool := child n 0 =? 0.

Definition markAsLeaf {F V} (n : TreeNode F V) : TreeNode F V := set_child n 0 0.

(** [TreeNode::reset] *)
Definition node_reset (n : Node) : Node :=
  mkTreeNode (children n) 0%Q 0%Q 0%Q.

(** [m_nodes[i]]; an index outside the pool is undefined behaviour. *)
Definition node_at {A} (nodes : list A) (i : Z) : outcome A :=
  if i <? 0 then Stuck
  else match nodes !! Z.to_nat i with
       | Some n => Done n
       | None => Stuck
       end.

(** ** The tree *)

Record BTreeDistribution : Type := mkBTree {
  m_nodes : list Node;
  m_splitThreshold : Q;
  m_leafReweighting : bool;
  m_doFiltering : bool;
  m_secondMoment : bool
}.

Definition with_nodes (t : BTreeDistribution) (nodes : list Node) : BTreeDistribution :=
  mkBTree nodes (m_splitThreshold t) (m_leafReweighting t) (m_doFiltering t)
          (m_secondMoment t).

Definition nodeCount (t : BTreeDistribution) : nat := length (m_nodes t).

(** [computeOverlap<D>] of [guiding.h] *)
Definition computeOverlap (D : nat) (min1 max1 min2 max2 : Vector) : Q :=
  foldl (fun overlap i =>
           (overlap *
            Qmax (Qmin (vget max1 i) (vget max2 i) - Qmax (vget min1 i) (vget min2 i)) 0)%Q)
        1%Q (seq 0 D).

Section Tree.

(** The template parameter [D], the external [guiding::target] and
    [std::sqrt]. *)
Variable D : nat.
Variable target : Q -> Q.
Variable fsqrt : Q -> Q.

(** [Arity = 1 << D] *)
Definition Arity : nat := 2 ^ D.

(** A value-initialised node, as [std::vector::resize] creates it. *)
Definition default_node : Node := mkTreeNode (replicate Arity 0) 0%Q 0%Q 0%Q.

(** *** Locating a point *)

(** One round of the loop over [dim] in [indexAt]. *)
Definition indexAt_dim (st : Z * Vector) (dim : nat) : Z * Vector :=
  let '(childIndex, x) := st in
  let slab := Qle_bool (1 # 2) (vget x dim) in
  let childIndex := Z.lor childIndex (Z.shiftl (Z.b2z slab) (Z.of_nat dim)) in
  let x := if slab then vset x dim (vget x dim - (1 # 2))%Q else x in
  (childIndex, vset x dim (vget x dim * 2)%Q).

(** The [while] loop of [indexAt(y, depth)]. *)
Fixpoint indexAt_loop (fuel : nat) (nodes : list Node) (x : Vector)
         (index depth : Z) : outcome (Z * Z) :=
  match fuel with
  | O => Stuck
  | S fuel' =>
      let* node := node_at nodes index in
      if isLeaf node then Done (index, depth)
      else
        let '(childIndex, x') := foldl indexAt_dim (0, x) (seq 0 D) in
        let newIndex := child node childIndex in
        let* _ := assert (index <? newIndex) in
        indexAt_loop fuel' nodes x' newIndex (depth + 1)
  end.

(** [indexAt(y, depth)]: the leaf's index and its depth.  A descent that
    respects the assertion visits every node at most once, so the pool's
    size is fuel enough. *)
Definition indexAt (nodes : list Node) (y : Vector) : outcome (Z * Z) :=
  indexAt_loop (length nodes) nodes y 0 0.

(** [pdf(x)] and [at(x)] *)
Definition pdf (t : BTreeDistribution) (x : Vector) : outcome Q :=
  let* (i, _) := indexAt (m_nodes t) x in
  let* n := node_at (m_nodes t) i in
  Done (density n).

Definition at_ (t : BTreeDistribution) (x : Vector) : outcome Q :=
  let* (i, _) := indexAt (m_nodes t) x in
  let* n := node_at (m_nodes t) i in
  Done (value n).

(** *** Deposits *)

(** [TreeNode::splat] *)
Definition node_splat (n : Node) (v w : Q) (secondMoment : bool) : outcome Node :=
  let* _ := assert (Qle_bool 0 w) in
  let* _ := assert (Qle_bool 0 v) in
  let tgt := target v in
  let tgt := if secondMoment then (tgt * tgt)%Q else tgt in
  Done (mkTreeNode (children n) (density n + tgt * w)%Q (value n + v * w)%Q
                   (weight n + w)%Q).

(** The corner of the [child]-th sub-cell: [childMin]. *)
Definition childMin (nodeMin : Vector) (childSize : Q) (c : nat) : Vector :=
  foldl (fun m dim =>
           if Z.land (Z.of_nat c) (Z.shiftl 1 (Z.of_nat dim)) =? 0 then m
           else vset m dim (vget m dim + childSize)%Q)
        nodeMin (seq 0 D).

Definition nodeMax (nodeMin : Vector) (nodeSize : Q) : Vector :=
  foldl (fun m dim => vset m dim (vget m dim + nodeSize)%Q) nodeMin (seq 0 D).

(** The loop over the children in [splatFiltered]; [rec] is the recursive
    call. *)
Definition splat_children
           (rec : Z -> Vector -> Q -> list Node -> outcome (list Node))
           (node : Node) (nodeMin : Vector) (nodeSize : Q)
           (nodes : list Node) : outcome (list Node) :=
  foldl (fun acc c =>
           let* nodes' := acc in
           let childSize := (nodeSize / 2)%Q in
           rec (child node (Z.of_nat c)) (childMin nodeMin childSize c) childSize nodes')
        (Done nodes) (seq 0 Arity).

(** [splatFiltered] *)
Fixpoint splatFiltered (fuel : nat) (sm : bool) (originMin originMax : Vector)
         (v w : Q) (index : Z) (nodeMin : Vector) (nodeSize : Q)
         (nodes : list Node) : outcome (list Node) :=
  match fuel with
  | O => Stuck
  | S fuel' =>
      let overlap :=
        computeOverlap D originMin originMax nodeMin (nodeMax nodeMin nodeSize) in
      if Qlt_bool 0 overlap then
        let* node := node_at nodes index in
        if isLeaf node then
          let* node' := node_splat node v (w * overlap)%Q sm in
          Done (<[Z.to_nat index := node']> nodes)
        else
          splat_children (splatFiltered fuel' sm originMin originMax v w)
                         node nodeMin nodeSize nodes
      else Done nodes
  end.

(** [splat(x, value, weight)] *)
Definition splat (t : BTreeDistribution) (x : Vector) (v w : Q)
  : outcome BTreeDistribution :=
  if negb (m_doFiltering t) then
    let* (i, _) := indexAt (m_nodes t) x in
    let* n := node_at (m_nodes t) i in
    let* n' := node_splat n v w (m_secondMoment t) in
    Done (with_nodes t (<[Z.to_nat i := n']> (m_nodes t)))
  else
    let* (_, depth) := indexAt (m_nodes t) x in
    (* [1 << depth] on [int] *)
    if 31 <=? depth then Stuck
    else
      let size := (1 / inject_Z (Z.shiftl 1 depth))%Q in
      let originMin := map (fun dim => vget x dim - size / 2)%Q (seq 0 D) in
      let originMax := map (fun dim => vget x dim + size / 2)%Q (seq 0 D) in
      let zero := replicate D 0%Q in
      let* nodes' := splatFiltered (length (m_nodes t)) (m_secondMoment t)
                                   originMin originMax v (w / (size * size))%Q
                                   0 zero 1%Q (m_nodes t) in
      Done (with_nodes t nodes').

(** *** Sampling *)

(** The innermost loop of [sample]: the marginals [p[0]], [p[1]] of the
    children that agree with [childIndex] on the dimensions below [dim]. *)
Definition sample_marginal (nodes : list Node) (node : Node) (dim : nat)
           (childIndex : Z) : outcome (Q * Q) :=
  foldl (fun acc c =>
           let* (p0, p1) := acc in
           let ci := Z.lor (Z.shiftl (Z.of_nat c) (Z.of_nat dim)) childIndex in
           let* n := node_at nodes (child node ci) in
           if Z.land (Z.of_nat c) 1 =? 0
           then Done ((p0 + density n)%Q, p1)
           else Done (p0, (p1 + density n)%Q))
        (Done (0%Q, 0%Q)) (seq 0 (2 ^ (D - dim))).

(** One round of the loop over [dim] in [sample]. *)
Definition sample_dim (nodes : list Node) (node : Node) (scale : Q)
           (acc : outcome (Z * Vector * Vector)) (dim : nat)
  : outcome (Z * Vector * Vector) :=
  let* (childIndex, x, base) := acc in
  let* (p0, p1) := sample_marginal nodes node dim childIndex in
  let p0 := (p0 / (p0 + p1))%Q in
  let* _ := assert (Qle_bool 0 p0 && Qle_bool 0 p1) in
  let slab := Qlt_bool p0 (vget x dim) in
  let childIndex := Z.lor childIndex (Z.shiftl (Z.b2z slab) (Z.of_nat dim)) in
  if slab then
    Done (childIndex,
          vset x dim ((vget x dim - p0) / (1 - p0))%Q,
          vset base dim (vget base dim + (1 # 2) * scale)%Q)
  else
    Done (childIndex, vset x dim (vget x dim / p0)%Q, base).

(** The [while] loop of [sample]. *)
Fixpoint sample_loop (fuel : nat) (nodes : list Node) (x base : Vector)
         (scale : Q) (index : Z) : outcome (Z * Vector * Vector * Q) :=
  match fuel with
  | O => Stuck
  | S fuel' =>
      let* node := node_at nodes index in
      if isLeaf node then Done (index, x, base, scale)
      else
        let* (childIndex, x', base') :=
          foldl (sample_dim nodes node scale) (Done (0, x, base)) (seq 0 D) in
        let newIndex := child node childIndex in
        let* _ := assert (index <? newIndex) in
        sample_loop fuel' nodes x' base' (scale / 2)%Q newIndex
  end.

(** [sample(x, pdf)]: the warped point, the value left in the reference
    parameter [pdf], and the leaf's value.  [pdf_in] is what [pdf] held
    when the function was called. *)
Definition sample (t : BTreeDistribution) (x : Vector) (pdf_in : Q)
  : outcome (Vector * Q * Q) :=
  let pdf := 1%Q in
  let base := replicate D 0%Q in
  let* (index, x, base, scale) :=
    sample_loop (length (m_nodes t)) (m_nodes t) x base 1%Q 0 in
  let* n := node_at (m_nodes t) index in
  let pdf := (pdf * density n)%Q in
  let* _ := assert (Qlt_bool 0 (density n)) in
  let x := foldl (fun x dim => vset x dim (vget x dim * scale + vget base dim)%Q)
                 x (seq 0 D) in
  Done (x, pdf, value n).

(** *** Build *)

(** [setUniform] *)
Definition setUniform (nodes : list Node) : list Node :=
  let nodes := resize 1 default_node nodes in
  alter (fun n => mkTreeNode (children (markAsLeaf n)) 1%Q 0%Q 0%Q) 0%nat nodes.

(** The running sums of the loop over the children in [build]. *)
Record build_acc : Type := mkBuildAcc {
  acc_nodes : list Node;
  acc_validCount : Z;
  acc_density : Q;
  acc_weight : Q;
  acc_value : Q
}.

(** One round of the loop over the children in [build]; [rec] is the
    recursive call on a child, [newIndex] the parent's place in the new
    pool. *)
Definition build_child (rec : Z -> list Node -> outcome (list Node))
           (node : Node) (newIndex : nat)
           (acc : outcome build_acc) (c : nat) : outcome build_acc :=
  let* a := acc in
  let newChildIndex := length (acc_nodes a) in
  let* nn := rec (child node (Z.of_nat c)) (acc_nodes a) in
  let nn := alter (fun n => set_child n c (Z.of_nat newChildIndex)) newIndex nn in
  let* newChild := node_at nn (Z.of_nat newChildIndex) in
  if Qle_bool 0 (weight newChild) then
    Done (mkBuildAcc nn (acc_validCount a + 1)
                     (acc_density a + density newChild)%Q
                     (acc_weight a + weight newChild)%Q
                     (acc_value a + value newChild)%Q)
  else
    Done (mkBuildAcc nn (acc_validCount a) (acc_density a)
                     (acc_weight a) (acc_value a)).

(** What [build] does to an internal node once its children are built. *)
Definition build_finish (lr : bool) (newIndex : nat) (acc : build_acc)
  : list Node :=
  let validCount := if negb lr then 4 else acc_validCount acc in
  if validCount =? 0 then
    alter (fun n => set_weight n (-1)%Q) newIndex (acc_nodes acc)
  else
    let nn :=
      alter (fun n => mkTreeNode (children n)
                                 (acc_density acc / inject_Z validCount)%Q
                                 (acc_value acc / inject_Z validCount)%Q
                                 (acc_weight acc))
            newIndex (acc_nodes acc) in
    if validCount <? Z.of_nat Arity then
      alter markAsLeaf newIndex (take (newIndex + 1) nn)
    else nn.

(** What [build] does to a leaf. *)
Definition build_leaf (lr sm : bool) (node : Node) (scale : Q)
           (newIndex : nat) (newNodes : list Node) : outcome (list Node) :=
  if lr && Qlt_bool (weight node) (1 # 1000) then
    Done (alter (fun n => set_weight n (-1)%Q) newIndex newNodes)
  else
    let w := if lr then (1 / weight node)%Q else scale in
    let* _ := assert (Qle_bool 0 w) in
    let d := (density node * w)%Q in
    let d := if sm then fsqrt d else d in
    Done (alter (fun n => mkTreeNode (children (markAsLeaf n)) d
                                     (value node * w)%Q (weight node))
                newIndex newNodes).

(** [build(index, newNodes, scale)], the first pass; [old] is [m_nodes]. *)
Fixpoint build_rec (fuel : nat) (lr sm : bool) (old : list Node) (scale : Q)
         (index : Z) (newNodes : list Node) : outcome (list Node) :=
  match fuel with
  | O => Stuck
  | S fuel' =>
      let* node := node_at old index in
      let newIndex := length newNodes in
      let newNodes := newNodes ++ [node] in
      if isLeaf node then build_leaf lr sm node scale newIndex newNodes
      else
        let* acc :=
          foldl (build_child
                   (build_rec fuel' lr sm old (scale * inject_Z (Z.of_nat Arity))%Q)
                   node newIndex)
                (Done (mkBuildAcc newNodes 0 0%Q 0%Q 0%Q)) (seq 0 Arity) in
        Done (build_finish lr newIndex acc)
  end.

(** [build()] *)
Definition build (t : BTreeDistribution) : outcome BTreeDistribution :=
  let* newNodes := build_rec (length (m_nodes t)) (m_leafReweighting t)
                             (m_secondMoment t) (m_nodes t) 1%Q 0 [] in
  let* root := node_at newNodes 0 in
  if Qle_bool (weight root) 0 || Qeq_bool (density root) 0 then
    Done (with_nodes t (setUniform (m_nodes t)))
  else
    let norm := density root in
    Done (with_nodes t
            (map (fun node =>
                    mkTreeNode (children node) (density node / norm)%Q
                               (if negb (m_leafReweighting t)
                                then (value node / weight root)%Q else value node)
                               (weight node))
                 newNodes)).

(** *** Refine *)

(** [split(parentIndex)]; [childIndex + child] is a [size_t] and is stored
    in an [int]. *)
Definition split (parentIndex : Z) (nodes : list Node) : outcome (list Node) :=
  let childIndex := Z.of_nat (length nodes) in
  let* _ := assert (parentIndex <? childIndex) in
  let* parent := node_at nodes parentIndex in
  let* _ := assert (isLeaf parent) in
  let nodes := nodes ++ replicate Arity parent in
  Done (foldl (fun nodes c =>
                 alter (fun n => set_child n c (to_int (childIndex + Z.of_nat c)))
                       (Z.to_nat parentIndex) nodes)
              nodes (seq 0 Arity)).

(** The loop over the children in [refine]; the parent is read again from
    the live pool in every round. *)
Definition refine_children (rec : Z -> list Node -> outcome (list Node))
           (index : Z) (nodes : list Node) : outcome (list Node) :=
  foldl (fun acc c =>
           let* nodes := acc in
           let* n := node_at nodes index in
           rec (child n (Z.of_nat c)) nodes)
        (Done nodes) (seq 0 Arity).

(** [refine(index, scale)]; the pool grows while the recursion runs, so the
    fuel is an argument. *)
Fixpoint refine_rec (fuel : nat) (thr : Q) (scale : Q) (index : Z)
         (nodes : list Node) : outcome (list Node) :=
  match fuel with
  | O => Stuck
  | S fuel' =>
      let descend :=
        refine_children
          (refine_rec fuel' thr (scale * inject_Z (Z.of_nat Arity))%Q) index in
      let* node := node_at nodes index in
      if isLeaf node then
        let criterion := (density node / scale)%Q in
        if Qle_bool thr criterion then
          let* nodes' := split index nodes in
          descend nodes'
        else Done (alter node_reset (Z.to_nat index) nodes)
      else descend nodes
  end.

(** [refine()] with its default arguments [index = 0], [scale = 1]. *)
Definition refine (fuel : nat) (t : BTreeDistribution) : outcome BTreeDistribution :=
  let* nodes := refine_rec fuel (m_splitThreshold t) 1%Q 0 (m_nodes t) in
  Done (with_nodes t nodes).

(** *** Statistics *)

(** The loop over the children in [TreeNode::depth]. *)
Definition depth_children (rec : Node -> outcome Z) (nodes : list Node) (n : Node)
  : outcome Z :=
  foldl (fun acc i =>
           let* maxDepth := acc in
           let* c := node_at nodes (child n (Z.of_nat i)) in
           let* d := rec c in
           Done (Z.max maxDepth d))
        (Done 0) (seq 0 Arity).

(** [TreeNode::depth] *)
Fixpoint node_depth (fuel : nat) (nodes : list Node) (n : Node) : outcome Z :=
  match fuel with
  | O => Stuck
  | S fuel' =>
      if isLeaf n then Done 1
      else
        let* maxDepth := depth_children (node_depth fuel' nodes) nodes n in
        Done (maxDepth + 1)
  end.

(** [depth()] *)
Definition depth (t : BTreeDistribution) : outcome Z :=
  let* root := node_at (m_nodes t) 0 in
  node_depth (length (m_nodes t)) (m_nodes t) root.

(** [estimate()] *)
Definition estimate (t : BTreeDistribution) : outcome Q :=
  let* root := node_at (m_nodes t) 0 in
  Done (value root).

(** [BTreeDistribution()]: the member initialisers, then [setUniform]. *)
Definition new_tree : BTreeDistribution :=
  mkBTree (setUniform []) (2 # 1000) true true false.

End Tree.

(** ** The learning wrapper *)

(** What [Wrapper<S, C>] asks of its template argument [C]: the member
    types [Settings] and [Aux] and the five member functions it calls, each
    with the child settings first.  [dist_sample] receives what the
    reference parameter [pdf] holds at the call and returns what it holds
    afterwards. *)
Class Distribution (C : Type) : Type := {
  dist_Settings : Type;
  dist_Aux : Type;
  dist_new : C;
  dist_pdf : C -> dist_Settings -> Vector -> outcome Q;
  dist_sample : C -> dist_Settings -> Vector -> Q -> outcome (Vector * Q);
  dist_splat : C -> dist_Settings -> Q -> dist_Aux -> Q -> outcome C;
  dist_build : C -> dist_Settings -> outcome C;
  dist_refine : C -> dist_Settings -> outcome C
}.

(** [size_t] arithmetic *)
Definition wrap64 (z : Z) : Z := z mod 2 ^ 64.

Section Wrapper.

Context {C : Type} `{Dist : Distribution C}.

(** The sample type [S] and the external [guiding::target(sample, aux)]. *)
Variable S : Type.
Variable target_aux : S -> Q * dist_Aux.

Record Wrapper : Type := mkWrapper {
  uniformProb : Q;
  child_settings : dist_Settings;
  m_sampling : C;
  m_training : C;
  m_samplesSoFar : Z;
  m_nextMilestone : Z
}.

(** [Wrapper::reset] *)
Definition Wrapper_reset (w : Wrapper) : Wrapper :=
  mkWrapper (uniformProb w) (child_settings w) dist_new dist_new 0 1024.

(** [Wrapper(const Settings &)]; [Settings::uniformProb] defaults to 0.5. *)
Definition new_Wrapper (uniform_prob : Q) (child : dist_Settings) : Wrapper :=
  Wrapper_reset (mkWrapper uniform_prob child dist_new dist_new 0 0).

(** [Wrapper::sample]: the warped point and the returned pdf. *)
Definition Wrapper_sample (w : Wrapper) (x : Vector) : outcome (Vector * Q) :=
  if Qeq_bool (uniformProb w) 1 then Done (x, 1%Q)
  else
    let pdf := (1 - uniformProb w)%Q in
    let* (x, pdf) :=
      (if Qlt_bool (vget x 0) (uniformProb w) then
         let x := vset x 0 (vget x 0 / uniformProb w)%Q in
         let* p := dist_pdf (m_sampling w) (child_settings w) x in
         Done (x, (pdf * p)%Q)
       else
         let x := vset x 0 (vget x 0 - uniformProb w)%Q in
         let x := vset x 0 (vget x 0 / (1 - uniformProb w))%Q in
         dist_sample (m_sampling w) (child_settings w) x pdf) in
    Done (x, (pdf + uniformProb w)%Q).

(** [Wrapper::pdf] *)
Definition Wrapper_pdf (w : Wrapper) (x : Vector) : outcome Q :=
  if Qeq_bool (uniformProb w) 1 then Done 1%Q
  else
    let* p := dist_pdf (m_sampling w) (child_settings w) x in
    Done (uniformProb w + (1 - uniformProb w) * p)%Q.

(** [Wrapper::step] *)
Definition Wrapper_step (w : Wrapper) : outcome Wrapper :=
  if m_samplesSoFar w <? m_nextMilestone w then Done w
  else
    let* training := dist_build (m_training w) (child_settings w) in
    let sampling := training in
    let* training := dist_refine training (child_settings w) in
    Done (mkWrapper (uniformProb w) (child_settings w) sampling training
                    (m_samplesSoFar w) (wrap64 (m_nextMilestone w * 2))).

(** [Wrapper::splat] *)
Definition Wrapper_splat (w : Wrapper) (sample : S) (weight : Q) : outcome Wrapper :=
  let '(density, aux) := target_aux sample in
  let* training := dist_splat (m_training w) (child_settings w) density aux weight in
  let samples := wrap64 (m_samplesSoFar w + 1) in
  let w := mkWrapper (uniformProb w) (child_settings w) (m_sampling w) training
                     samples (m_nextMilestone w) in
  if m_nextMilestone w <? samples then Wrapper_step w else Done w.

(** Feeding samples one at a time. *)
Fixpoint Wrapper_splats (w : Wrapper) (samples : list (S * Q)) : outcome Wrapper :=
  match samples with
  | [] => Done w
  | (s, weight) :: rest =>
      let* w' := Wrapper_splat w s weight in
      Wrapper_splats w' rest
  end.

End Wrapper.

Arguments Wrapper C {Dist}.

(** Modelled from the spec: the distribution class that [Wrapper] is
    instantiated with.  [Wrapper<S, C>] asks of [C] the member types
    [Settings] and [Aux] and member functions that take the child settings
    first; the class of [btree.h] has neither, and the class that composes
    trees for the wrapper is not among the headers embedded here.  The
    spec (4.2.1, 4.2.2) has the wrapper hold two trees and delegate to
    them: [sampling.sample], [sampling.pdf], the deposit into [training],
    [training.build()] and [training.refine()].  So every member drops the
    settings and calls the tree's member of that name; the deposit point
    travels in [aux], and the reference [pdf] of [sample] is handed on as
    it is.  [fuel] bounds the recursion of [refine]. *)
Definition BTree_Distribution (D : nat) (target fsqrt : Q -> Q) (fuel : nat)
  : Distribution BTreeDistribution :=
  {| dist_Settings := unit;
     dist_Aux := Vector;
     dist_new := new_tree D;
     dist_pdf := fun t _ x => pdf D t x;
     dist_sample := fun t _ x pdf_in =>
                      let* (x', p, _) := sample D t x pdf_in in Done (x', p);
     dist_splat := fun t _ density aux weight => splat D target t aux density weight;
     dist_build := fun t _ => build D fsqrt t;
     dist_refine := fun t _ => refine D fuel t |}.

(** ** Bytes and streams *)

Definition byte_of_Z (z : Z) : Byte.byte :=
  match Byte.of_N (Z.to_N (z mod 256)) with
  | Some b => b
  | None => Byte.x00
  end.

Definition Z_of_byte (b : Byte.byte) : Z := Z.of_N (Byte.to_N b).

(** The [n] bytes of an integer object, least significant first. *)
Fixpoint le_bytes (n : nat) (z : Z) : list Byte.byte :=
  match n with
  | O => []
  | Datatypes.S n' => byte_of_Z z :: le_bytes n' (z / 256)
  end.

Fixpoint le_value (bs : list Byte.byte) : Z :=
  match bs with
  | [] => 0
  | b :: bs' => Z_of_byte b + 256 * le_value bs'
  end.

(** [is.read(p, n)]: the next [n] bytes and the rest of the stream. *)
Definition stream_read (n : nat) (inp : list Byte.byte)
  : option (list Byte.byte * list Byte.byte) :=
  if (length inp <? n)%nat then None else Some (take n inp, drop n inp).

(** ** Type tags *)

(** The C string held by a buffer: the bytes before the first NUL. *)
Fixpoint cstr (bs : list Byte.byte) : list Byte.byte :=
  match bs with
  | [] => []
  | b :: bs' => if Byte.eqb b Byte.x00 then [] else b :: cstr bs'
  end.

(** [strcmp]: the difference of the first two bytes that differ, zero when
    the two strings end together.  A buffer that ends without a NUL is read
    as ending there. *)
Fixpoint strcmp (a b : list Byte.byte) : Z :=
  match a, b with
  | [], [] => 0
  | [], y :: _ => 0 - Z_of_byte y
  | x :: _, [] => Z_of_byte x
  | x :: a', y :: b' =>
      if Byte.eqb x y then (if Byte.eqb x Byte.x00 then 0 else strcmp a' b')
      else Z_of_byte x - Z_of_byte y
  end.

(** [writeType] of [guiding.h]: [name] stands for [typeid(T).name()]; its
    length is stored in a [uint16_t]. *)
Definition writeType (name : list Byte.byte) : list Byte.byte :=
  let len := Z.of_nat (length (cstr name)) mod 2 ^ 16 in
  le_bytes 2 len ++ take (Z.to_nat len) name.

(** [readType] of [guiding.h]: the rest of the stream when the name read is
    the expected one.  A read from an exhausted stream leaves [len] or the
    buffer indeterminate. *)
Definition readType (expected : list Byte.byte) (inp : list Byte.byte)
  : outcome (list Byte.byte) :=
  match stream_read 2 inp with
  | None => Stuck
  | Some (bs, inp1) =>
      let len := le_value bs in
      match stream_read (Z.to_nat len) inp1 with
      | None => Stuck
      | Some (name, inp2) =>
          let name := name ++ [Byte.x00] in
          if strcmp name expected =? 0 then Done inp2 else AssertFailed
      end
  end.

(** * Scenarios

    Trees and wrappers obtained from a freshly constructed object through
    the public member functions, in one and in three dimensions, with the
    identity as [guiding::target]. *)

(** The accessors [splitThreshold()], [leafReweighting()], [doFiltering()]
    return references through which the settings are assigned. *)
Definition set_splitThreshold (t : BTreeDistribution) (q : Q) : BTreeDistribution :=
  mkBTree (m_nodes t) q (m_leafReweighting t) (m_doFiltering t) (m_secondMoment t).
Definition set_leafReweighting (t : BTreeDistribution) (b : bool) : BTreeDistribution :=
  mkBTree (m_nodes t) (m_splitThreshold t) b (m_doFiltering t) (m_secondMoment t).
Definition set_doFiltering (t : BTreeDistribution) (b : bool) : BTreeDistribution :=
  mkBTree (m_nodes t) (m_splitThreshold t) (m_leafReweighting t) b (m_secondMoment t).

Definition id_target (q : Q) : Q := q.

(** One deposit, [build], then [refine] with the split threshold at 0.6:
    the root is split once and its [2^D] children start empty. *)
Definition split_once (D : nat) (x : Vector) : outcome BTreeDistribution :=
  let t := set_doFiltering (set_splitThreshold (new_tree D) (6 # 10)) false in
  let* t := splat D id_target t x 1%Q 1%Q in
  let* t := build D id_target t in
  refine D 2 t.

(** A one-dimensional tree whose lower half saw only the value 0. *)
Definition dark_half : outcome BTreeDistribution :=
  let* t := split_once 1 [(3 # 4)%Q] in
  let* t := splat 1 id_target t [(1 # 4)%Q] 0%Q 1%Q in
  let* t := splat 1 id_target t [(3 # 4)%Q] 1%Q 1%Q in
  build 1 id_target t.

(** A one-dimensional tree with value 1 in the lower and 3 in the upper
    half. *)
Definition one_three (leafReweighting : bool) : outcome BTreeDistribution :=
  let* t := split_once 1 [(3 # 4)%Q] in
  let t := set_leafReweighting t leafReweighting in
  let* t := splat 1 id_target t [(1 # 4)%Q] 1%Q 1%Q in
  splat 1 id_target t [(3 # 4)%Q] 3%Q 1%Q.

(** A three-dimensional tree, split once, with one deposit in every
    octant, built without leaf reweighting. *)
Definition octants : outcome BTreeDistribution :=
  let* t := split_once 3 [(3 # 4)%Q; (3 # 4)%Q; (3 # 4)%Q] in
  let t := set_leafReweighting t false in
  foldl (fun acc c =>
           let* t := acc in
           let coord b := if Z.testbit (Z.of_nat c) b then (3 # 4)%Q else (1 # 4)%Q in
           splat 3 id_target t [coord 0; coord 1; coord 2] 1%Q 1%Q)
        (Done t) (seq 0 8).

(** The sum over the leaves below [n] of density times volume, the volume
    of the cell of [n] being [volume]. *)
Fixpoint leaf_mass (D fuel : nat) (nodes : list Node) (n : Node) (volume : Q) : Q :=
  match fuel with
  | O => 0%Q
  | Datatypes.S fuel' =>
      if isLeaf n then (density n * volume)%Q
      else
        foldl (fun sum c =>
                 match nodes !! Z.to_nat (child n (Z.of_nat c)) with
                 | Some k =>
                     (sum + leaf_mass D fuel' nodes k
                                      (volume / inject_Z (Z.of_nat (Arity D))))%Q
                 | None => sum
                 end)
              0%Q (seq 0 (Arity D))
  end.

Definition tree_mass (D : nat) (t : BTreeDistribution) : Q :=
  match m_nodes t !! 0%nat with
  | Some root => leaf_mass D (length (m_nodes t)) (m_nodes t) root 1%Q
  | None => 0%Q
  end.

(** A wrapper around one-dimensional trees; a sample is its position and
    its value. *)
Definition line_dist : Distribution BTreeDistribution :=
  BTree_Distribution 1 id_target id_target 64.

Definition line_target (s : Q * Q) : Q * @dist_Aux _ line_dist := (s.2, [s.1]).

Definition line_wrapper : Wrapper BTreeDistribution (Dist := line_dist) :=
  new_Wrapper (Dist := line_dist) (1 # 2) tt.

Definition line_splat := Wrapper_splat (Dist := line_dist) (Q * Q) line_target.
Definition line_splats := Wrapper_splats (Dist := line_dist) (Q * Q) line_target.

(** A leaf of a one-dimensional tree, and the one-dimensional tree whose
    root has the two leaves [lower] and [upper]; the settings are those of
    a freshly constructed tree. *)
Definition line_leaf (d v w : Q) : Node := mkTreeNode [0; 0] d v w.

Definition line_tree (root_density : Q) (lower upper : Node) : BTreeDistribution :=
  mkBTree [mkTreeNode [1; 2] root_density 0%Q 0%Q; lower; upper]
          (2 # 1000) true true false.

(** A two-dimensional tree of one split: the root and its four leaves,
    which hold different sums; deposits are not filtered. *)
Definition quad_tree : BTreeDistribution :=
  mkBTree [mkTreeNode [1; 2; 3; 4] 1%Q 0%Q 0%Q;
           mkTreeNode [0; 0; 0; 0] (1 # 4) 1%Q 1%Q;
           mkTreeNode [0; 0; 0; 0] (3 # 4) 2%Q 1%Q;
           mkTreeNode [0; 0; 0; 0] (1 # 2) 5%Q 1%Q;
           mkTreeNode [0; 0; 0; 0] (5 # 2) 7%Q 1%Q]
          (2 # 1000) true false false.

(** * Specification predicates *)

Section TreeSpec.

Variable D : nat.

(** A node at index [i] of a pool of [len] nodes: it has its [Arity] child
    slots and, unless it is a leaf, every child index lies strictly between
    [i] and [len]. *)
Definition node_ok (len i : nat) (n : Node) : Prop :=
  length (children n) = Arity D /\
  (isLeaf n = false ->
   forall c : nat, (c < Arity D)%nat ->
     Z.of_nat i < child n (Z.of_nat c) < Z.of_nat len).

Definition wf_pool (nodes : list Node) : Prop :=
  (0 < length nodes)%nat /\
  forall i n, nodes !! i = Some n -> node_ok (length nodes) i n.

(** The ordering invariant alone. *)
Definition children_above (nodes : list Node) : Prop :=
  forall (i : nat) n, nodes !! i = Some n -> isLeaf n = false ->
    forall c : nat, (c < Arity D)%nat -> Z.of_nat i < child n (Z.of_nat c).

(** What the first pass of [build] promises when it is entered with the
    new pool [acc] and leaves it as [res]: it appends at least one node,
    keeps what was there, and every appended node is in order. *)
Definition build_post (acc res : list Node) : Prop :=
  (length acc < length res)%nat /\
  (forall i, (i < length acc)%nat -> res !! i = acc !! i) /\
  (forall i n, (length acc <= i)%nat -> res !! i = Some n ->
               node_ok (length res) i n).

(** The invariant of the loop over the children in [build], after [k]
    rounds: the parent sits at [length acc] with its first [k] child slots
    filled, and everything behind it is in order. *)
Definition build_inv (acc : list Node) (k : nat) (a : build_acc) : Prop :=
  let res := acc_nodes a in
  (length acc < length res)%nat /\
  (forall i, (i < length acc)%nat -> res !! i = acc !! i) /\
  (exists nk, res !! length acc = Some nk /\
              length (children nk) = Arity D /\
              forall c : nat, (c < k)%nat ->
                Z.of_nat (length acc) < child nk (Z.of_nat c) < Z.of_nat (length res)) /\
  (forall i n, (length acc < i)%nat -> res !! i = Some n ->
               node_ok (length res) i n).

(** What a finished [refine] leaves behind: an ordered pool that is no
    shorter and has kept every internal node. *)
Definition refine_post (P P' : list Node) : Prop :=
  wf_pool P' /\ (length P <= length P')%nat
  /\ forall i n, P !! i = Some n -> isLeaf n = false -> P' !! i = Some n.

End TreeSpec.

(** Two pools with the same [children] arrays, node by node. *)
Definition same_shape (P P' : list Node) : Prop :=
  map children P' = map children P.

(** Every density in the pool is at most [M]. *)
Definition dens_le (M : Q) (P : list Node) : Prop :=
  forall i n, P !! i = Some n -> (density n <= M)%Q.

(** No leaf of density at most [M] is split at scale [s] or beyond, once
    [L] more levels have been descended; [A] is the factor by which the
    scale grows per level. *)
Fixpoint quiet (thr M A : Q) (L : nat) (s : Q) : Prop :=
  match L with
  | O => (M < thr * s)%Q
  | Datatypes.S L' => quiet thr M A L' (s * A)%Q
  end.

(** The density of the [c]-th child of [n], and the sum over the first [k]
    children. *)
Definition child_density (P : list Node) (n : Node) (c : nat) : Q :=
  match P !! Z.to_nat (child n (Z.of_nat c)) with
  | Some k => density k
  | None => 0%Q
  end.

Definition children_sum (P : list Node) (n : Node) (k : nat) : Q :=
  foldl (fun sum c => (sum + child_density P n c)%Q) 0%Q (seq 0 k).

(** Below index [i], within [fuel] levels, every internal node's density is
    the mean of its children's densities. *)
Fixpoint mean_ok (D fuel : nat) (P : list Node) (i : nat) : Prop :=
  match fuel with
  | O => False
  | Datatypes.S fuel' =>
      exists n, P !! i = Some n /\
        (isLeaf n = true \/
         (isLeaf n = false
          /\ (forall c : nat, (c < Arity D)%nat ->
                exists k : nat, child n (Z.of_nat c) = Z.of_nat k /\ (i < k)%nat
                                /\ mean_ok D fuel' P k)
          /\ (density n == children_sum P n (Arity D) / inject_Z (Z.of_nat (Arity D)))%Q))
  end.

(** The invariant of the loop over the children in [build] that concerns
    the sums: as long as every child so far was valid, the children built
    so far satisfy [mean_ok] and [acc_density] is the sum of their
    densities. *)
Definition mean_inv (D : nat) (acc : list Node) (k : nat) (a : build_acc) : Prop :=
  0 <= acc_validCount a <= Z.of_nat k /\
  (acc_validCount a = Z.of_nat k ->
   forall nk, acc_nodes a !! length acc = Some nk ->
     (forall c : nat, (c < k)%nat ->
        mean_ok D (length (acc_nodes a) - Z.to_nat (child nk (Z.of_nat c)))
                (acc_nodes a) (Z.to_nat (child nk (Z.of_nat c))))
     /\ (acc_density a == children_sum (acc_nodes a) nk k)%Q).

(** The trees the public member functions lead to from a freshly
    constructed one: [splat], [build], [refine] with its default arguments,
    and a reset, which assigns a freshly constructed tree.  [limit] is what
    is asked of every tree made on the way: nothing, or a node count that
    [int] child indices can address. *)
Inductive reachable (D : nat) (target fsqrt : Q -> Q)
          (limit : BTreeDistribution -> Prop) : BTreeDistribution -> Prop :=
| reach_new : reachable D target fsqrt limit (new_tree D)
| reach_splat t x v w t' :
    reachable D target fsqrt limit t -> splat D target t x v w = Done t' ->
    limit t' -> reachable D target fsqrt limit t'
| reach_build t t' :
    reachable D target fsqrt limit t -> build D fsqrt t = Done t' ->
    limit t' -> reachable D target fsqrt limit t'
| reach_refine t fuel t' :
    reachable D target fsqrt limit t -> refine D fuel t = Done t' ->
    limit t' -> reachable D target fsqrt limit t'
| reach_reset t :
    reachable D target fsqrt limit t -> reachable D target fsqrt limit (new_tree D).

Definition no_limit (t : BTreeDistribution) : Prop := True.

Definition int_limit (t : BTreeDistribution) : Prop :=
  Z.of_nat (nodeCount t) <= 2 ^ 31.

(** One deposit, [build] and [refine] on a fresh one-dimensional tree. *)
Definition refined_line : outcome BTreeDistribution :=
  let* t := splat 1 id_target (new_tree 1) [(1 # 2)%Q] 1%Q 1%Q in
  let* t := build 1 id_target t in
  refine 1 16 t.

(** The decidable form of [wf_pool]. *)
Definition node_okb (D len i : nat) (n : Node) : bool :=
  (length (children n) =? Arity D)%nat
  && (isLeaf n
      || forallb (fun c => (Z.of_nat i <? child n (Z.of_nat c))
                           && (child n (Z.of_nat c) <? Z.of_nat len))
                 (seq 0 (Arity D))).

Fixpoint nodes_okb (D len i : nat) (nodes : list Node) : bool :=
  match nodes with
  | [] => true
  | n :: rest => node_okb D len i n && nodes_okb D len (Datatypes.S i) rest
  end.

Definition wf_poolb (D : nat) (nodes : list Node) : bool :=
  (0 <? length nodes)%nat && nodes_okb D (length nodes) 0 nodes.

(** A leaf as [TreeNode::reset] leaves it. *)
Definition is_reset (n : Node) : Prop :=
  isLeaf n = true /\ density n = 0%Q /\ value n = 0%Q /\ weight n = 0%Q.

(** Below index [i], within [fuel] levels, every leaf has been reset. *)
Fixpoint settled (D fuel : nat) (P : list Node) (i : nat) : Prop :=
  match fuel with
  | O => False
  | Datatypes.S fuel' =>
      exists n, P !! i = Some n /\
        (is_reset n \/
         (isLeaf n = false
          /\ forall c : nat, (c < Arity D)%nat ->
               exists k : nat, child n (Z.of_nat c) = Z.of_nat k /\ (i < k)%nat
                               /\ settled D fuel' P k))
  end.

(** What a deposit does to a pool: no node is added or loses weight, the
    [children] arrays stay, and the internal nodes are left alone. *)
Definition deposit_post (P P' : list Node) : Prop :=
  length P' = length P /\
  forall i n, P !! i = Some n ->
    exists n', P' !! i = Some n' /\ children n' = children n
               /\ (weight n <= weight n')%Q
               /\ (isLeaf n = false -> n' = n).

(** The edge along dimension [i] of the intersection of two boxes. *)
Definition overlap_edge (min1 max1 min2 max2 : Vector) (i : nat) : Q :=
  (Qmin (vget max1 i) (vget max2 i) - Qmax (vget min1 i) (vget min2 i))%Q.

(** The point [y], seen from the cell with corner [nodeMin] and edge
    [nodeSize], has the coordinates [x] in the unit cube. *)
Definition in_cell (D : nat) (y x nodeMin : Vector) (nodeSize : Q) : Prop :=
  length x = D /\ length nodeMin = D /\ (0 < nodeSize)%Q
  /\ forall k, (k < D)%nat ->
       (0 <= vget x k < 1)%Q
       /\ (vget y k == vget nodeMin k + vget x k * nodeSize)%Q.

(** The counters of a wrapper between two calls of [splat]: the milestone
    is 1024 doubled some number of times, the count has not passed it, and
    unless the milestone is still 1024 the count is past its half. *)
Definition schedule_ok (samples milestone : Z) : Prop :=
  exists k : Z, 0 <= k /\ milestone = 1024 * 2 ^ k
                /\ 0 <= samples <= milestone
                /\ (k = 0 \/ milestone < 2 * samples).

(** The cell of a node, by its corner and its edge.  The root owns the unit
    cube; the [c]-th child of an internal node owns the part of its
    parent's cell that the bits of [c] select: along dimension [dim] the
    upper half if bit [dim] is set, the lower half if not. *)
Inductive cell_of (D : nat) (P : list Node) : nat -> Vector -> Q -> Prop :=
| cell_root : cell_of D P 0 (replicate D 0%Q) 1%Q
| cell_child i n c k lo size lo' :
    cell_of D P i lo size -> P !! i = Some n -> isLeaf n = false ->
    (c < Arity D)%nat -> child n (Z.of_nat c) = Z.of_nat k ->
    length lo' = D ->
    (forall dim, (dim < D)%nat ->
       (vget lo' dim
        == vget lo dim
           + (if Z.testbit (Z.of_nat c) (Z.of_nat dim) then size / 2 else 0))%Q) ->
    cell_of D P k lo' (size / 2)%Q.

(** The point [x] lies in the cell with corner [lo] and edge [size]. *)
Definition in_box (D : nat) (x lo : Vector) (size : Q) : Prop :=
  forall dim, (dim < D)%nat -> (vget lo dim <= vget x dim < vget lo dim + size)%Q.

(** The decidable form of [dens_le]. *)
Definition dens_leb (M : Q) (P : list Node) : bool :=
  forallb (fun n => Qle_bool (density n) M) P.

(** A pool that [int] child indices can address. *)
Definition int_pool (P : list Node) : Prop := Z.of_nat (length P) <= 2 ^ 31.

(** What [L] levels of splitting below one node add to the pool at most:
    [A + A^2 + ... + A^L] nodes. *)
Fixpoint growth (A : Z) (L : nat) : Z :=
  match L with
  | O => 0
  | Datatypes.S L' => A * (1 + growth A L')
  end.

(** A leaf of density [d] met at scale [s] is split, and so are its copies
    on the next [k - 1] levels; [A] is the factor by which the scale grows
    per level. *)
Fixpoint loud (thr d A : Q) (k : nat) (s : Q) : Prop :=
  match k with
  | O => True
  | Datatypes.S k' => Qle_bool thr (d / s) = true /\ loud thr d A k' (s * A)%Q
  end.

(** * Properties *)

(** ** Outcomes and pool access *)

Lemma obind_Done {A B} (m : outcome A) (k : A -> outcome B) (b : B) :
  obind m k = Done b -> exists a, m = Done a /\ k a = Done b.
Proof. destruct m; simpl; intros H; try discriminate. eauto. Qed.

Lemma node_at_Done {A} (nodes : list A) (i : Z) (n : A) :
  node_at nodes i = Done n <-> 0 <= i /\ nodes !! Z.to_nat i = Some n.
Proof.
  unfold node_at. destruct (Z.ltb_spec i 0).
  - split; [discriminate | lia].
  - destruct (nodes !! Z.to_nat i) eqn:E; split; intros H1;
      try (inversion H1; subst; auto; fail); try discriminate.
    + destruct H1 as [_ H1]. congruence.
    + destruct H1 as [_ H1]. discriminate.
Qed.

Lemma node_at_not_failed {A} (nodes : list A) (i : Z) :
  node_at nodes i <> AssertFailed.
Proof. unfold node_at. destruct (i <? 0); [done|]. by destruct (nodes !! Z.to_nat i). Qed.

Lemma node_at_nat {A} (nodes : list A) (i : nat) (n : A) :
  nodes !! i = Some n -> node_at nodes (Z.of_nat i) = Done n.
Proof. intros H. apply node_at_Done. rewrite Nat2Z.id. split; [lia | done]. Qed.

Lemma node_at_in_range {A} (nodes : list A) (i : Z) :
  0 <= i < Z.of_nat (length nodes) -> exists n, node_at nodes i = Done n.
Proof.
  intros H. destruct (lookup_lt_is_Some_2 nodes (Z.to_nat i)) as [n Hn]; [lia|].
  exists n. apply node_at_Done. split; [lia | done].
Qed.

(** ** Child indices built bit by bit *)

Lemma lor_bit_range (a : Z) (b : bool) (k : Z) :
  0 <= k -> 0 <= a < 2 ^ k ->
  0 <= Z.lor a (Z.shiftl (Z.b2z b) k) < 2 ^ (k + 1).
Proof.
  intros Hk Ha.
  assert (Hland : Z.land a (Z.shiftl (Z.b2z b) k) = 0).
  { apply Z.bits_inj'. intros n Hn. rewrite Z.land_spec, Z.bits_0.
    destruct (Z.ltb_spec n k).
    - rewrite Z.shiftl_spec_low by lia. apply andb_false_r.
    - destruct (Z.eq_dec a 0) as [->|Hne]; [by rewrite Z.bits_0|].
      rewrite (Z.bits_above_log2 a n); [done | lia |].
      apply Z.log2_lt_pow2; [lia|].
      pose proof (Z.pow_le_mono_r 2 k n). lia. }
  rewrite <- Z.add_nocarry_lor by done.
  rewrite Z.shiftl_mul_pow2 by lia.
  rewrite Z.pow_add_r, Z.pow_1_r by lia.
  destruct b; simpl Z.b2z; lia.
Qed.

Lemma indexAt_dims_range (D : nat) (x : Vector) (k : nat) :
  0 <= (foldl indexAt_dim (0, x) (seq 0 k)).1 < 2 ^ Z.of_nat k.
Proof.
  induction k as [|k IH].
  - simpl. lia.
  - rewrite seq_S, foldl_app. simpl.
    destruct (foldl indexAt_dim (0, x) (seq 0 k)) as [ci x'] eqn:E.
    simpl in *. rewrite Nat2Z.inj_succ, <- Z.add_1_r.
    apply lor_bit_range; lia.
Qed.

Lemma Arity_Z (D : nat) : Z.of_nat (Arity D) = 2 ^ Z.of_nat D.
Proof.
  unfold Arity. by rewrite Nat2Z.inj_pow.
Qed.

Lemma Arity_pos (D : nat) : (0 < Arity D)%nat.
Proof. pose proof (Arity_Z D). pose proof (Z.pow_pos_nonneg 2 (Z.of_nat D)). lia. Qed.

(** ** Locating a point in a well-formed pool *)

Section Locate.

Variable D : nat.

Lemma wf_child_range (nodes : list Node) (i : nat) (n : Node) (ci : Z) :
  wf_pool D nodes -> nodes !! i = Some n -> isLeaf n = false ->
  0 <= ci < 2 ^ Z.of_nat D ->
  Z.of_nat i < child n ci < Z.of_nat (length nodes).
Proof.
  intros [_ Hwf] Hi Hleaf Hci.
  destruct (Hwf i n Hi) as [_ Hok].
  specialize (Hok Hleaf (Z.to_nat ci)).
  rewrite Z2Nat.id in Hok by lia. apply Hok.
  pose proof (Arity_Z D). lia.
Qed.

(** The descent of [indexAt] returns a leaf above its starting point,
    within fuel [length nodes - index]. *)
Lemma indexAt_loop_wf (nodes : list Node) :
  wf_pool D nodes ->
  forall fuel (index : nat) x depth,
    (index < length nodes)%nat -> (length nodes - index <= fuel)%nat ->
    exists (i : nat) (d : Z) (n : Node),
      indexAt_loop D fuel nodes x (Z.of_nat index) depth = Done (Z.of_nat i, d)
      /\ nodes !! i = Some n /\ isLeaf n = true
      /\ (index <= i)%nat
      /\ depth <= d <= depth + (Z.of_nat i - Z.of_nat index).
Proof.
  intros Hwf. induction fuel as [|fuel IH]; intros index x depth Hlt Hfuel; [lia|].
  destruct (lookup_lt_is_Some_2 nodes index Hlt) as [n Hn].
  simpl. rewrite (node_at_nat _ _ _ Hn). simpl.
  destruct (isLeaf n) eqn:Hleaf.
  - exists index, depth, n. repeat split; auto; lia.
  - pose proof (indexAt_dims_range D x D) as Hci.
    destruct (foldl indexAt_dim (0, x) (seq 0 D)) as [ci x'] eqn:E. simpl in Hci.
    pose proof (wf_child_range nodes index n ci Hwf Hn Hleaf Hci) as Hc.
    replace (Z.of_nat index <? child n ci) with true by (symmetry; apply Z.ltb_lt; lia).
    simpl.
    destruct (IH (Z.to_nat (child n ci)) x' (depth + 1)) as (i & d & n' & H1 & H2 & H3 & H4 & H5);
      [lia | lia |].
    rewrite Z2Nat.id in H1, H5 by lia.
    exists i, d, n'. repeat split; auto; lia.
Qed.

Lemma indexAt_wf (nodes : list Node) (x : Vector) :
  wf_pool D nodes ->
  exists (i : nat) (d : Z) (n : Node),
    indexAt D nodes x = Done (Z.of_nat i, d)
    /\ nodes !! i = Some n /\ isLeaf n = true
    /\ 0 <= d < Z.of_nat (length nodes).
Proof.
  intros Hwf. pose proof Hwf as [Hpos _].
  destruct (indexAt_loop_wf nodes Hwf (length nodes) 0%nat x 0)
    as (i & d & n & H1 & H2 & H3 & H4 & H5); [lia | lia |].
  exists i, d, n. repeat split; auto; try lia.
  apply lookup_lt_Some in H2. lia.
Qed.

End Locate.

(** ** Unfiltered deposits *)

Section Splat.

Variable D : nat.
Variable target : Q -> Q.

Lemma node_splat_Done (n : Node) (v w : Q) (sm : bool) :
  (0 <= w)%Q -> (0 <= v)%Q ->
  node_splat target n v w sm =
  Done (mkTreeNode (children n)
                   (density n + (if sm then target v * target v else target v) * w)%Q
                   (value n + v * w)%Q (weight n + w)%Q).
Proof.
  intros Hw Hv. unfold node_splat.
  apply Qle_bool_iff in Hw. apply Qle_bool_iff in Hv. rewrite Hw, Hv. simpl.
  by destruct sm.
Qed.

End Splat.

(** ** Nodes *)

Lemma child_set_child_eq {F V} (n : TreeNode F V) (c : nat) (v : Z) :
  (c < length (children n))%nat -> child (set_child n c v) (Z.of_nat c) = v.
Proof.
  intros H. unfold child, set_child. simpl. rewrite Nat2Z.id.
  apply nth_lookup_Some. by apply list_lookup_insert_eq.
Qed.

Lemma child_set_child_ne {F V} (n : TreeNode F V) (c c' : nat) (v : Z) :
  c <> c' -> child (set_child n c v) (Z.of_nat c') = child n (Z.of_nat c').
Proof.
  intros H. unfold child, set_child. simpl. rewrite Nat2Z.id.
  rewrite !nth_lookup. by rewrite list_lookup_insert_ne.
Qed.

Lemma isLeaf_markAsLeaf {F V} (n : TreeNode F V) :
  isLeaf (markAsLeaf n) = true.
Proof.
  unfold isLeaf, markAsLeaf, child, set_child. simpl.
  by destruct (children n).
Qed.

Lemma node_ok_mono (D len len' i : nat) (n : Node) :
  node_ok D len i n -> (len <= len')%nat -> node_ok D len' i n.
Proof.
  intros [H1 H2] Hle. split; [done|].
  intros Hl c Hc. specialize (H2 Hl c Hc). lia.
Qed.

Lemma node_ok_leaf (D len i : nat) (n : Node) :
  length (children n) = Arity D -> isLeaf n = true -> node_ok D len i n.
Proof. intros H1 H2. split; [done|]. congruence. Qed.

(** ** The first pass of build *)

Section BuildProps.

Variable D : nat.
Variable fsqrt : Q -> Q.
Variables lr sm : bool.
Variable old : list Node.
Hypothesis Hold : wf_pool D old.

Lemma build_leaf_ok (node : Node) (scale : Q) (acc : list Node) :
  (0 <= scale)%Q -> length (children node) = Arity D -> isLeaf node = true ->
  exists res,
    build_leaf fsqrt lr sm node scale (length acc) (acc ++ [node]) = Done res
    /\ build_post D acc res /\ length res = Datatypes.S (length acc).
Proof.
  intros Hs Hlen Hleaf. unfold build_leaf.
  assert (Hpost : forall f : Node -> Node,
             (forall n, length (children n) = Arity D -> isLeaf n = true ->
                        length (children (f n)) = Arity D /\ isLeaf (f n) = true) ->
             build_post D acc (alter f (length acc) (acc ++ [node]))
             /\ length (alter f (length acc) (acc ++ [node])) = Datatypes.S (length acc)).
  { intros f Hf. rewrite alter_app_r_alt, Nat.sub_diag by lia. simpl.
    split; [|rewrite length_app; simpl; lia].
    split; [rewrite length_app; simpl; lia|]. split.
    - intros i Hi. by rewrite lookup_app_l.
    - intros i n Hi Hn. rewrite lookup_app_r in Hn by done.
      destruct (i - length acc)%nat eqn:E; simpl in Hn; [|done].
      injection Hn as <-. destruct (Hf node Hlen Hleaf). by apply node_ok_leaf. }
  destruct (lr && Qlt_bool (weight node) (1 # 1000)) eqn:Hinv.
  - eexists. split; [reflexivity|]. apply Hpost. intros n H1 H2. by split.
  - assert (Hw : Qle_bool 0 (if lr then 1 / weight node else scale)%Q = true).
    { apply Qle_bool_iff. destruct lr; [|done]. simpl in Hinv.
      unfold Qlt_bool in Hinv. apply negb_false_iff, Qle_bool_iff in Hinv.
      unfold Qdiv. rewrite Qmult_1_l. apply Qinv_le_0_compat.
      eapply Qle_trans; [|exact Hinv]. discriminate. }
    rewrite Hw. simpl. eexists. split; [reflexivity|]. apply Hpost.
    intros n H1 H2. simpl. split.
    + unfold set_child. simpl. by rewrite length_insert.
    + apply (isLeaf_markAsLeaf n).
Qed.

(** The loop over the children keeps [build_inv]. *)
Lemma build_children_ok (rec : Z -> list Node -> outcome (list Node))
      (node : Node) (acc : list Node) :
  (forall (c : nat) acc', (c < Arity D)%nat ->
     exists res, rec (child node (Z.of_nat c)) acc' = Done res /\ build_post D acc' res) ->
  length (children node) = Arity D ->
  forall k, (k <= Arity D)%nat ->
    exists a,
      foldl (build_child rec node (length acc))
            (Done (mkBuildAcc (acc ++ [node]) 0 0%Q 0%Q 0%Q)) (seq 0 k) = Done a
      /\ build_inv D acc k a.
Proof.
  intros Hrec Hlen. induction k as [|k IH]; intros Hk.
  - simpl. eexists. split; [reflexivity|]. unfold build_inv. simpl.
    rewrite length_app. simpl. split; [lia|]. split; [|split].
    + intros i Hi. by rewrite lookup_app_l.
    + exists node. split; [by apply list_lookup_middle|]. split; [done|]. lia.
    + intros i n Hi Hn. apply lookup_lt_Some in Hn. rewrite length_app in Hn.
      simpl in Hn. lia.
  - destruct IH as (a & Hfold & Hlt & Hpre & (nk & Hnk & Hnklen & Hnkc) & Hrest); [lia|].
    rewrite seq_S, foldl_app, Hfold. simpl.
    destruct (Hrec k (acc_nodes a)) as (res & Hres & Hrlt & Hrpre & Hrnew); [lia|].
    rewrite Hres. simpl.
    set (nn := alter (fun n : Node => set_child n k (Z.of_nat (length (acc_nodes a))))
                     (length acc) res).
    assert (Hnnlen : length nn = length res) by apply length_alter.
    destruct (lookup_lt_is_Some_2 nn (length (acc_nodes a))) as [newChild HnewChild]; [lia|].
    rewrite (node_at_nat _ _ _ HnewChild). simpl.
    assert (Hinv : forall a', acc_nodes a' = nn -> build_inv D acc (Datatypes.S k) a').
    { intros a' Ha'. unfold build_inv. rewrite Ha', Hnnlen.
      split; [lia|]. split; [|split].
      - intros i Hi. unfold nn. rewrite list_lookup_alter_ne by lia.
        rewrite Hrpre by lia. by apply Hpre.
      - exists (set_child nk k (Z.of_nat (length (acc_nodes a)))).
        split; [|split].
        + unfold nn. rewrite list_lookup_alter_eq, Hrpre, Hnk by lia. done.
        + unfold set_child. simpl. by rewrite length_insert.
        + intros c Hc. destruct (decide (c = k)) as [->|Hne].
          * rewrite child_set_child_eq by lia. lia.
          * rewrite child_set_child_ne by done.
            specialize (Hnkc c). lia.
      - intros i n Hi Hn. unfold nn in Hn. rewrite list_lookup_alter_ne in Hn by lia.
        destruct (decide (i < length (acc_nodes a))%nat) as [Hlt'|Hge].
        + rewrite Hrpre in Hn by done.
          eapply node_ok_mono; [by eapply Hrest|lia].
        + apply Hrnew; [lia|done]. }
    destruct (Qle_bool 0 (weight newChild)); eexists; (split; [reflexivity|]);
      by apply Hinv.
Qed.

Lemma build_finish_ok (acc : list Node) (a : build_acc) :
  build_inv D acc (Arity D) a ->
  build_post D acc (build_finish D lr (length acc) a).
Proof.
  intros (Hlt & Hpre & (nk & Hnk & Hnklen & Hnkc) & Hrest).
  assert (Hkeep : forall f : Node -> Node,
             (forall n, children (f n) = children n) ->
             build_post D acc (alter f (length acc) (acc_nodes a))).
  { intros f Hf. split; [by rewrite length_alter|]. split.
    - intros i Hi. rewrite list_lookup_alter_ne by lia. by apply Hpre.
    - intros i n Hi Hn. rewrite length_alter.
      destruct (decide (i = length acc)) as [->|Hne].
      + rewrite list_lookup_alter_eq, Hnk in Hn. simpl in Hn. injection Hn as <-.
        split; [by rewrite Hf|]. intros _ c Hc.
        unfold child. rewrite Hf. by apply Hnkc.
      + rewrite list_lookup_alter_ne in Hn by done. apply Hrest; [lia|done]. }
  unfold build_finish.
  destruct ((if negb lr then 4 else acc_validCount a) =? 0); [by apply Hkeep|].
  destruct ((if negb lr then 4 else acc_validCount a) <? Z.of_nat (Arity D));
    [|by apply Hkeep].
  set (nn := alter _ (length acc) (acc_nodes a)).
  assert (Hnn : length nn = length (acc_nodes a)) by apply length_alter.
  assert (Htk : length (take (length acc + 1) nn) = (length acc + 1)%nat).
  { rewrite length_take. lia. }
  split; [rewrite length_alter; lia|]. split.
  - intros i Hi. rewrite list_lookup_alter_ne by lia.
    rewrite lookup_take_lt by lia. unfold nn.
    rewrite list_lookup_alter_ne by lia. by apply Hpre.
  - intros i n Hi Hn. pose proof (lookup_lt_Some _ _ _ Hn) as Hi'.
    rewrite length_alter, Htk in Hi'.
    assert (i = length acc) as -> by lia.
    rewrite list_lookup_alter_eq, lookup_take_lt in Hn by lia.
    unfold nn in Hn. rewrite list_lookup_alter_eq, Hnk in Hn. simpl in Hn.
    injection Hn as <-. apply node_ok_leaf.
    + unfold markAsLeaf, set_child. simpl. by rewrite length_insert.
    + apply isLeaf_markAsLeaf.
Qed.

(** On a well-formed pool the first pass returns, with fuel to spare from
    [length old - index] on. *)
Lemma build_rec_ok :
  forall fuel (index : nat) (scale : Q) (acc : list Node),
    (index < length old)%nat -> (length old - index <= fuel)%nat ->
    (0 <= scale)%Q ->
    exists res,
      build_rec D fsqrt fuel lr sm old scale (Z.of_nat index) acc = Done res
      /\ build_post D acc res.
Proof.
  induction fuel as [|fuel IH]; intros index scale acc Hlt Hfuel Hs; [lia|].
  destruct (lookup_lt_is_Some_2 old index Hlt) as [node Hnode].
  destruct Hold as [_ Hok]. destruct (Hok index node Hnode) as [Hlen Hch].
  simpl. rewrite (node_at_nat _ _ _ Hnode). simpl.
  destruct (isLeaf node) eqn:Hleaf.
  - destruct (build_leaf_ok node scale acc Hs Hlen Hleaf) as (res & Hres & Hpost & _).
    eauto.
  - destruct (build_children_ok
                (build_rec D fsqrt fuel lr sm old (scale * inject_Z (Z.of_nat (Arity D)))%Q)
                node acc) with (k := Arity D) as (a & Hfold & Hinv); [|done|lia|].
    + intros c acc' Hc. specialize (Hch eq_refl c Hc).
      destruct (IH (Z.to_nat (child node (Z.of_nat c)))
                   (scale * inject_Z (Z.of_nat (Arity D)))%Q acc') as (res & Hres & Hpost);
        [lia|lia| |].
      * apply Qmult_le_0_compat; [done|].
        change 0%Q with (inject_Z 0). rewrite <- Zle_Qle. lia.
      * rewrite Z2Nat.id in Hres by lia. eauto.
    + rewrite Hfold. simpl. eexists. split; [reflexivity|].
      by apply build_finish_ok.
Qed.

End BuildProps.

(** ** The uniform state *)

Section Uniform.

Variable D : nat.

Lemma setUniform_spec (nodes : list Node) :
  exists u, setUniform D nodes = [u]
            /\ isLeaf u = true /\ density u = 1%Q /\ value u = 0%Q /\ weight u = 0%Q
            /\ length (children u) =
               length (children (default (default_node D) (nodes !! 0%nat))).
Proof.
  unfold setUniform.
  assert (H : resize 1 (default_node D) nodes
              = [default (default_node D) (nodes !! 0%nat)]).
  { destruct nodes as [|n rest]; [done|]. simpl. by rewrite resize_0. }
  rewrite H. simpl. eexists. split; [reflexivity|]. simpl.
  split; [apply isLeaf_markAsLeaf|]. repeat split.
  by rewrite length_insert.
Qed.

(** A pool that is one leaf answers every query with that leaf. *)
Lemma indexAt_single_leaf (u : Node) (x : Vector) :
  isLeaf u = true -> indexAt D [u] x = Done (0, 0).
Proof. intros H. unfold indexAt. simpl. by rewrite H. Qed.

Lemma pdf_single_leaf (t : BTreeDistribution) (u : Node) (x : Vector) :
  m_nodes t = [u] -> isLeaf u = true -> pdf D t x = Done (density u).
Proof.
  intros Ht Hu. unfold pdf. rewrite Ht, (indexAt_single_leaf u x Hu). done.
Qed.

Lemma wf_single_leaf (u : Node) :
  length (children u) = Arity D -> isLeaf u = true -> wf_pool D [u].
Proof.
  intros Hlen Hleaf. split; [simpl; lia|].
  intros i n Hn. destruct i; simpl in Hn; [|done].
  injection Hn as <-. by apply node_ok_leaf.
Qed.

Lemma wf_new_tree : wf_pool D (m_nodes (new_tree D)).
Proof.
  simpl. destruct (setUniform_spec []) as (u & -> & Hleaf & _ & _ & _ & Hlen).
  apply wf_single_leaf; [|done]. rewrite Hlen. simpl. apply length_replicate.
Qed.

End Uniform.

(** ** Build of a degenerate tree *)

Section BuildDegenerate.

Variable D : nat.
Variable fsqrt : Q -> Q.

(** C7.  On a well-formed pool the first pass of [build] returns a new pool
    with a root.  When that root has [weight <= 0] or [density == 0],
    [build] leaves the tree in the uniform state: exactly one node, a leaf
    with density 1, the default value and weight 0, and [pdf(x)] is 1 for
    every [x].  The settings are kept. *)
Theorem build_degenerate_uniform (t : BTreeDistribution) :
  wf_pool D (m_nodes t) ->
  exists newNodes root,
    build_rec D fsqrt (length (m_nodes t)) (m_leafReweighting t) (m_secondMoment t)
              (m_nodes t) 1%Q 0 [] = Done newNodes
    /\ newNodes !! 0%nat = Some root
    /\ ((weight root <= 0)%Q \/ (density root == 0)%Q ->
        exists u,
          build D fsqrt t = Done (with_nodes t [u])
          /\ isLeaf u = true /\ density u = 1%Q /\ value u = 0%Q /\ weight u = 0%Q
          /\ forall x, pdf D (with_nodes t [u]) x = Done 1%Q).
Proof.
  intros Hwf. pose proof Hwf as [Hpos _].
  destruct (build_rec_ok D fsqrt (m_leafReweighting t) (m_secondMoment t) (m_nodes t)
                         Hwf (length (m_nodes t)) 0%nat 1%Q [])
    as (newNodes & Hrec & Hlt & _ & _); [lia|lia|discriminate|].
  simpl in Hlt. change (Z.of_nat 0) with 0 in Hrec.
  destruct (lookup_lt_is_Some_2 newNodes 0%nat Hlt) as [root Hroot].
  exists newNodes, root. split; [done|]. split; [done|].
  intros Hdeg. destruct (setUniform_spec D (m_nodes t)) as (u & Hu & Hleaf & Hd & Hv & Hw & _).
  exists u. repeat split; auto.
  - unfold build. rewrite Hrec. simpl.
    pose proof (node_at_nat newNodes 0%nat root Hroot) as Hat.
    change (Z.of_nat 0) with 0 in Hat. rewrite Hat. simpl.
    assert (Hb : Qle_bool (weight root) 0 || Qeq_bool (density root) 0 = true).
    { apply orb_true_iff. destruct Hdeg as [H|H]; [left|right].
      - by apply Qle_bool_iff.
      - by apply Qeq_bool_iff. }
    rewrite Hb. by rewrite Hu.
  - intros x. rewrite (pdf_single_leaf D (with_nodes t [u]) u x eq_refl Hleaf).
    by rewrite Hd.
Qed.

End BuildDegenerate.

(** A tree that never received a deposit is such a tree. *)
Lemma build_degenerate_uniform_witness :
  exists u,
    build 2 (fun q => q) (new_tree 2) = Done (with_nodes (new_tree 2) [u])
    /\ isLeaf u = true /\ density u = 1%Q /\ value u = 0%Q /\ weight u = 0%Q
    /\ forall x, pdf 2 (with_nodes (new_tree 2) [u]) x = Done 1%Q.
Proof.
  destruct (build_degenerate_uniform 2 (fun q => q) (new_tree 2) (wf_new_tree 2))
    as (newNodes & root & Hrec & Hroot & Huni).
  apply Huni. left.
  vm_compute in Hrec. injection Hrec as <-.
  vm_compute in Hroot. injection Hroot as <-.
  vm_compute. discriminate.
Defined.

(** ** Bytes *)

Lemma length_le_bytes (n : nat) (z : Z) : length (le_bytes n z) = n.
Proof. revert z. induction n as [|n IH]; intros z; simpl; [done|]. by rewrite IH. Qed.

Lemma le_value_le_bytes (n : nat) (z : Z) :
  le_value (le_bytes n z) = z mod 256 ^ Z.of_nat n.
Proof.
  revert z. induction n as [|n IH]; intros z.
  - simpl. by rewrite Z.mod_1_r.
  - simpl le_bytes. simpl le_value. rewrite IH.
    rewrite Nat2Z.inj_succ, Z.pow_succ_r by lia.
    assert (Hb : Z_of_byte (byte_of_Z z) = z mod 256).
    { unfold byte_of_Z, Z_of_byte.
      pose proof (Z.mod_pos_bound z 256 ltac:(lia)) as Hm.
      destruct (Byte.of_N (Z.to_N (z mod 256))) as [b|] eqn:E.
      - apply Byte.to_of_N in E. rewrite E. lia.
      - apply Byte.of_N_None_iff in E. lia. }
    rewrite Hb.
    pose proof (Z.pow_pos_nonneg 256 (Z.of_nat n) ltac:(lia) ltac:(lia)) as Hp.
    rewrite (Z.rem_mul_r z 256 (256 ^ Z.of_nat n)) by lia. done.
Qed.

Lemma stream_read_app (bs rest : list Byte.byte) :
  stream_read (length bs) (bs ++ rest) = Some (bs, rest).
Proof.
  unfold stream_read.
  replace (length (bs ++ rest) <? length bs)%nat with false.
  - by rewrite take_app_length, drop_app_length.
  - symmetry. apply Nat.ltb_ge. rewrite length_app. lia.
Qed.

(** ** The wrapper's mixture and schedule *)

Section WrapperProps.

Context {C : Type} `{Dist : Distribution C}.
Variable S : Type.
Variable target_aux : S -> Q * dist_Aux.

(** What one [splat] does to the two counters: the rebuild runs exactly
    when the incremented count is strictly above the milestone. *)
Lemma Wrapper_splat_counters (w w' : Wrapper C) (s : S) (weight : Q) :
  Wrapper_splat S target_aux w s weight = Done w' ->
  m_samplesSoFar w' = wrap64 (m_samplesSoFar w + 1)
  /\ m_nextMilestone w' =
     (if m_nextMilestone w <? wrap64 (m_samplesSoFar w + 1)
      then wrap64 (m_nextMilestone w * 2) else m_nextMilestone w)
  /\ ((m_nextMilestone w <? wrap64 (m_samplesSoFar w + 1)) = false ->
      m_sampling w' = m_sampling w).
Proof.
  unfold Wrapper_splat. destruct (target_aux s) as [density aux].
  destruct (dist_splat (m_training w) (child_settings w) density aux weight)
    as [training| |]; simpl; try discriminate.
  destruct (m_nextMilestone w <? wrap64 (m_samplesSoFar w + 1)) eqn:E.
  - unfold Wrapper_step. simpl.
    replace (wrap64 (m_samplesSoFar w + 1) <? m_nextMilestone w) with false
      by (symmetry; apply Z.ltb_ge; apply Z.ltb_lt in E; lia).
    destruct (dist_build training (child_settings w)) as [built| |]; simpl; try discriminate.
    destruct (dist_refine built (child_settings w)) as [refined| |]; simpl; try discriminate.
    intros H. injection H as <-. simpl. repeat split. discriminate.
  - intros H. injection H as <-. simpl. repeat split.
Qed.

End WrapperProps.


(** [BTreeDistribution::sample] begins with [pdf = 1]: what its caller had
    put in [pdf] never reaches the result. *)
Lemma sample_ignores_pdf_in (D : nat) (t : BTreeDistribution) (x : Vector) (p1 p2 : Q) :
  sample D t x p1 = sample D t x p2.
Proof. reflexivity. Qed.

Lemma Wrapper_sample_tree_branch_pdf (D : nat) (target fsqrt : Q -> Q) (fuel : nat)
      (w : Wrapper BTreeDistribution (Dist := BTree_Distribution D target fsqrt fuel))
      (x y : Vector) (p v : Q) :
  Qeq_bool (uniformProb w) 1 = false ->
  Qlt_bool (vget x 0) (uniformProb w) = false ->
  sample D (m_sampling w)
         (vset (vset x 0 (vget x 0 - uniformProb w)%Q) 0
               (vget (vset x 0 (vget x 0 - uniformProb w)%Q) 0 / (1 - uniformProb w))%Q)
         1%Q = Done (y, p, v) ->
  Wrapper_sample w x = Done (y, (p + uniformProb w)%Q).
Proof.
  intros Hu Hx Hs. unfold Wrapper_sample. rewrite Hu, Hx. simpl.
  rewrite (sample_ignores_pdf_in D _ _ (1 - uniformProb w)%Q 1%Q), Hs. done.
Qed.


(** C2, at the input where the code departs from the claim.  In one
    dimension, on a tree split once, a filtered deposit of weight 1 at
    [x = 0.25] finds its leaf at depth 1, so [size = 1/2]; the box
    [[0, 1/2]] overlaps that leaf's cell by [1/2].  The code divides by
    [size * size] whatever [D] is: the leaf's weight grows by 2, not by
    [1 * (1/2) / (1/2)^1 = 1]. *)
Theorem splat_filtered_line :
  exists t t' leaf leaf',
    split_once 1 [(3 # 4)%Q] = Done t
    /\ indexAt 1 (m_nodes t) [(1 # 4)%Q] = Done (1, 1)
    /\ (computeOverlap 1 [(1 # 4) - (1 # 2) / 2] [(1 # 4) + (1 # 2) / 2]
                       [0] [1 # 2] == 1 # 2)%Q
    /\ splat 1 id_target (set_doFiltering t true) [(1 # 4)%Q] 1%Q 1%Q = Done t'
    /\ m_nodes t !! 1%nat = Some leaf
    /\ m_nodes t' !! 1%nat = Some leaf'
    /\ (weight leaf' - weight leaf == 1 * (1 # 2) / ((1 # 2) * (1 # 2)))%Q
    /\ ~ (weight leaf' - weight leaf == 1 * (1 # 2) / (1 # 2))%Q.
Proof.
  eexists _, _, _, _. split; [vm_compute; reflexivity|].
  split; [vm_compute; reflexivity|].
  split; [vm_compute; reflexivity|].
  split; [vm_compute; reflexivity|].
  split; [vm_compute; reflexivity|].
  split; [vm_compute; reflexivity|].
  split; [vm_compute; reflexivity|vm_compute; discriminate].
Qed.

(** C3, at the inputs where the code departs from the claim.  Without leaf
    reweighting [build] sets [validCount] to 4, which is the arity only
    for [D = 2].  In one dimension the root's density is the sum of its two
    children's densities divided by 4.  In three dimensions 4 is below the
    arity 8, so the root of a nine-node tree is cut back to a leaf and one
    node is left. *)
Theorem build_naive_valid_count :
  (exists t newNodes root lower upper,
      one_three false = Done t
      /\ build_rec 1 id_target (length (m_nodes t)) false false (m_nodes t) 1%Q 0 []
         = Done newNodes
      /\ newNodes = [root; lower; upper]
      /\ isLeaf root = false
      /\ (density root == (density lower + density upper) / 4)%Q
      /\ ~ (density root == (density lower + density upper) / 2)%Q)
  /\ (exists t t' root,
         octants = Done t
         /\ nodeCount t = 9%nat
         /\ build 3 id_target t = Done t'
         /\ m_nodes t' = [root]
         /\ isLeaf root = true).
Proof.
  split.
  - eexists _, _, _, _, _. split; [vm_compute; reflexivity|].
    split; [vm_compute; reflexivity|].
    split; [reflexivity|].
    split; [vm_compute; reflexivity|].
    split; [vm_compute; reflexivity|vm_compute; discriminate].
  - eexists _, _, _. split; [vm_compute; reflexivity|].
    split; [vm_compute; reflexivity|].
    split; [vm_compute; reflexivity|].
    split; [reflexivity|vm_compute; reflexivity].
Qed.

(** C4, at the input where the code departs from the claim.  [splat] runs
    [step] when the incremented count is strictly greater than the
    milestone.  After 1024 deposits the count has reached the milestone
    1024 and nothing was rebuilt: the milestone is unchanged and the
    sampling tree is still the single uniform leaf.  The 1025th deposit
    rebuilds and doubles the milestone. *)
Theorem Wrapper_rebuild_late :
  (let* w := line_splats line_wrapper (replicate 1024 ((1 # 2)%Q, 1%Q, 1%Q)) in
   Done (m_samplesSoFar w, m_nextMilestone w, m_sampling w))
  = Done (1024, 1024, m_sampling line_wrapper)
  /\
  (let* w := line_splats line_wrapper (replicate 1025 ((1 # 2)%Q, 1%Q, 1%Q)) in
   Done (m_samplesSoFar w, m_nextMilestone w, nodeCount (m_training w)))
  = Done (1025, 2048, 1023%nat).
Proof. split; vm_compute; reflexivity. Qed.

(** C5, at the input where the code departs from the claim.  In one
    dimension without leaf reweighting, deposits of value 1 in the lower
    and 3 in the upper half give, after [build], a root of weight 2 and
    density 1 over leaves of density 1 and 3: the root's density is a
    quarter of the children's sum, not their mean, and density times
    volume sums to 2 over the leaves. *)
Theorem build_naive_line_mass :
  exists t t' root lower upper,
    one_three false = Done t
    /\ build 1 id_target t = Done t'
    /\ m_nodes t' = [root; lower; upper]
    /\ (0 < weight root)%Q
    /\ (density root == 1)%Q
    /\ (density lower == 1)%Q /\ (density upper == 3)%Q
    /\ (tree_mass 1 t' == 2)%Q.
Proof.
  eexists _, _, _, _, _. split; [vm_compute; reflexivity|].
  split; [vm_compute; reflexivity|].
  split; [reflexivity|].
  repeat split; vm_compute; reflexivity.
Qed.

(** C6, at the inputs where the code departs from the claim.  [sample]
    takes the upper slab when [x[dim] > p[0]], so [x[dim] = p[0]] goes to
    the lower slab and is remapped to 1, the far edge of the cell.
    - On a built tree whose lower half has density 0, [x = 0] is sent into
      that half and the assertion [density > 0] fails; [pdf] there is 0.
    - On a built tree with densities 1/2 and 3/2, [x = 1/4] returns the
      point 1/2 with pdf 1/2, and [pdf] at that point is 3/2. *)
Theorem sample_slab_boundary :
  (exists t,
      dark_half = Done t
      /\ sample 1 t [0%Q] 1%Q = AssertFailed
      /\ exists q, pdf 1 t [0%Q] = Done q /\ (q == 0)%Q)
  /\ (exists t0 t x' p v q,
         one_three true = Done t0
         /\ build 1 id_target t0 = Done t
         /\ sample 1 t [(1 # 4)%Q] 1%Q = Done ([x'], p, v)
         /\ (x' == 1 # 2)%Q /\ (p == 1 # 2)%Q
         /\ pdf 1 t [x'] = Done q
         /\ (q == 3 # 2)%Q).
Proof.
  split.
  - eexists. split; [vm_compute; reflexivity|].
    split; [vm_compute; reflexivity|].
    eexists. split; vm_compute; reflexivity.
  - eexists _, _, _, _, _, _. split; [vm_compute; reflexivity|].
    split; [vm_compute; reflexivity|].
    split; [vm_compute; reflexivity|].
    repeat split; vm_compute; reflexivity.
Qed.

(** ** Pools of the same shape *)

Lemma same_shape_refl (P : list Node) : same_shape P P.
Proof. reflexivity. Qed.

Lemma same_shape_trans (P1 P2 P3 : list Node) :
  same_shape P1 P2 -> same_shape P2 P3 -> same_shape P1 P3.
Proof. unfold same_shape. congruence. Qed.

Lemma same_shape_length (P P' : list Node) :
  same_shape P P' -> length P' = length P.
Proof. intros H. apply (f_equal length) in H. by rewrite !length_map in H. Qed.

Lemma same_shape_lookup (P P' : list Node) (i : nat) (n' : Node) :
  same_shape P P' -> P' !! i = Some n' ->
  exists n, P !! i = Some n /\ children n' = children n.
Proof.
  intros H Hn'. apply (f_equal (fun l => l !! i)) in H.
  change (map children P' !! i) with ((children <$> P') !! i) in H.
  change (map children P !! i) with ((children <$> P) !! i) in H.
  rewrite !list_lookup_fmap, Hn' in H. simpl in H.
  destruct (P !! i) as [n|]; simpl in H; [|done].
  exists n. split; [done|]. congruence.
Qed.

Lemma same_shape_insert (P : list Node) (i : nat) (n n' : Node) :
  P !! i = Some n -> children n' = children n -> same_shape P (<[i := n']> P).
Proof.
  intros Hn Hc. unfold same_shape.
  change (map children (<[i:=n']> P)) with (children <$> <[i:=n']> P).
  rewrite list_fmap_insert, Hc. apply list_insert_id.
  by rewrite list_lookup_fmap, Hn.
Qed.

Lemma same_shape_alter (P : list Node) (i : nat) (f : Node -> Node) :
  (forall n, children (f n) = children n) -> same_shape P (alter f i P).
Proof.
  intros Hf. unfold same_shape. apply list_eq. intros j.
  change (map children (alter f i P)) with (children <$> alter f i P).
  change (map children P) with (children <$> P).
  rewrite !list_lookup_fmap.
  destruct (decide (i = j)) as [->|Hne].
  - rewrite list_lookup_alter_eq. destruct (P !! j); simpl; [|done]. by rewrite Hf.
  - by rewrite list_lookup_alter_ne.
Qed.

Lemma node_ok_children (D len i : nat) (n n' : Node) :
  children n' = children n -> node_ok D len i n -> node_ok D len i n'.
Proof.
  intros Hc [H1 H2]. unfold node_ok, isLeaf, child in *. rewrite Hc. by split.
Qed.

Lemma wf_same_shape (D : nat) (P P' : list Node) :
  wf_pool D P -> same_shape P P' -> wf_pool D P'.
Proof.
  intros [Hpos Hok] Hs. pose proof (same_shape_length P P' Hs) as Hlen.
  split; [lia|]. intros i n' Hn'.
  destruct (same_shape_lookup P P' i n' Hs Hn') as (n & Hn & Hc).
  rewrite Hlen. eapply node_ok_children; [done|]. by apply Hok.
Qed.

(** ** Filtered deposits keep the shape and return *)

Section SplatFiltered.

Variable D : nat.
Variable target : Q -> Q.

Lemma node_splat_cases (n : Node) (v w : Q) (sm : bool) :
  node_splat target n v w sm = AssertFailed
  \/ exists n', node_splat target n v w sm = Done n' /\ children n' = children n.
Proof.
  unfold node_splat.
  destruct (Qle_bool 0 w); simpl; [|by left].
  destruct (Qle_bool 0 v); simpl; [|by left].
  right. eexists. split; [reflexivity|]. done.
Qed.

Lemma splatFiltered_wf (sm : bool) (originMin originMax : Vector) (v w : Q) :
  forall fuel (P : list Node) (index : nat) (nodeMin : Vector) (nodeSize : Q),
    wf_pool D P -> (index < length P)%nat -> (length P - index <= fuel)%nat ->
    splatFiltered D target fuel sm originMin originMax v w
                  (Z.of_nat index) nodeMin nodeSize P = AssertFailed
    \/ exists P',
        splatFiltered D target fuel sm originMin originMax v w
                      (Z.of_nat index) nodeMin nodeSize P = Done P'
        /\ same_shape P P'.
Proof.
  induction fuel as [|fuel IH]; intros P index nodeMin nodeSize Hwf Hlt Hfuel; [lia|].
  simpl.
  destruct (Qlt_bool 0 _); [|right; exists P; split; [done|apply same_shape_refl]].
  destruct (lookup_lt_is_Some_2 P index Hlt) as [node Hnode].
  rewrite (node_at_nat _ _ _ Hnode). simpl.
  destruct (isLeaf node) eqn:Hleaf.
  - destruct (node_splat_cases node v (w * computeOverlap D originMin originMax nodeMin
                                             (nodeMax D nodeMin nodeSize))%Q sm)
      as [Hfail|(n' & Hn' & Hc)].
    + left. by rewrite Hfail.
    + right. rewrite Hn'. simpl. rewrite Nat2Z.id. eexists. split; [reflexivity|].
      by eapply same_shape_insert.
  - unfold splat_children.
    assert (Hloop : forall k, (k <= Arity D)%nat ->
      foldl (fun acc c =>
               let* nodes' := acc in
               splatFiltered D target fuel sm originMin originMax v w
                 (child node (Z.of_nat c)) (childMin D nodeMin (nodeSize / 2)%Q c)
                 (nodeSize / 2)%Q nodes')
            (Done P) (seq 0 k) = AssertFailed
      \/ exists P',
          foldl (fun acc c =>
                   let* nodes' := acc in
                   splatFiltered D target fuel sm originMin originMax v w
                     (child node (Z.of_nat c)) (childMin D nodeMin (nodeSize / 2)%Q c)
                     (nodeSize / 2)%Q nodes')
                (Done P) (seq 0 k) = Done P'
          /\ same_shape P P').
    { induction k as [|k IHk]; intros Hk.
      - right. exists P. split; [done|apply same_shape_refl].
      - rewrite seq_S, foldl_app. simpl.
        destruct IHk as [Hfail|(P1 & HP1 & Hs1)]; [lia| |].
        + left. by rewrite Hfail.
        + rewrite HP1. simpl.
          destruct Hwf as [Hpos Hok]. destruct (Hok index node Hnode) as [_ Hch].
          specialize (Hch Hleaf k ltac:(lia)).
          pose proof (same_shape_length _ _ Hs1) as Hlen1.
          destruct (IH P1 (Z.to_nat (child node (Z.of_nat k)))
                       (childMin D nodeMin (nodeSize / 2)%Q k) (nodeSize / 2)%Q)
            as [Hfail|(P2 & HP2 & Hs2)].
          * eapply wf_same_shape; [|exact Hs1]. by split.
          * lia.
          * lia.
          * left. rewrite Z2Nat.id in Hfail by lia. done.
          * right. rewrite Z2Nat.id in HP2 by lia. exists P2. split; [done|].
            by eapply same_shape_trans. }
    apply Hloop. lia.
Qed.

Lemma splat_wf (t t' : BTreeDistribution) (x : Vector) (v w : Q) :
  wf_pool D (m_nodes t) -> splat D target t x v w = Done t' ->
  same_shape (m_nodes t) (m_nodes t')
  /\ m_splitThreshold t' = m_splitThreshold t
  /\ m_leafReweighting t' = m_leafReweighting t
  /\ m_doFiltering t' = m_doFiltering t
  /\ m_secondMoment t' = m_secondMoment t.
Proof.
  intros Hwf. unfold splat.
  destruct (indexAt_wf D (m_nodes t) x Hwf) as (i & d & leaf & Hidx & Hi & Hleaf & _).
  rewrite Hidx. simpl.
  destruct (negb (m_doFiltering t)).
  - rewrite (node_at_nat _ _ _ Hi). simpl.
    destruct (node_splat_cases leaf v w (m_secondMoment t)) as [Hfail|(n' & Hn' & Hc)].
    + rewrite Hfail. discriminate.
    + rewrite Hn'. simpl. rewrite Nat2Z.id. intros H. injection H as <-. simpl.
      split; [by eapply same_shape_insert|done].
  - destruct (31 <=? d); [discriminate|].
    pose proof Hwf as [Hpos _].
    match goal with |- context [splatFiltered D target ?f ?sm ?a ?b ?c ?e 0 ?g ?h ?P] =>
      destruct (splatFiltered_wf sm a b c e f P 0%nat g h Hwf Hpos ltac:(lia))
        as [Hfail|(P' & HP' & Hs)] end.
    + change (Z.of_nat 0) with 0 in Hfail. rewrite Hfail. discriminate.
    + change (Z.of_nat 0) with 0 in HP'. rewrite HP'. simpl.
      intros H. injection H as <-. simpl. done.
Qed.

End SplatFiltered.

(** ** Build keeps the pool in order *)

Section BuildWf.

Variable D : nat.
Variable fsqrt : Q -> Q.

Lemma build_post_nil_wf (res : list Node) : build_post D [] res -> wf_pool D res.
Proof.
  intros (Hlt & _ & Hok). split; [simpl in Hlt; lia|].
  intros i n Hn. apply Hok; [simpl; lia|done].
Qed.

Lemma build_wf (t : BTreeDistribution) :
  wf_pool D (m_nodes t) ->
  exists t', build D fsqrt t = Done t'
             /\ wf_pool D (m_nodes t')
             /\ m_splitThreshold t' = m_splitThreshold t
             /\ m_leafReweighting t' = m_leafReweighting t
             /\ m_doFiltering t' = m_doFiltering t
             /\ m_secondMoment t' = m_secondMoment t.
Proof.
  intros Hwf. pose proof Hwf as [Hpos Hok].
  destruct (build_rec_ok D fsqrt (m_leafReweighting t) (m_secondMoment t) (m_nodes t)
                         Hwf (length (m_nodes t)) 0%nat 1%Q [])
    as (newNodes & Hrec & Hpost); [lia|lia|discriminate|].
  change (Z.of_nat 0) with 0 in Hrec.
  pose proof (build_post_nil_wf newNodes Hpost) as Hnew.
  destruct Hnew as [Hnpos Hnok].
  destruct (lookup_lt_is_Some_2 newNodes 0%nat Hnpos) as [root Hroot].
  pose proof (node_at_nat newNodes 0%nat root Hroot) as Hat.
  change (Z.of_nat 0) with 0 in Hat.
  unfold build. rewrite Hrec. simpl. rewrite Hat. simpl.
  destruct (Qle_bool (weight root) 0 || Qeq_bool (density root) 0).
  - eexists. split; [reflexivity|]. simpl. split; [|done].
    destruct (setUniform_spec D (m_nodes t)) as (u & -> & Hleaf & _ & _ & _ & Hlen).
    apply wf_single_leaf; [|done]. rewrite Hlen.
    destruct (lookup_lt_is_Some_2 (m_nodes t) 0%nat Hpos) as [r Hr].
    rewrite Hr. simpl. by destruct (Hok 0%nat r Hr).
  - eexists. split; [reflexivity|]. simpl. split; [|done].
    apply (wf_same_shape D newNodes); [by split|].
    unfold same_shape. rewrite map_map. simpl. done.
Qed.

End BuildWf.

(** ** Refine *)

Section RefineProps.

Variable D : nat.

Abbreviation A := (inject_Z (Z.of_nat (Arity D))).

Lemma refine_rec_S (fuel : nat) (thr s : Q) (index : Z) (P : list Node) :
  refine_rec D (Datatypes.S fuel) thr s index P =
  (let* node := node_at P index in
   if isLeaf node then
     if Qle_bool thr (density node / s) then
       let* P' := split D index P in
       refine_children D (refine_rec D fuel thr (s * A)%Q) index P'
     else Done (alter node_reset (Z.to_nat index) P)
   else refine_children D (refine_rec D fuel thr (s * A)%Q) index P).
Proof. reflexivity. Qed.

(** The second loop of [split]: after [k] rounds the first [k] child
    slots of the parent hold what the [int] conversion made of the new
    indices. *)
Lemma split_loop (P0 : list Node) (j : nat) (n : Node) (len : Z) :
  P0 !! j = Some n ->
  forall k,
    length (foldl (fun nodes c =>
                     alter (fun m : Node => set_child m c (to_int (len + Z.of_nat c)))
                           j nodes)
                  P0 (seq 0 k)) = length P0
    /\ (forall i, i <> j ->
          foldl (fun nodes c =>
                   alter (fun m : Node => set_child m c (to_int (len + Z.of_nat c)))
                         j nodes)
                P0 (seq 0 k) !! i = P0 !! i)
    /\ exists nk,
         foldl (fun nodes c =>
                  alter (fun m : Node => set_child m c (to_int (len + Z.of_nat c)))
                        j nodes)
               P0 (seq 0 k) !! j = Some nk
         /\ length (children nk) = length (children n)
         /\ density nk = density n /\ value nk = value n /\ weight nk = weight n
         /\ forall c : nat, (c < k)%nat -> (c < length (children n))%nat ->
              child nk (Z.of_nat c) = to_int (len + Z.of_nat c).
Proof.
  intros Hn. induction k as [|k (Hl & Hne & nk & Hnk & Hnkl & Hnkd & Hnkv & Hnkw & Hnkc)].
  - simpl. split; [done|]. split; [done|]. exists n. repeat split; auto. lia.
  - rewrite seq_S, foldl_app. simpl. rewrite length_alter. split; [done|]. split.
    + intros i Hi. rewrite list_lookup_alter_ne by done. by apply Hne.
    + exists (set_child nk k (to_int (len + Z.of_nat k))).
      rewrite list_lookup_alter_eq, Hnk. split; [done|].
      split; [unfold set_child; simpl; by rewrite length_insert|].
      split; [done|]. split; [done|]. split; [done|].
      intros c Hc Hcl. destruct (decide (c = k)) as [->|Hck].
      * rewrite child_set_child_eq by lia. done.
      * rewrite child_set_child_ne by done. apply Hnkc; lia.
Qed.

(** What a [split] that returned has done. *)
Lemma split_Done (P P1 : list Node) (index : Z) :
  split D index P = Done P1 ->
  exists (j : nat) (n nj : Node),
    index = Z.of_nat j /\ P !! j = Some n /\ isLeaf n = true
    /\ length P1 = (length P + Arity D)%nat
    /\ (forall i, i <> j -> P1 !! i = (P ++ replicate (Arity D) n) !! i)
    /\ P1 !! j = Some nj
    /\ density nj = density n
    /\ forall c : nat, (c < Arity D)%nat -> (c < length (children n))%nat ->
         child nj (Z.of_nat c) = to_int (Z.of_nat (length P) + Z.of_nat c).
Proof.
  unfold split. intros H.
  apply obind_Done in H as ([] & _ & H).
  apply obind_Done in H as (n & Hn & H).
  apply obind_Done in H as ([] & Hleaf & H).
  apply node_at_Done in Hn as [H0 Hn].
  unfold assert in Hleaf. destruct (isLeaf n) eqn:E; [|done].
  injection H as <-.
  assert (Hn1 : (P ++ replicate (Arity D) n) !! Z.to_nat index = Some n).
  { rewrite lookup_app_l; [done|]. by eapply lookup_lt_Some. }
  destruct (split_loop _ _ n (Z.of_nat (length P)) Hn1 (Arity D))
    as (Hl & Hne & nk & Hnk & _ & Hnkd & _ & _ & Hnkc).
  exists (Z.to_nat index), n, nk. split; [lia|]. split; [done|]. split; [done|].
  split; [by rewrite Hl, length_app, length_replicate|].
  split; [exact Hne|]. split; [exact Hnk|]. split; [done|exact Hnkc].
Qed.

Lemma to_int_small (z : Z) : 0 <= z < 2 ^ 31 -> to_int z = z.
Proof. intros H. unfold to_int. rewrite Z.mod_small by lia. lia. Qed.

Lemma to_int_wraps (z : Z) : 2 ^ 31 <= z < 2 ^ 32 -> to_int z < 0.
Proof.
  intros H. unfold to_int.
  replace (z + 2 ^ 31) with (z - 2 ^ 31 + 1 * 2 ^ 32) by lia.
  rewrite Z.mod_add by lia. rewrite Z.mod_small by lia. lia.
Qed.

(** [split] appends [Arity] copies of the leaf and points the leaf at
    them, as long as the new indices fit an [int]. *)
Lemma split_spec (P : list Node) (j : nat) (n : Node) :
  wf_pool D P -> P !! j = Some n -> isLeaf n = true ->
  Z.of_nat (length P) + Z.of_nat (Arity D) <= 2 ^ 31 ->
  exists P1 nj,
    split D (Z.of_nat j) P = Done P1
    /\ length P1 = (length P + Arity D)%nat
    /\ (forall i, i <> j -> P1 !! i = (P ++ replicate (Arity D) n) !! i)
    /\ P1 !! j = Some nj
    /\ length (children nj) = Arity D
    /\ density nj = density n
    /\ (forall c : nat, (c < Arity D)%nat ->
          child nj (Z.of_nat c) = Z.of_nat (length P) + Z.of_nat c).
Proof.
  intros [Hpos Hok] Hn Hleaf Hsmall. pose proof (lookup_lt_Some _ _ _ Hn) as Hj.
  destruct (Hok j n Hn) as [Hlen _].
  unfold split.
  replace (Z.of_nat j <? Z.of_nat (length P)) with true
    by (symmetry; apply Z.ltb_lt; lia).
  simpl. rewrite (node_at_nat _ _ _ Hn). simpl. rewrite Hleaf. simpl.
  rewrite Nat2Z.id.
  assert (Hn1 : (P ++ replicate (Arity D) n) !! j = Some n)
    by (by rewrite lookup_app_l).
  destruct (split_loop _ _ n (Z.of_nat (length P)) Hn1 (Arity D))
    as (Hl & Hne & nk & Hnk & Hnkl & Hnkd & _ & _ & Hnkc).
  eexists _, nk. split; [reflexivity|].
  split; [by rewrite Hl, length_app, length_replicate|].
  split; [exact Hne|]. split; [exact Hnk|]. split; [congruence|]. split; [done|].
  intros c Hc. rewrite Hnkc by lia. apply to_int_small. lia.
Qed.

Lemma split_wf (P P1 : list Node) (j : nat) (n nj : Node) :
  wf_pool D P -> P !! j = Some n -> isLeaf n = true ->
  length P1 = (length P + Arity D)%nat ->
  (forall i, i <> j -> P1 !! i = (P ++ replicate (Arity D) n) !! i) ->
  P1 !! j = Some nj -> length (children nj) = Arity D ->
  (forall c : nat, (c < Arity D)%nat ->
     child nj (Z.of_nat c) = Z.of_nat (length P) + Z.of_nat c) ->
  wf_pool D P1.
Proof.
  intros [Hpos Hok] Hn Hleaf Hl Hne Hnj Hnjl Hnjc.
  pose proof (lookup_lt_Some _ _ _ Hn) as Hj.
  split; [lia|]. intros i m Hm. rewrite Hl.
  destruct (decide (i = j)) as [->|Hij].
  - rewrite Hnj in Hm. injection Hm as <-. split; [done|].
    intros _ c Hc. rewrite Hnjc by done. lia.
  - rewrite Hne in Hm by done.
    destruct (decide (i < length P)%nat) as [Hlt|Hge].
    + rewrite lookup_app_l in Hm by done.
      eapply node_ok_mono; [by apply Hok|lia].
    + rewrite lookup_app_r in Hm by lia. apply lookup_replicate in Hm as [-> _].
      apply node_ok_leaf; [|done]. by destruct (Hok j n Hn).
Qed.

(** *** The pool only grows *)

Lemma refine_children_length (rec : Z -> list Node -> outcome (list Node))
      (index : Z) (P P' : list Node) :
  (forall i Pc Pc', rec i Pc = Done Pc' -> (length Pc <= length Pc')%nat) ->
  refine_children D rec index P = Done P' -> (length P <= length P')%nat.
Proof.
  intros Hrec. unfold refine_children.
  assert (Hloop : forall k Pk,
    foldl (fun acc c => let* nodes := acc in
                        let* n := node_at nodes index in
                        rec (child n (Z.of_nat c)) nodes)
          (Done P) (seq 0 k) = Done Pk ->
    (length P <= length Pk)%nat).
  { induction k as [|k IH]; intros Pk H.
    - simpl in H. injection H as <-. lia.
    - rewrite seq_S, foldl_app in H. simpl in H.
      apply obind_Done in H as (Pc & HPc & H).
      apply obind_Done in H as (m & _ & H).
      specialize (IH _ HPc). apply Hrec in H. lia. }
  apply Hloop.
Qed.

Lemma refine_rec_length (thr : Q) :
  forall fuel (s : Q) (index : Z) (P P' : list Node),
    refine_rec D fuel thr s index P = Done P' -> (length P <= length P')%nat.
Proof.
  induction fuel as [|fuel IH]; intros s index P P' H; [done|].
  rewrite refine_rec_S in H. apply obind_Done in H as (n & Hn & H).
  destruct (isLeaf n).
  - destruct (Qle_bool thr (density n / s)).
    + apply obind_Done in H as (P1 & Hsplit & H).
      apply split_Done in Hsplit as (j & n0 & nj & _ & _ & _ & Hl & _).
      apply refine_children_length in H; [lia|]. intros i Pc Pc'. apply IH.
    + injection H as <-. by rewrite length_alter.
  - apply refine_children_length in H; [done|]. intros i Pc Pc'. apply IH.
Qed.

(** A [split] inside a run whose result [int] indices can address fits
    them itself. *)
Lemma split_in_run (rec : Z -> list Node -> outcome (list Node))
      (index : Z) (P P' : list Node) :
  (forall i Pc Pc', rec i Pc = Done Pc' -> (length Pc <= length Pc')%nat) ->
  (let* P1 := split D index P in refine_children D rec index P1) = Done P' ->
  int_pool P' ->
  Z.of_nat (length P) + Z.of_nat (Arity D) <= 2 ^ 31.
Proof.
  intros Hrec H Hfit. apply obind_Done in H as (P1 & Hsplit & H).
  apply split_Done in Hsplit as (j & n0 & nj & _ & _ & _ & Hl & _).
  apply refine_children_length in H; [|done]. unfold int_pool in Hfit. lia.
Qed.

Lemma int_pool_le (P P' : list Node) :
  (length P <= length P')%nat -> int_pool P' -> int_pool P.
Proof. unfold int_pool. lia. Qed.

Lemma refine_post_refl (P : list Node) : wf_pool D P -> refine_post D P P.
Proof. intros H. split; [done|]. split; [lia|]. auto. Qed.

Lemma refine_post_trans (P1 P2 P3 : list Node) :
  refine_post D P1 P2 -> refine_post D P2 P3 -> refine_post D P1 P3.
Proof.
  intros (_ & Hl1 & Hk1) (Hwf & Hl2 & Hk2). split; [done|]. split; [lia|].
  intros i n Hn Hleaf. apply Hk2; [|done]. by apply Hk1.
Qed.

(** The loop over the children, for a recursive call [rec1] that can be
    exchanged for [rec2] wherever it is made with a result in [Ok]; the
    calls are looked at only where their result fits [int] indices. *)
Lemma refine_children_transfer (rec1 rec2 : Z -> list Node -> outcome (list Node))
      (Ok : list Node -> Prop) (j : nat) (P0 P P' : list Node) (nj : Node) :
  refine_post D P0 P -> P !! j = Some nj -> isLeaf nj = false ->
  (forall Pc Pc', refine_post D Pc Pc' -> Ok Pc' -> Ok Pc) ->
  (forall i Pc Pc', rec1 i Pc = Done Pc' -> (length Pc <= length Pc')%nat) ->
  (forall (c : nat) Pc Pc',
      (c < Arity D)%nat -> refine_post D P Pc -> int_pool Pc' ->
      rec1 (child nj (Z.of_nat c)) Pc = Done Pc' ->
      refine_post D Pc Pc' /\ (Ok Pc' -> rec2 (child nj (Z.of_nat c)) Pc = Done Pc')) ->
  refine_children D rec1 (Z.of_nat j) P = Done P' -> int_pool P' ->
  refine_post D P0 P' /\ (Ok P' -> refine_children D rec2 (Z.of_nat j) P = Done P').
Proof.
  intros HP0 Hnj Hleaf Hok Hmono Hrec. unfold refine_children.
  assert (Hloop : forall k Pk, (k <= Arity D)%nat ->
    foldl (fun acc c => let* nodes := acc in
                        let* n := node_at nodes (Z.of_nat j) in
                        rec1 (child n (Z.of_nat c)) nodes)
          (Done P) (seq 0 k) = Done Pk ->
    int_pool Pk ->
    refine_post D P Pk
    /\ (Ok Pk ->
        foldl (fun acc c => let* nodes := acc in
                            let* n := node_at nodes (Z.of_nat j) in
                            rec2 (child n (Z.of_nat c)) nodes)
              (Done P) (seq 0 k) = Done Pk)).
  { induction k as [|k IH]; intros Pk Hk.
    - simpl. intros H _. injection H as <-. split; [|done].
      apply refine_post_refl. by destruct HP0.
    - rewrite !seq_S, !foldl_app. simpl. intros H Hfit.
      apply obind_Done in H as (Pc & HPc & H).
      assert (Hfitc : int_pool Pc).
      { apply obind_Done in H as (m & _ & H). apply Hmono in H.
        by eapply int_pool_le. }
      destruct (IH Pc ltac:(lia) HPc Hfitc) as (Hpost & HPc2).
      pose proof Hpost as (_ & _ & Hkeep).
      rewrite (node_at_nat _ _ _ (Hkeep j nj Hnj Hleaf)) in H. simpl in H.
      destruct (Hrec k Pc Pk ltac:(lia) Hpost Hfit H) as (Hpost2 & H2).
      split; [by eapply refine_post_trans|].
      intros HokPk. rewrite (HPc2 (Hok Pc Pk Hpost2 HokPk)). simpl.
      rewrite (node_at_nat _ _ _ (Hkeep j nj Hnj Hleaf)). simpl. by apply H2. }
  intros H Hfit. destruct (Hloop (Arity D) P' ltac:(lia) H Hfit) as (Hpost & H2).
  split; [by eapply refine_post_trans|done].
Qed.

Lemma wf_internal_child (P : list Node) (j c : nat) (nj : Node) :
  wf_pool D P -> P !! j = Some nj -> isLeaf nj = false -> (c < Arity D)%nat ->
  exists i : nat, child nj (Z.of_nat c) = Z.of_nat i /\ (j < i < length P)%nat.
Proof.
  intros [_ Hok] Hnj Hleaf Hc. destruct (Hok j nj Hnj) as [_ Hch].
  specialize (Hch Hleaf c Hc). exists (Z.to_nat (child nj (Z.of_nat c))).
  rewrite Z2Nat.id by lia. split; [done|lia].
Qed.

(** A [refine] that returns a pool within the reach of [int] indices
    leaves it in order. *)
Lemma refine_rec_post (thr : Q) :
  forall fuel (s : Q) (j : nat) (P P' : list Node),
    wf_pool D P -> (j < length P)%nat ->
    refine_rec D fuel thr s (Z.of_nat j) P = Done P' -> int_pool P' ->
    refine_post D P P'.
Proof.
  induction fuel as [|fuel IH]; intros s j P P' Hwf Hj H Hfit; [done|].
  rewrite refine_rec_S in H.
  destruct (lookup_lt_is_Some_2 P j Hj) as [n Hn].
  rewrite (node_at_nat _ _ _ Hn) in H. simpl in H.
  assert (Hdesc : forall P0 P1 nj,
            refine_post D P0 P1 -> P1 !! j = Some nj -> isLeaf nj = false ->
            refine_children D (refine_rec D fuel thr (s * A)%Q) (Z.of_nat j) P1 = Done P' ->
            refine_post D P0 P').
  { intros P0 P1 nj HP0 Hnj Hleaf Hc.
    eapply (refine_children_transfer _ (refine_rec D fuel thr (s * A)%Q)
              (fun _ => True) j P0 P1 P' nj HP0 Hnj Hleaf);
      [done|apply refine_rec_length| |exact Hc|exact Hfit].
    intros c Pc Pc' Hc' Hpost Hfitc Hrec. split; [|done].
    pose proof Hpost as (Hwfc & Hlc & Hkc).
    destruct (wf_internal_child Pc j c nj Hwfc (Hkc j nj Hnj Hleaf) Hleaf Hc')
      as (i & Hi & Hrange).
    rewrite Hi in Hrec. eapply IH; [done| |exact Hrec|done]. lia. }
  destruct (isLeaf n) eqn:Hleaf.
  - destruct (Qle_bool thr (density n / s)).
    + pose proof (split_in_run _ _ _ _ (refine_rec_length thr fuel (s * A)%Q) H Hfit)
        as Hsmall.
      destruct (split_spec P j n Hwf Hn Hleaf Hsmall)
        as (P1 & nj & Hsplit & Hl & Hne & Hnj & Hnjl & Hnjd & Hnjc).
      rewrite Hsplit in H. simpl in H.
      pose proof (split_wf P P1 j n nj Hwf Hn Hleaf Hl Hne Hnj Hnjl Hnjc) as Hwf1.
      assert (Hnjleaf : isLeaf nj = false).
      { unfold isLeaf. pose proof (Hnjc 0%nat (Arity_pos D)) as H0.
        change (Z.of_nat 0) with 0 in H0. destruct Hwf as [Hpos _].
        apply Z.eqb_neq. lia. }
      apply (Hdesc P P1 nj); auto.
      split; [done|]. split; [lia|].
      intros i m Hm Hmleaf. destruct (decide (i = j)) as [->|Hij]; [congruence|].
      rewrite Hne by done. rewrite lookup_app_l; [done|]. by eapply lookup_lt_Some.
    + injection H as <-. rewrite Nat2Z.id.
      split; [|split].
      * eapply wf_same_shape; [done|]. by apply same_shape_alter.
      * by rewrite length_alter.
      * intros i m Hm Hmleaf. destruct (decide (i = j)) as [->|Hij]; [congruence|].
        by rewrite list_lookup_alter_ne.
  - apply (Hdesc P P n); auto. by apply refine_post_refl.
Qed.

(** More fuel does not change the result. *)
Lemma refine_rec_mono (thr : Q) :
  forall fuel fuel' (s : Q) (j : nat) (P P' : list Node),
    wf_pool D P -> (j < length P)%nat -> (fuel <= fuel')%nat ->
    refine_rec D fuel thr s (Z.of_nat j) P = Done P' -> int_pool P' ->
    refine_rec D fuel' thr s (Z.of_nat j) P = Done P'.
Proof.
  induction fuel as [|fuel IH]; intros fuel' s j P P' Hwf Hj Hle H Hfit; [done|].
  destruct fuel' as [|fuel']; [lia|].
  rewrite refine_rec_S in H |- *.
  destruct (lookup_lt_is_Some_2 P j Hj) as [n Hn].
  rewrite (node_at_nat _ _ _ Hn) in H |- *. simpl in *.
  assert (Hdesc : forall P1 nj,
            wf_pool D P1 -> P1 !! j = Some nj -> isLeaf nj = false ->
            refine_children D (refine_rec D fuel thr (s * A)%Q) (Z.of_nat j) P1 = Done P' ->
            refine_children D (refine_rec D fuel' thr (s * A)%Q) (Z.of_nat j) P1 = Done P').
  { intros P1 nj Hwf1 Hnj Hleaf Hc.
    eapply (refine_children_transfer _ _ (fun _ => True) j P1 P1 P' nj
              (refine_post_refl P1 Hwf1) Hnj Hleaf);
      [done|apply refine_rec_length| |exact Hc|exact Hfit|done].
    intros c Pc Pc' Hc' Hpost Hfitc Hrec.
    pose proof Hpost as (Hwfc & Hlc & Hkc).
    destruct (wf_internal_child Pc j c nj Hwfc (Hkc j nj Hnj Hleaf) Hleaf Hc')
      as (i & Hi & Hrange).
    rewrite Hi in Hrec |- *. split.
    - eapply refine_rec_post; [done| |exact Hrec|done]. lia.
    - intros _. eapply IH; [done| | |exact Hrec|done]; lia. }
  destruct (isLeaf n) eqn:Hleaf.
  - destruct (Qle_bool thr (density n / s)); [|done].
    pose proof (split_in_run _ _ _ _ (refine_rec_length thr fuel (s * A)%Q) H Hfit)
      as Hsmall.
    destruct (split_spec P j n Hwf Hn Hleaf Hsmall)
      as (P1 & nj & Hsplit & Hl & Hne & Hnj & Hnjl & Hnjd & Hnjc).
    rewrite Hsplit in H |- *. simpl in *.
    apply (Hdesc P1 nj); auto.
    + by apply (split_wf P P1 j n nj).
    + unfold isLeaf. pose proof (Hnjc 0%nat (Arity_pos D)) as H0.
      change (Z.of_nat 0) with 0 in H0. destruct Hwf as [Hpos _].
      apply Z.eqb_neq. lia.
  - by apply (Hdesc P n).
Qed.

(** The recursion never goes deeper than the refined pool is long. *)
Lemma refine_rec_fuel_bound (thr : Q) :
  forall fuel (s : Q) (j : nat) (P P' : list Node) (N : nat),
    wf_pool D P -> (j < length P)%nat ->
    refine_rec D fuel thr s (Z.of_nat j) P = Done P' -> int_pool P' ->
    (length P' <= N)%nat ->
    refine_rec D (N - j) thr s (Z.of_nat j) P = Done P'.
Proof.
  induction fuel as [|fuel IH]; intros s j P P' N Hwf Hj H Hfit HN; [done|].
  pose proof (refine_rec_post thr _ _ _ _ _ Hwf Hj H Hfit) as (Hwf' & Hlen & _).
  destruct (N - j)%nat as [|g] eqn:Eg; [lia|].
  rewrite refine_rec_S in H |- *.
  destruct (lookup_lt_is_Some_2 P j Hj) as [n Hn].
  rewrite (node_at_nat _ _ _ Hn) in H |- *. simpl in *.
  assert (Hdesc : forall P1 nj,
            wf_pool D P1 -> P1 !! j = Some nj -> isLeaf nj = false ->
            refine_children D (refine_rec D fuel thr (s * A)%Q) (Z.of_nat j) P1 = Done P' ->
            refine_children D (refine_rec D g thr (s * A)%Q) (Z.of_nat j) P1 = Done P').
  { intros P1 nj Hwf1 Hnj Hleaf Hc.
    eapply (refine_children_transfer _ _ (fun Pc => (length Pc <= N)%nat) j P1 P1 P' nj
              (refine_post_refl P1 Hwf1) Hnj Hleaf);
      [ |apply refine_rec_length| |exact Hc|exact Hfit|exact HN].
    - intros Pc Pc' (_ & Hl & _) HPc. lia.
    - intros c Pc Pc' Hc' Hpost Hfitc Hrec.
      pose proof Hpost as (Hwfc & Hlc & Hkc).
      destruct (wf_internal_child Pc j c nj Hwfc (Hkc j nj Hnj Hleaf) Hleaf Hc')
        as (i & Hi & Hrange).
      rewrite Hi in Hrec |- *. split.
      + eapply refine_rec_post; [done| |exact Hrec|done]. lia.
      + intros HPc'. eapply (refine_rec_mono thr (N - i)); [done|lia|lia| |done].
        eapply IH; [done|lia|exact Hrec|done|done]. }
  destruct (isLeaf n) eqn:Hleaf.
  - destruct (Qle_bool thr (density n / s)); [|done].
    pose proof (split_in_run _ _ _ _ (refine_rec_length thr fuel (s * A)%Q) H Hfit)
      as Hsmall.
    destruct (split_spec P j n Hwf Hn Hleaf Hsmall)
      as (P1 & nj & Hsplit & Hl & Hne & Hnj & Hnjl & Hnjd & Hnjc).
    rewrite Hsplit in H |- *. simpl in *.
    apply (Hdesc P1 nj); auto.
    + by apply (split_wf P P1 j n nj).
    + unfold isLeaf. pose proof (Hnjc 0%nat (Arity_pos D)) as H0.
      change (Z.of_nat 0) with 0 in H0. destruct Hwf as [Hpos _].
      apply Z.eqb_neq. lia.
  - by apply (Hdesc P n).
Qed.

(** *** Refine returns *)

Variables thr M : Q.
Hypothesis Hthr : (0 < thr)%Q.
Hypothesis HM : (0 <= M)%Q.

Lemma A_ge_1 : (1 <= A)%Q.
Proof.
  change 1%Q with (inject_Z 1). rewrite <- Zle_Qle.
  pose proof (Arity_pos D). lia.
Qed.

Lemma growth_nonneg (L : nat) : 0 <= growth (Z.of_nat (Arity D)) L.
Proof. induction L as [|L IH]; simpl; nia. Qed.

Lemma criterion_below (d s : Q) :
  (d <= M)%Q -> (0 < s)%Q -> (M < thr * s)%Q -> Qle_bool thr (d / s) = false.
Proof.
  intros Hd Hs Hq. destruct (Qle_bool thr (d / s)) eqn:E; [|done].
  apply Qle_bool_iff in E.
  assert (d / s < thr)%Q.
  { apply Qlt_shift_div_r; [done|]. eapply Qle_lt_trans; [exact Hd|exact Hq]. }
  exfalso. eapply Qlt_not_le; eauto.
Qed.

Lemma dens_le_alter (P : list Node) (j : nat) (f : Node -> Node) :
  dens_le M P -> (forall n, (density n <= M)%Q -> (density (f n) <= M)%Q) ->
  dens_le M (alter f j P).
Proof.
  intros HP Hf i n Hn. destruct (decide (j = i)) as [->|Hne].
  - rewrite list_lookup_alter_eq in Hn.
    destruct (P !! i) as [m|] eqn:E; simpl in Hn; [|done].
    injection Hn as <-. apply Hf. by eapply HP.
  - rewrite list_lookup_alter_ne in Hn by done. by eapply HP.
Qed.

(** Where nothing can be split, [refine] walks the pool and resets its
    leaves. *)
Lemma refine_rec_quiet :
  forall fuel (s : Q) (j : nat) (P : list Node),
    wf_pool D P -> dens_le M P -> (j < length P)%nat ->
    (length P - j <= fuel)%nat -> (0 < s)%Q -> (M < thr * s)%Q ->
    exists P', refine_rec D fuel thr s (Z.of_nat j) P = Done P'
               /\ same_shape P P' /\ dens_le M P'.
Proof.
  induction fuel as [|fuel IH]; intros s j P Hwf Hd Hj Hfuel Hs Hq; [lia|].
  rewrite refine_rec_S.
  destruct (lookup_lt_is_Some_2 P j Hj) as [n Hn].
  rewrite (node_at_nat _ _ _ Hn). simpl.
  destruct (isLeaf n) eqn:Hleaf.
  - rewrite (criterion_below (density n) s (Hd j n Hn) Hs Hq).
    eexists. split; [reflexivity|]. rewrite Nat2Z.id. split.
    + by apply same_shape_alter.
    + apply dens_le_alter; [done|]. intros m _. simpl. exact HM.
  - unfold refine_children.
    assert (HsA : (0 < s * A)%Q) by (pose proof A_ge_1; nra).
    assert (HqA : (M < thr * (s * A))%Q) by (pose proof A_ge_1; nra).
    assert (Hloop : forall k, (k <= Arity D)%nat ->
      exists Pk,
        foldl (fun acc c => let* nodes := acc in
                            let* m := node_at nodes (Z.of_nat j) in
                            refine_rec D fuel thr (s * A)%Q (child m (Z.of_nat c)) nodes)
              (Done P) (seq 0 k) = Done Pk
        /\ same_shape P Pk /\ dens_le M Pk).
    { induction k as [|k IHk]; intros Hk.
      - exists P. split; [done|]. split; [apply same_shape_refl|done].
      - destruct IHk as (Pk & HPk & Hs1 & Hd1); [lia|].
        rewrite seq_S, foldl_app, HPk. simpl.
        pose proof (same_shape_length _ _ Hs1) as Hl1.
        pose proof (wf_same_shape D _ _ Hwf Hs1) as Hwf1.
        destruct (lookup_lt_is_Some_2 Pk j ltac:(lia)) as [m Hm].
        rewrite (node_at_nat _ _ _ Hm). simpl.
        destruct (same_shape_lookup _ _ _ _ Hs1 Hm) as (n0 & Hn0 & Hc).
        assert (n0 = n) as -> by congruence.
        assert (Hmleaf : isLeaf m = false) by (unfold isLeaf, child in *; by rewrite Hc).
        destruct (wf_internal_child Pk j k m Hwf1 Hm Hmleaf ltac:(lia))
          as (i & Hi & Hrange).
        rewrite Hi.
        destruct (IH (s * A)%Q i Pk Hwf1 Hd1 ltac:(lia) ltac:(lia) HsA HqA)
          as (P2 & HP2 & Hs2 & Hd2).
        exists P2. split; [done|]. split; [by eapply same_shape_trans|done]. }
    apply Hloop. lia.
Qed.

(** With [L] levels to go before everything is quiet, [refine] returns,
    and has added no more than [growth Arity L] nodes, as long as [int]
    indices can address that many. *)
Lemma refine_rec_levels :
  forall L (s : Q) (j : nat) (P : list Node),
    wf_pool D P -> dens_le M P -> (j < length P)%nat -> (0 < s)%Q ->
    quiet thr M A L s ->
    Z.of_nat (length P) + growth (Z.of_nat (Arity D)) L <= 2 ^ 31 ->
    exists fuel P',
      refine_rec D fuel thr s (Z.of_nat j) P = Done P' /\ dens_le M P'
      /\ Z.of_nat (length P') <= Z.of_nat (length P) + growth (Z.of_nat (Arity D)) L.
Proof.
  induction L as [|L IH]; intros s j P Hwf Hd Hj Hs Hq Hsmall.
  - destruct (refine_rec_quiet (length P - j) s j P Hwf Hd Hj ltac:(lia) Hs Hq)
      as (P' & HP' & Hsh & Hd').
    exists (length P - j)%nat, P'. split; [done|]. split; [done|].
    rewrite (same_shape_length _ _ Hsh). simpl. lia.
  - simpl in Hq. simpl growth in Hsmall |- *.
    pose proof (growth_nonneg L) as HG. pose proof (Arity_pos D) as HA.
    set (G := growth (Z.of_nat (Arity D)) L) in *.
    assert (HsA : (0 < s * A)%Q) by (pose proof A_ge_1; nra).
    assert (Hdesc : forall P1 nj,
              wf_pool D P1 -> dens_le M P1 -> P1 !! j = Some nj -> isLeaf nj = false ->
              Z.of_nat (length P1) + Z.of_nat (Arity D) * G <= 2 ^ 31 ->
              exists fuel P',
                refine_children D (refine_rec D fuel thr (s * A)%Q) (Z.of_nat j) P1 = Done P'
                /\ dens_le M P'
                /\ Z.of_nat (length P') <= Z.of_nat (length P1) + Z.of_nat (Arity D) * G).
    { intros P1 nj Hwf1 Hd1 Hnj Hleaf Hsmall1. unfold refine_children.
      assert (Hloop : forall k, (k <= Arity D)%nat ->
        exists fuel Pk,
          (forall fuel', (fuel <= fuel')%nat ->
             foldl (fun acc c => let* nodes := acc in
                                 let* m := node_at nodes (Z.of_nat j) in
                                 refine_rec D fuel' thr (s * A)%Q (child m (Z.of_nat c)) nodes)
                   (Done P1) (seq 0 k) = Done Pk)
          /\ refine_post D P1 Pk /\ dens_le M Pk
          /\ Z.of_nat (length Pk) <= Z.of_nat (length P1) + Z.of_nat k * G).
      { induction k as [|k IHk]; intros Hk.
        - exists 0%nat, P1. split; [done|]. split; [by apply refine_post_refl|].
          split; [done|]. lia.
        - destruct IHk as (f1 & Pk & HPk & Hpost & Hdk & Hlk); [lia|].
          pose proof Hpost as (Hwfk & Hlk' & Hkeep).
          pose proof (Hkeep j nj Hnj Hleaf) as Hnjk.
          destruct (wf_internal_child Pk j k nj Hwfk Hnjk Hleaf ltac:(lia))
            as (i & Hi & Hrange).
          assert (Hroom : Z.of_nat (length Pk) + G <= 2 ^ 31) by nia.
          destruct (IH (s * A)%Q i Pk Hwfk Hdk ltac:(lia) HsA Hq Hroom)
            as (f2 & P2 & HP2 & Hd2 & Hl2).
          assert (Hfit2 : int_pool P2) by (unfold int_pool; lia).
          exists (Nat.max f1 f2), P2. split; [|split; [|split]].
          + intros fuel' Hf. rewrite seq_S, foldl_app, HPk by lia. simpl.
            rewrite (node_at_nat _ _ _ Hnjk). simpl. rewrite Hi.
            eapply (refine_rec_mono thr f2); [done|lia|lia|done|done].
          + eapply refine_post_trans; [exact Hpost|].
            eapply refine_rec_post; [done| |exact HP2|done]. lia.
          + done.
          + nia. }
      destruct (Hloop (Arity D)) as (fuel & P' & HP' & _ & Hd' & Hl'); [lia|].
      exists fuel, P'. split; [by apply HP'|]. split; [done|lia]. }
    destruct (lookup_lt_is_Some_2 P j Hj) as [n Hn].
    destruct (isLeaf n) eqn:Hleaf.
    + destruct (Qle_bool thr (density n / s)) eqn:Hcrit.
      * destruct (split_spec P j n Hwf Hn Hleaf ltac:(nia))
          as (P1 & nj & Hsplit & Hl & Hne & Hnj & Hnjl & Hnjd & Hnjc).
        destruct (Hdesc P1 nj) as (fuel & P' & HP' & Hd' & Hl').
        -- by apply (split_wf P P1 j n nj).
        -- intros i m Hm. destruct (decide (i = j)) as [->|Hij].
           ++ rewrite Hnj in Hm. injection Hm as <-. rewrite Hnjd. by eapply Hd.
           ++ rewrite Hne in Hm by done.
              apply lookup_app_Some in Hm as [Hm|[_ Hm]]; [by eapply Hd|].
              apply lookup_replicate in Hm as [-> _]. by eapply Hd.
        -- done.
        -- unfold isLeaf. pose proof (Hnjc 0%nat (Arity_pos D)) as H0.
           change (Z.of_nat 0) with 0 in H0. destruct Hwf as [Hpos _].
           apply Z.eqb_neq. lia.
        -- nia.
        -- exists (Datatypes.S fuel), P'. split; [|split; [done|nia]].
           rewrite refine_rec_S, (node_at_nat _ _ _ Hn). simpl.
           rewrite Hleaf, Hcrit, Hsplit. simpl. done.
      * exists 1%nat. eexists. split; [|split].
        -- rewrite refine_rec_S, (node_at_nat _ _ _ Hn). simpl.
           rewrite Hleaf, Hcrit. reflexivity.
        -- apply dens_le_alter; [done|]. intros m _. simpl. exact HM.
        -- rewrite length_alter. nia.
    + destruct (Hdesc P n Hwf Hd Hn Hleaf ltac:(nia)) as (fuel & P' & HP' & Hd' & Hl').
      exists (Datatypes.S fuel), P'. split; [|split; [done|nia]].
      rewrite refine_rec_S, (node_at_nat _ _ _ Hn). simpl. by rewrite Hleaf.
Qed.

(** On an ordered pool whose densities stay below the threshold from [L]
    levels on, and with room for [growth Arity L] more nodes, [refine]
    returns, and the recursion is never deeper than the refined pool is
    long. *)
Lemma refine_rec_returns (L : nat) (s : Q) (j : nat) (P : list Node) :
  (0 < s)%Q -> wf_pool D P -> (j < length P)%nat ->
  dens_le M P -> quiet thr M A L s ->
  Z.of_nat (length P) + growth (Z.of_nat (Arity D)) L <= 2 ^ 31 ->
  exists P', refine_rec D (length P' - j) thr s (Z.of_nat j) P = Done P'
             /\ refine_post D P P' /\ int_pool P'.
Proof.
  intros Hs Hwf Hj Hd HL Hsmall.
  destruct (refine_rec_levels L s j P Hwf Hd Hj Hs HL Hsmall)
    as (fuel & P' & HP' & _ & Hl').
  assert (Hfit : int_pool P') by (unfold int_pool; lia).
  exists P'. split; [|split; [|done]].
  - eapply refine_rec_fuel_bound; [done|done|exact HP'|done|lia].
  - eapply refine_rec_post; [done|done|exact HP'|done].
Qed.

End RefineProps.

(** ** Refine at the limit of [int] *)

Section RefineLimit.

Variable D : nat.
Hypothesis HD : (D <= 30)%nat.
Variable thr : Q.

Abbreviation A := (inject_Z (Z.of_nat (Arity D))).

Lemma Arity_le_2_30 : Z.of_nat (Arity D) <= 2 ^ 30.
Proof. rewrite Arity_Z. apply Z.pow_le_mono_r; lia. Qed.

Lemma refine_rec_Done_index (fuel : nat) (s : Q) (index : Z) (P P' : list Node) :
  refine_rec D fuel thr s index P = Done P' -> 0 <= index < Z.of_nat (length P).
Proof.
  destruct fuel as [|fuel]; [done|]. rewrite refine_rec_S. intros H.
  apply obind_Done in H as (n & Hn & _). apply node_at_Done in Hn as [H0 Hn].
  apply lookup_lt_Some in Hn. lia.
Qed.

(** [refine] entered at a leaf, in a pool of at most [2^31 + Arity - 1]
    nodes.  If it returns, no index it stored had to be cut to fit an
    [int]: a child whose index did not fit has a negative index, and the
    call on it does not return.  It touched nothing but the leaf and what it
    appended, and it appended a whole subtree of [k] levels where the
    density asks for that many. *)
Lemma refine_rec_leaf_run :
  forall fuel k (s : Q) (j : nat) (P P' : list Node) (n : Node),
    Z.of_nat (length P) <= 2 ^ 31 + Z.of_nat (Arity D) - 1 ->
    P !! j = Some n -> isLeaf n = true -> length (children n) = Arity D ->
    loud thr (density n) A k s ->
    refine_rec D fuel thr s (Z.of_nat j) P = Done P' ->
    Z.of_nat (length P) + growth (Z.of_nat (Arity D)) k <= Z.of_nat (length P')
    /\ Z.of_nat (length P') <= 2 ^ 31 + Z.of_nat (Arity D) - 1
    /\ (length P' = length P \/ Z.of_nat (length P') <= 2 ^ 31)
    /\ (forall i, (i < length P)%nat -> i <> j -> P' !! i = P !! i).
Proof.
  induction fuel as [|fuel IH]; intros k s j P P' n Hlen Hn Hleaf Hnl Hloud H; [done|].
  pose proof Arity_le_2_30 as HA30. pose proof (Arity_pos D) as HApos.
  pose proof (lookup_lt_Some _ _ _ Hn) as Hj.
  rewrite refine_rec_S, (node_at_nat _ _ _ Hn) in H. simpl in H. rewrite Hleaf in H.
  destruct (Qle_bool thr (density n / s)) eqn:Hcrit.
  - apply obind_Done in H as (P1 & Hsplit & H).
    apply split_Done in Hsplit
      as (j' & n' & nj & Hidx & Hn' & _ & Hl & Hne & Hnj & Hnjd & Hnjc).
    apply Nat2Z.inj in Hidx. subst j'. assert (n' = n) as -> by congruence.
    set (G := growth (Z.of_nat (Arity D)) (Nat.pred k)).
    assert (HG : 0 <= G) by apply growth_nonneg.
    assert (Hloud' : loud thr (density n) A (Nat.pred k) (s * A)%Q)
      by (destruct k; [done|apply Hloud]).
    unfold refine_children in H.
    assert (Hloop : forall c Pc, (c <= Arity D)%nat ->
      foldl (fun acc c => let* nodes := acc in
                          let* m := node_at nodes (Z.of_nat j) in
                          refine_rec D fuel thr (s * A)%Q (child m (Z.of_nat c)) nodes)
            (Done P1) (seq 0 c) = Done Pc ->
      Z.of_nat (length P1) + Z.of_nat c * G <= Z.of_nat (length Pc)
      /\ ((1 <= c)%nat -> Z.of_nat (length Pc) <= 2 ^ 31 + Z.of_nat (Arity D) - 1)
      /\ (length Pc = length P1 \/ Z.of_nat (length Pc) <= 2 ^ 31)
      /\ Pc !! j = Some nj
      /\ (forall c', (c <= c' < Arity D)%nat -> Pc !! (length P + c')%nat = Some n)
      /\ (forall i, (i < length P)%nat -> i <> j -> Pc !! i = P !! i)
      /\ (forall c', (c' < c)%nat -> Z.of_nat (length P) + Z.of_nat c' < 2 ^ 31)).
    { induction c as [|c IHc]; intros Pc Hc Hfold.
      - simpl in Hfold. injection Hfold as <-.
        split; [lia|]. split; [lia|]. split; [by left|]. split; [done|].
        split; [|split].
        + intros c' Hc'. rewrite Hne by lia. rewrite lookup_app_r by lia.
          apply lookup_replicate. split; [done|lia].
        + intros i Hi Hij. rewrite Hne by done. by rewrite lookup_app_l.
        + intros c' Hc'. lia.
      - rewrite seq_S, foldl_app in Hfold. simpl in Hfold.
        apply obind_Done in Hfold as (Pc0 & HPc0 & Hcall).
        destruct (IHc Pc0 ltac:(lia) HPc0)
          as (Hgrow & Hub & Hdis & Hnjc0 & Hsib & Hframe & Hidxs).
        rewrite (node_at_nat _ _ _ Hnjc0) in Hcall. simpl in Hcall.
        rewrite Hnjc in Hcall by lia.
        pose proof (refine_rec_Done_index _ _ _ _ _ Hcall) as [Hi0 _].
        assert (Hsmall : Z.of_nat (length P) + Z.of_nat c < 2 ^ 31).
        { destruct (Z.lt_ge_cases (Z.of_nat (length P) + Z.of_nat c) (2 ^ 31))
            as [|Hge]; [done|].
          pose proof (to_int_wraps (Z.of_nat (length P) + Z.of_nat c) ltac:(lia)).
          lia. }
        rewrite to_int_small in Hcall by lia.
        replace (Z.of_nat (length P) + Z.of_nat c) with (Z.of_nat (length P + c))
          in Hcall by lia.
        assert (Hub0 : Z.of_nat (length Pc0) <= 2 ^ 31 + Z.of_nat (Arity D) - 1).
        { destruct c as [|c]; [|apply Hub; lia].
          simpl in HPc0. injection HPc0 as <-. lia. }
        destruct (IH (Nat.pred k) (s * A)%Q (length P + c)%nat Pc0 Pc n Hub0
                     (Hsib c ltac:(lia)) Hleaf Hnl Hloud' Hcall)
          as (Hgrow2 & Hub2 & Hdis2 & Hframe2).
        assert (Hlen0 : (length P1 <= length Pc0)%nat) by nia.
        split; [fold G in Hgrow2; nia|]. split; [done|].
        split; [destruct Hdis as [Hd|Hd], Hdis2 as [Hd2|Hd2]; [left|right..]; lia|].
        split; [rewrite Hframe2 by lia; done|]. split; [|split].
        + intros c' Hc'. rewrite Hframe2 by lia. apply Hsib. lia.
        + intros i Hi Hij. rewrite Hframe2 by lia. by apply Hframe.
        + intros c' Hc'. destruct (decide (c' = c)) as [->|]; [done|apply Hidxs; lia]. }
    destruct (Hloop (Arity D) P' ltac:(lia) H)
      as (Hgrow & Hub & Hdis & _ & _ & Hframe & Hidxs).
    pose proof (Hidxs (Arity D - 1)%nat ltac:(lia)) as Hlast.
    split; [|split; [apply Hub; lia|split; [right; destruct Hdis; lia|done]]].
    destruct k as [|k]; simpl in *; [nia|]. fold G. nia.
  - injection H as <-. rewrite Nat2Z.id, length_alter.
    destruct k as [|k]; [|destruct Hloud; congruence].
    simpl. split; [lia|]. split; [done|]. split; [by left|].
    intros i Hi Hij. by rewrite list_lookup_alter_ne.
Qed.

(** A [refine] that returns from an ordered pool of at most [2^31] nodes
    has stored no index that did not fit: the pool it returns has at most
    [2^31] nodes too. *)
Lemma refine_rec_fits :
  forall fuel (s : Q) (j : nat) (P P' : list Node),
    wf_pool D P -> (j < length P)%nat -> int_pool P ->
    refine_rec D fuel thr s (Z.of_nat j) P = Done P' -> int_pool P'.
Proof.
  induction fuel as [|fuel IH]; intros s j P P' Hwf Hj Hfit H; [done|].
  destruct (lookup_lt_is_Some_2 P j Hj) as [n Hn].
  pose proof (Arity_pos D) as HApos.
  destruct (isLeaf n) eqn:Hleaf.
  - pose proof Hwf as [_ Hok]. destruct (Hok j n Hn) as [Hnl _].
    unfold int_pool in *.
    destruct (refine_rec_leaf_run (Datatypes.S fuel) 0 s j P P' n
                ltac:(lia) Hn Hleaf Hnl I H) as (_ & _ & [Heq|Hle] & _); lia.
  - rewrite refine_rec_S, (node_at_nat _ _ _ Hn) in H. simpl in H. rewrite Hleaf in H.
    unfold refine_children in H.
    assert (Hloop : forall k Pk, (k <= Arity D)%nat ->
      foldl (fun acc c => let* nodes := acc in
                          let* m := node_at nodes (Z.of_nat j) in
                          refine_rec D fuel thr (s * A)%Q (child m (Z.of_nat c)) nodes)
            (Done P) (seq 0 k) = Done Pk ->
      refine_post D P Pk /\ int_pool Pk).
    { induction k as [|k IHk]; intros Pk Hk Hfold.
      - simpl in Hfold. injection Hfold as <-. split; [by apply refine_post_refl|done].
      - rewrite seq_S, foldl_app in Hfold. simpl in Hfold.
        apply obind_Done in Hfold as (Pc & HPc & Hcall).
        destruct (IHk Pc ltac:(lia) HPc) as (Hpost & Hfitc).
        pose proof Hpost as (Hwfc & Hlc & Hkeep).
        rewrite (node_at_nat _ _ _ (Hkeep j n Hn Hleaf)) in Hcall. simpl in Hcall.
        destruct (wf_internal_child D Pc j k n Hwfc (Hkeep j n Hn Hleaf) Hleaf
                                    ltac:(lia)) as (i & Hi & Hrange).
        rewrite Hi in Hcall.
        assert (Hilt : (i < length Pc)%nat) by lia.
        pose proof (IH _ _ _ _ Hwfc Hilt Hfitc Hcall) as Hfit'.
        split; [|done]. eapply refine_post_trans; [exact Hpost|].
        by eapply refine_rec_post. }
    by destruct (Hloop (Arity D) P' ltac:(lia) H).
Qed.

End RefineLimit.

(** ** Sampling and depth return on an ordered pool *)

Lemma lor_range (a b n : Z) :
  0 <= a < 2 ^ n -> 0 <= b < 2 ^ n -> 0 <= Z.lor a b < 2 ^ n.
Proof.
  intros Ha Hb.
  assert (Hnn : 0 <= Z.lor a b) by (apply Z.lor_nonneg; lia).
  split; [done|].
  destruct (Z.eq_dec a 0) as [->|Ha0]; [rewrite Z.lor_0_l; lia|].
  destruct (Z.eq_dec b 0) as [->|Hb0]; [rewrite Z.lor_0_r; lia|].
  destruct (Z.eq_dec (Z.lor a b) 0) as [->|Hne]; [lia|].
  apply Z.log2_lt_pow2; [lia|].
  rewrite Z.log2_lor by lia.
  apply Z.max_lub_lt; apply Z.log2_lt_pow2; lia.
Qed.

Section Descents.

Variable D : nat.
Variable P : list Node.
Hypothesis Hwf : wf_pool D P.

Lemma sample_marginal_Done (j : nat) (node : Node) (dim : nat) (ci : Z) :
  P !! j = Some node -> isLeaf node = false -> (dim < D)%nat ->
  0 <= ci < 2 ^ Z.of_nat dim ->
  exists p, sample_marginal D P node dim ci = Done p.
Proof.
  intros Hnode Hleaf Hdim Hci. unfold sample_marginal.
  assert (Hloop : forall k, (k <= 2 ^ (D - dim))%nat ->
    exists p,
      foldl (fun acc c =>
               let* (p0, p1) := acc in
               let* n := node_at P (child node
                           (Z.lor (Z.shiftl (Z.of_nat c) (Z.of_nat dim)) ci)) in
               if Z.land (Z.of_nat c) 1 =? 0
               then Done ((p0 + density n)%Q, p1)
               else Done (p0, (p1 + density n)%Q))
            (Done (0%Q, 0%Q)) (seq 0 k) = Done p).
  { induction k as [|k IH]; intros Hk; [by eexists|].
    destruct IH as [[p0 p1] Hp]; [lia|].
    rewrite seq_S, foldl_app, Hp. simpl.
    assert (Hidx : 0 <= Z.lor (Z.shiftl (Z.of_nat k) (Z.of_nat dim)) ci
                   < 2 ^ Z.of_nat D).
    { assert (Hpow : 2 ^ Z.of_nat D = 2 ^ Z.of_nat (D - dim) * 2 ^ Z.of_nat dim).
      { rewrite <- Z.pow_add_r by lia. f_equal. lia. }
      assert (Hk' : Z.of_nat k < 2 ^ Z.of_nat (D - dim)).
      { pose proof (Nat2Z.inj_pow 2 (D - dim)) as Hp2. simpl in Hp2. lia. }
      pose proof (Z.pow_pos_nonneg 2 (Z.of_nat dim) ltac:(lia) ltac:(lia)).
      pose proof (Z.pow_pos_nonneg 2 (Z.of_nat (D - dim)) ltac:(lia) ltac:(lia)).
      apply lor_range.
      - rewrite Z.shiftl_mul_pow2 by lia. nia.
      - nia. }
    pose proof (wf_child_range D P j node _ Hwf Hnode Hleaf Hidx) as Hc.
    destruct (node_at_in_range P (child node
                (Z.lor (Z.shiftl (Z.of_nat k) (Z.of_nat dim)) ci))) as [n Hn]; [lia|].
    rewrite Hn. simpl. destruct (Z.land (Z.of_nat k) 1 =? 0); by eexists. }
  apply Hloop. lia.
Qed.

Lemma sample_dims_cases (j : nat) (node : Node) (scale : Q) (x base : Vector) :
  P !! j = Some node -> isLeaf node = false ->
  forall k, (k <= D)%nat ->
    foldl (sample_dim D P node scale) (Done (0, x, base)) (seq 0 k) = AssertFailed
    \/ exists ci x' base',
        foldl (sample_dim D P node scale) (Done (0, x, base)) (seq 0 k)
        = Done (ci, x', base')
        /\ 0 <= ci < 2 ^ Z.of_nat k.
Proof.
  intros Hnode Hleaf. induction k as [|k IH]; intros Hk.
  - right. exists 0, x, base. split; [done|]. simpl. lia.
  - rewrite seq_S, foldl_app. simpl.
    destruct IH as [Hfail|(ci & x' & base' & Hacc & Hci)]; [lia| |].
    + left. by rewrite Hfail.
    + rewrite Hacc. unfold sample_dim at 1. simpl.
      destruct (sample_marginal_Done j node k ci Hnode Hleaf ltac:(lia) Hci)
        as [[p0 p1] Hp].
      rewrite Hp. simpl.
      destruct (Qle_bool 0 (p0 / (p0 + p1)) && Qle_bool 0 p1); simpl; [|by left].
      right.
      pose proof (lor_bit_range ci (Qlt_bool (p0 / (p0 + p1)) (vget x' k))
                                (Z.of_nat k) ltac:(lia) Hci) as Hr.
      rewrite Nat2Z.inj_succ, <- Z.add_1_r.
      destruct (Qlt_bool (p0 / (p0 + p1)) (vget x' k)); eexists _, _, _;
        (split; [reflexivity|done]).
Qed.

Lemma sample_loop_cases :
  forall fuel (index : nat) (x base : Vector) (scale : Q),
    (index < length P)%nat -> (length P - index <= fuel)%nat ->
    sample_loop D fuel P x base scale (Z.of_nat index) = AssertFailed
    \/ exists (i : nat) x' base' scale',
        sample_loop D fuel P x base scale (Z.of_nat index)
        = Done (Z.of_nat i, x', base', scale')
        /\ (i < length P)%nat.
Proof.
  induction fuel as [|fuel IH]; intros index x base scale Hlt Hfuel; [lia|].
  destruct (lookup_lt_is_Some_2 P index Hlt) as [node Hnode].
  simpl. rewrite (node_at_nat _ _ _ Hnode). simpl.
  destruct (isLeaf node) eqn:Hleaf.
  - right. by exists index, x, base, scale.
  - destruct (sample_dims_cases index node scale x base Hnode Hleaf D ltac:(lia))
      as [Hfail|(ci & x' & base' & Hacc & Hci)].
    + left. by rewrite Hfail.
    + rewrite Hacc. simpl.
      pose proof (wf_child_range D P index node ci Hwf Hnode Hleaf Hci) as Hc.
      replace (Z.of_nat index <? child node ci) with true
        by (symmetry; apply Z.ltb_lt; lia).
      simpl.
      destruct (IH (Z.to_nat (child node ci)) x' base' (scale / 2)%Q) as [H|H];
        [lia|lia| |]; rewrite Z2Nat.id in H by lia; [by left|by right].
Qed.

Lemma node_depth_Done :
  forall fuel (i : nat) (n : Node),
    P !! i = Some n -> (length P - i <= fuel)%nat ->
    exists d, node_depth D fuel P n = Done d
              /\ 1 <= d <= Z.of_nat (length P) - Z.of_nat i.
Proof.
  induction fuel as [|fuel IH]; intros i n Hn Hfuel.
  { apply lookup_lt_Some in Hn. lia. }
  pose proof (lookup_lt_Some _ _ _ Hn) as Hi.
  simpl. destruct (isLeaf n) eqn:Hleaf.
  - exists 1. split; [done|lia].
  - unfold depth_children.
    assert (Hloop : forall k, (k <= Arity D)%nat ->
      exists m,
        foldl (fun acc c =>
                 let* maxDepth := acc in
                 let* cn := node_at P (child n (Z.of_nat c)) in
                 let* d := node_depth D fuel P cn in
                 Done (Z.max maxDepth d))
              (Done 0) (seq 0 k) = Done m
        /\ 0 <= m <= Z.of_nat (length P) - Z.of_nat i - 1).
    { induction k as [|k IHk]; intros Hk.
      - exists 0. split; [done|lia].
      - destruct IHk as (m & Hm & Hrange); [lia|].
        rewrite seq_S, foldl_app, Hm. simpl.
        destruct (wf_internal_child D P i k n Hwf Hn Hleaf ltac:(lia))
          as (c & Hc & Hcr).
        rewrite Hc.
        destruct (lookup_lt_is_Some_2 P c ltac:(lia)) as [cn Hcn].
        rewrite (node_at_nat _ _ _ Hcn). simpl.
        destruct (IH c cn Hcn ltac:(lia)) as (d & Hd & Hdr).
        rewrite Hd. simpl. eexists. split; [reflexivity|]. lia. }
    destruct (Hloop (Arity D)) as (m & Hm & Hrange); [lia|].
    rewrite Hm. simpl. eexists. split; [reflexivity|]. lia.
Qed.

End Descents.

(** ** Build with leaf reweighting normalises *)

Section MeanProps.
Variable D : nat.

Lemma mean_ok_mono (P : list Node) :
  forall fuel fuel' i, mean_ok D fuel P i -> (fuel <= fuel')%nat -> mean_ok D fuel' P i.
Proof.
  induction fuel as [|fuel IH]; intros fuel' i H Hle; [done|].
  destruct fuel' as [|fuel']; [lia|].
  destruct H as (n & Hn & [Hleaf|(Hleaf & Hch & Hd)]); exists n; (split; [done|]).
  - by left.
  - right. split; [done|]. split; [|done].
    intros c Hc. destruct (Hch c Hc) as (k & Hk & Hik & Hm).
    exists k. repeat split; auto. apply (IH fuel'); [done|lia].
Qed.

Lemma mean_ok_lookup (P : list Node) (fuel i : nat) :
  mean_ok D fuel P i -> exists n, P !! i = Some n.
Proof. destruct fuel; [done|]. intros (n & Hn & _). eauto. Qed.

Lemma children_sum_ext (P P' : list Node) (n n' : Node) (k : nat) :
  (forall c, (c < k)%nat -> child_density P n c = child_density P' n' c) ->
  children_sum P n k = children_sum P' n' k.
Proof.
  unfold children_sum. induction k as [|k IH]; intros H; [done|].
  rewrite !seq_S, !foldl_app. simpl. rewrite IH, H; [done|lia|].
  intros c Hc. apply H. lia.
Qed.

Lemma children_sum_S (P : list Node) (n : Node) (k : nat) :
  children_sum P n (Datatypes.S k) = (children_sum P n k + child_density P n k)%Q.
Proof. unfold children_sum. by rewrite seq_S, foldl_app. Qed.

(** [mean_ok] only looks at the nodes from [i] on. *)
Lemma mean_ok_stable (P P' : list Node) :
  forall fuel i,
    mean_ok D fuel P i ->
    (forall k n, (i <= k)%nat -> P !! k = Some n -> P' !! k = Some n) ->
    mean_ok D fuel P' i.
Proof.
  induction fuel as [|fuel IH]; intros i H Hagree; [done|].
  destruct H as (n & Hn & [Hleaf|(Hleaf & Hch & Hd)]); exists n;
    (split; [by apply Hagree|]).
  - by left.
  - right. split; [done|]. split.
    + intros c Hc. destruct (Hch c Hc) as (k & Hk & Hik & Hm).
      exists k. repeat split; auto. apply IH; [done|].
      intros k' n' Hk' Hn'. apply Hagree; [lia|done].
    + rewrite Hd. rewrite (children_sum_ext P P' n n (Arity D)); [reflexivity|].
      intros c Hc. destruct (Hch c Hc) as (k & Hk & Hik & Hm).
      unfold child_density. rewrite Hk, Nat2Z.id.
      destruct (mean_ok_lookup P fuel k Hm) as [m Hmk].
      rewrite Hmk. by rewrite (Hagree k m ltac:(lia) Hmk).
Qed.

Abbreviation A := (inject_Z (Z.of_nat (Arity D))).

Lemma A_nonzero : ~ (A == 0)%Q.
Proof. pose proof (A_ge_1 D). lra. Qed.

Lemma leaf_mass_S (fuel : nat) (P : list Node) (n : Node) (vol : Q) :
  leaf_mass D (Datatypes.S fuel) P n vol =
  if isLeaf n then (density n * vol)%Q
  else foldl (fun sum c =>
                match P !! Z.to_nat (child n (Z.of_nat c)) with
                | Some k => (sum + leaf_mass D fuel P k (vol / A))%Q
                | None => sum
                end) 0%Q (seq 0 (Arity D)).
Proof. reflexivity. Qed.

(** Where the means hold, the leaves below a node carry its density times
    its volume. *)
Lemma leaf_mass_mean (P : list Node) :
  forall fuel i n vol,
    mean_ok D fuel P i -> P !! i = Some n ->
    (leaf_mass D fuel P n vol == density n * vol)%Q.
Proof.
  induction fuel as [|fuel IH]; intros i n vol H Hn; [done|].
  destruct H as (n' & Hn' & Hcases). assert (n' = n) as -> by congruence.
  rewrite leaf_mass_S.
  destruct Hcases as [Hleaf|(Hleaf & Hch & Hd)]; rewrite Hleaf; [reflexivity|].
  assert (Hloop : forall j, (j <= Arity D)%nat ->
    (foldl (fun sum c =>
              match P !! Z.to_nat (child n (Z.of_nat c)) with
              | Some k => (sum + leaf_mass D fuel P k (vol / A))%Q
              | None => sum
              end) 0%Q (seq 0 j)
     == children_sum P n j * (vol / A))%Q).
  { induction j as [|j IHj]; intros Hj.
    - unfold children_sum. simpl. ring.
    - rewrite seq_S, foldl_app, children_sum_S. simpl.
      destruct (Hch j ltac:(lia)) as (k & Hk & Hik & Hm).
      destruct (mean_ok_lookup P fuel k Hm) as [m Hmk].
      unfold child_density. rewrite Hk, Nat2Z.id, Hmk.
      rewrite (IH k m (vol / A)%Q Hm Hmk), IHj by lia. ring. }
  rewrite Hloop by lia. rewrite Hd. field. apply A_nonzero.
Qed.

(** Dividing every density by [norm] divides the mass by [norm]. *)
Lemma leaf_mass_scaled (norm : Q) (f : Node -> Node) (P : list Node) :
  (forall n, children (f n) = children n) ->
  (forall n, density (f n) = (density n / norm)%Q) ->
  forall fuel n vol,
    (leaf_mass D fuel (map f P) (f n) vol == leaf_mass D fuel P n vol / norm)%Q.
Proof.
  intros Hc Hd. induction fuel as [|fuel IH]; intros n vol.
  - simpl. unfold Qdiv. ring.
  - rewrite !leaf_mass_S.
    assert (Hleaf : isLeaf (f n) = isLeaf n) by (unfold isLeaf, child; by rewrite Hc).
    rewrite Hleaf. destruct (isLeaf n).
    + rewrite Hd. unfold Qdiv. ring.
    + assert (Hloop : forall j,
        (foldl (fun sum c =>
                  match map f P !! Z.to_nat (child (f n) (Z.of_nat c)) with
                  | Some k => (sum + leaf_mass D fuel (map f P) k (vol / A))%Q
                  | None => sum
                  end) 0%Q (seq 0 j)
         == foldl (fun sum c =>
                     match P !! Z.to_nat (child n (Z.of_nat c)) with
                     | Some k => (sum + leaf_mass D fuel P k (vol / A))%Q
                     | None => sum
                     end) 0%Q (seq 0 j) / norm)%Q).
      { induction j as [|j IHj].
        - simpl. unfold Qdiv. ring.
        - rewrite !seq_S, !foldl_app. simpl.
          assert (Hch : child (f n) (Z.of_nat j) = child n (Z.of_nat j))
            by (unfold child; by rewrite Hc).
          rewrite Hch.
          change (map f P !! Z.to_nat (child n (Z.of_nat j)))
            with ((f <$> P) !! Z.to_nat (child n (Z.of_nat j))).
          rewrite list_lookup_fmap.
          destruct (P !! Z.to_nat (child n (Z.of_nat j))) as [k|]; simpl; [|exact IHj].
          rewrite IH, IHj. unfold Qdiv. ring. }
      apply Hloop.
Qed.

End MeanProps.

Section BuildMean.

Variable D : nat.
Variable fsqrt : Q -> Q.
Variable sm : bool.
Variable old : list Node.
Hypothesis Hold : wf_pool D old.

Lemma build_children_mean (rec : Z -> list Node -> outcome (list Node))
      (node : Node) (acc : list Node) :
  (forall (c : nat) acc', (c < Arity D)%nat ->
     exists res, rec (child node (Z.of_nat c)) acc' = Done res /\ build_post D acc' res) ->
  (forall (c : nat) acc' res n, (c < Arity D)%nat ->
     rec (child node (Z.of_nat c)) acc' = Done res ->
     res !! length acc' = Some n -> Qle_bool 0 (weight n) = true ->
     mean_ok D (length res - length acc') res (length acc')) ->
  length (children node) = Arity D ->
  forall k, (k <= Arity D)%nat ->
    forall a,
      foldl (build_child rec node (length acc))
            (Done (mkBuildAcc (acc ++ [node]) 0 0%Q 0%Q 0%Q)) (seq 0 k) = Done a ->
      build_inv D acc k a /\ mean_inv D acc k a.
Proof.
  intros Hrec Hmean Hlen. induction k as [|k IH]; intros Hk a Hfold.
  - destruct (build_children_ok D rec node acc Hrec Hlen 0%nat Hk) as (a' & Ha' & Hinv).
    rewrite Hfold in Ha'. injection Ha' as <-. split; [done|].
    simpl in Hfold. injection Hfold as <-. split; [simpl; lia|].
    intros _ nk _. split; [lia|]. unfold children_sum. simpl. reflexivity.
  - destruct (build_children_ok D rec node acc Hrec Hlen (Datatypes.S k) Hk)
      as (a' & Ha' & Hinv2).
    rewrite Hfold in Ha'. injection Ha' as <-. split; [done|].
    rewrite seq_S, foldl_app in Hfold. simpl in Hfold.
    unfold build_child at 1 in Hfold.
    apply obind_Done in Hfold as (a0 & Ha0 & Hfold).
    destruct (IH ltac:(lia) a0 Ha0) as (Hinv & (Hvc & Hall)).
    destruct Hinv as (Hlt & Hpre & (nk & Hnk & Hnklen & Hnkc) & Hrest).
    destruct (Hrec k (acc_nodes a0) ltac:(lia)) as (res & Hres & Hrlt & Hrpre & Hrnew).
    rewrite Hres in Hfold. simpl in Hfold.
    set (nci := length (acc_nodes a0)) in *.
    set (nn := alter (fun n : Node => set_child n k (Z.of_nat nci)) (length acc) res) in *.
    assert (Hnnlen : length nn = length res) by apply length_alter.
    apply obind_Done in Hfold as (newChild & HnewChild & Hfold).
    apply node_at_Done in HnewChild as [_ HnewChild]. rewrite Nat2Z.id in HnewChild.
    assert (Hnk2 : nn !! length acc = Some (set_child nk k (Z.of_nat nci))).
    { unfold nn. rewrite list_lookup_alter_eq, Hrpre, Hnk by lia. done. }
    assert (Hold_agree : forall j n, (length acc < j)%nat ->
              acc_nodes a0 !! j = Some n -> nn !! j = Some n).
    { intros j n Hj Hn. pose proof (lookup_lt_Some _ _ _ Hn).
      unfold nn. rewrite list_lookup_alter_ne by lia. rewrite Hrpre by (unfold nci; lia).
      done. }
    destruct (Qle_bool 0 (weight newChild)) eqn:Hvalid; injection Hfold as <-;
      unfold mean_inv; cbn [acc_validCount acc_nodes acc_density].
    + split; [lia|]. intros Hfull nk2 Hnk2'. rewrite Hnk2 in Hnk2'. injection Hnk2' as <-.
      destruct (Hall ltac:(lia) nk Hnk) as (Hmc & Hsum).
      assert (Hnew : mean_ok D (length nn - nci) nn nci).
      { rewrite Hnnlen.
        eapply mean_ok_stable;
          [eapply (Hmean k (acc_nodes a0) res newChild); [lia|done| |done]|].
        - unfold nn in HnewChild. rewrite list_lookup_alter_ne in HnewChild by (unfold nci; lia).
          done.
        - intros j n Hj Hn. unfold nn. rewrite list_lookup_alter_ne by (unfold nci in *; lia).
          done. }
      split.
      * intros c Hc. destruct (decide (c = k)) as [->|Hck].
        -- rewrite child_set_child_eq by lia. by rewrite Nat2Z.id.
        -- rewrite child_set_child_ne by done.
           pose proof (Hnkc c ltac:(lia)) as Hrange.
           eapply mean_ok_mono; [eapply mean_ok_stable; [apply Hmc; lia|]|lia].
           intros j n Hj Hn. apply Hold_agree; [lia|done].
      * rewrite children_sum_S.
        rewrite (children_sum_ext nn (acc_nodes a0) (set_child nk k (Z.of_nat nci)) nk k).
        -- rewrite <- Hsum. unfold child_density.
           rewrite child_set_child_eq, Nat2Z.id, HnewChild by lia. reflexivity.
        -- intros c Hc. unfold child_density. rewrite child_set_child_ne by lia.
           pose proof (Hnkc c Hc) as Hrange.
           destruct (lookup_lt_is_Some_2 (acc_nodes a0) (Z.to_nat (child nk (Z.of_nat c))))
             as [m Hm]; [lia|].
           rewrite Hm.
           by rewrite (Hold_agree (Z.to_nat (child nk (Z.of_nat c))) m ltac:(lia) Hm).
    + split; [lia|]. intros Hfull. lia.
Qed.

Lemma build_finish_mean (acc : list Node) (a : build_acc) (n : Node) :
  build_inv D acc (Arity D) a -> mean_inv D acc (Arity D) a ->
  build_finish D true (length acc) a !! length acc = Some n ->
  Qle_bool 0 (weight n) = true ->
  mean_ok D (length (build_finish D true (length acc) a) - length acc)
          (build_finish D true (length acc) a) (length acc).
Proof.
  intros (Hlt & Hpre & (nk & Hnk & Hnklen & Hnkc) & Hrest) (Hvc & Hall).
  unfold build_finish. simpl.
  destruct (Z.eqb_spec (acc_validCount a) 0) as [Hz|Hnz].
  { rewrite list_lookup_alter_eq, Hnk. simpl. intros Hn. injection Hn as <-.
    simpl. discriminate. }
  destruct (Z.ltb_spec (acc_validCount a) (Z.of_nat (Arity D))) as [Hless|Hfull].
  - intros Hn _.
    assert (Hlen : (length acc + 1 <= length (acc_nodes a))%nat) by lia.
    rewrite length_alter, length_take, length_alter.
    replace ((length acc + 1) `min` length (acc_nodes a) - length acc)%nat with 1%nat by lia.
    exists n. split; [done|]. left.
    rewrite list_lookup_alter_eq, lookup_take_lt, list_lookup_alter_eq, Hnk in Hn by lia.
    simpl in Hn. injection Hn as <-. apply isLeaf_markAsLeaf.
  - intros Hn _. rewrite list_lookup_alter_eq, Hnk in Hn. simpl in Hn.
    injection Hn as Hn. rewrite length_alter.
    destruct (length (acc_nodes a) - length acc)%nat as [|f] eqn:Ef; [lia|].
    exists n. split; [rewrite list_lookup_alter_eq, Hnk; simpl; by rewrite Hn|]. right.
    destruct (Hall ltac:(lia) nk Hnk) as (Hmc & Hsum).
    assert (Hch : forall c, child n (Z.of_nat c) = child nk (Z.of_nat c))
      by (intros c; by rewrite <- Hn).
    assert (Hd : density n = (acc_density a / inject_Z (acc_validCount a))%Q)
      by (by rewrite <- Hn).
    clear Hn.
    assert (Hagree : forall (j : nat) (m : Node), (length acc < j)%nat ->
              acc_nodes a !! j = Some m ->
              alter (fun n0 : Node =>
                       mkTreeNode (children n0)
                                  (acc_density a / inject_Z (acc_validCount a))%Q
                                  (acc_value a / inject_Z (acc_validCount a))%Q
                                  (acc_weight a)) (length acc) (acc_nodes a) !! j = Some m).
    { intros j m Hj Hm. by rewrite list_lookup_alter_ne by lia. }
    split; [|split].
    + unfold isLeaf. pose proof (Hch 0%nat) as H0.
      pose proof (Hnkc 0%nat (Arity_pos D)). apply Z.eqb_neq.
      change (Z.of_nat 0) with 0 in *. lia.
    + intros c Hc. pose proof (Hnkc c Hc) as Hrange.
      exists (Z.to_nat (child nk (Z.of_nat c))).
      rewrite Hch, Z2Nat.id by lia. split; [done|]. split; [lia|].
      eapply mean_ok_mono; [eapply mean_ok_stable; [apply Hmc; lia|]|lia].
      intros j m Hj Hm. apply Hagree; [lia|done].
    + assert (Hvc' : acc_validCount a = Z.of_nat (Arity D)) by lia.
      rewrite Hvc' in Hd at 1. rewrite Hd, Hsum.
      match goal with |- (_ / _ == children_sum ?P' _ _ / _)%Q =>
        rewrite (children_sum_ext P' (acc_nodes a) n nk (Arity D)) end; [reflexivity|].
      intros c Hc. unfold child_density. rewrite Hch.
      pose proof (Hnkc c Hc) as Hrange.
      destruct (lookup_lt_is_Some_2 (acc_nodes a) (Z.to_nat (child nk (Z.of_nat c))))
        as [m Hm]; [lia|].
      rewrite Hm.
      by rewrite (Hagree (Z.to_nat (child nk (Z.of_nat c))) m ltac:(lia) Hm).
Qed.

(** With leaf reweighting, a valid node comes out of the first pass with
    the means in place below it. *)
Lemma build_rec_mean :
  forall fuel (index : nat) (scale : Q) (acc res : list Node) (n : Node),
    (index < length old)%nat -> (length old - index <= fuel)%nat ->
    (0 <= scale)%Q ->
    build_rec D fsqrt fuel true sm old scale (Z.of_nat index) acc = Done res ->
    res !! length acc = Some n -> Qle_bool 0 (weight n) = true ->
    mean_ok D (length res - length acc) res (length acc).
Proof.
  induction fuel as [|fuel IH]; intros index scale acc res n Hlt Hfuel Hs Hrec Hn Hvalid;
    [lia|].
  destruct (lookup_lt_is_Some_2 old index Hlt) as [node Hnode].
  pose proof Hold as [_ Hok]. destruct (Hok index node Hnode) as [Hlen Hch].
  simpl in Hrec. rewrite (node_at_nat _ _ _ Hnode) in Hrec. simpl in Hrec.
  destruct (isLeaf node) eqn:Hleaf.
  - destruct (build_leaf_ok D fsqrt true sm node scale acc Hs Hlen Hleaf)
      as (res' & Hres' & _ & Hl).
    rewrite Hrec in Hres'. injection Hres' as <-.
    rewrite Hl. replace (Datatypes.S (length acc) - length acc)%nat with 1%nat by lia.
    exists n. split; [done|]. left.
    unfold build_leaf in Hrec.
    destruct (true && Qlt_bool (weight node) (1 # 1000)).
    + injection Hrec as <-.
      rewrite alter_app_r_alt, Nat.sub_diag in Hn by lia. simpl in Hn.
      rewrite lookup_app_r, Nat.sub_diag in Hn by lia. simpl in Hn.
      by injection Hn as <-.
    + apply obind_Done in Hrec as (_ & _ & Hrec). injection Hrec as <-.
      rewrite alter_app_r_alt, Nat.sub_diag in Hn by lia. simpl in Hn.
      rewrite lookup_app_r, Nat.sub_diag in Hn by lia. simpl in Hn.
      injection Hn as <-. apply (isLeaf_markAsLeaf node).
  - apply obind_Done in Hrec as (a & Hfold & Hrec). injection Hrec as <-.
    assert (HsA : (0 <= scale * inject_Z (Z.of_nat (Arity D)))%Q).
    { apply Qmult_le_0_compat; [done|]. pose proof (A_ge_1 D). lra. }
    destruct (build_children_mean
                (build_rec D fsqrt fuel true sm old (scale * inject_Z (Z.of_nat (Arity D)))%Q)
                node acc) with (k := Arity D) (a := a) as (Hinv & Hminv); [| |done|lia|done|].
    + intros c acc' Hc. specialize (Hch eq_refl c Hc).
      destruct (build_rec_ok D fsqrt true sm old Hold fuel
                  (Z.to_nat (child node (Z.of_nat c)))
                  (scale * inject_Z (Z.of_nat (Arity D)))%Q acc') as (r & Hr & Hpost);
        [lia|lia|done|].
      rewrite Z2Nat.id in Hr by lia. eauto.
    + intros c acc' r m Hc Hr Hm Hv. specialize (Hch eq_refl c Hc).
      eapply (IH (Z.to_nat (child node (Z.of_nat c)))); [lia|lia|exact HsA| |exact Hm|exact Hv].
      rewrite Z2Nat.id by lia. exact Hr.
    + by eapply build_finish_mean.
Qed.

End BuildMean.

(** X1.  With leaf reweighting on, which is the default, a build that does
    not fall back to the uniform state leaves a normalised density in every
    dimension: the root's density is 1 and density times volume sums to 1
    over the leaves. *)
Lemma build_reweighted_normalized (D : nat) (fsqrt : Q -> Q) (t : BTreeDistribution)
      (newNodes : list Node) (root : Node) :
  wf_pool D (m_nodes t) -> m_leafReweighting t = true ->
  build_rec D fsqrt (length (m_nodes t)) true (m_secondMoment t) (m_nodes t) 1%Q 0 []
  = Done newNodes ->
  newNodes !! 0%nat = Some root ->
  (0 < weight root)%Q -> ~ (density root == 0)%Q ->
  exists t' root',
    build D fsqrt t = Done t'
    /\ m_nodes t' !! 0%nat = Some root'
    /\ (density root' == 1)%Q
    /\ (tree_mass D t' == 1)%Q.
Proof.
  intros Hwf Hlr Hrec Hroot Hw Hd. pose proof Hwf as [Hpos _].
  pose proof (node_at_nat newNodes 0%nat root Hroot) as Hat.
  change (Z.of_nat 0) with 0 in Hat.
  assert (Hcond : Qle_bool (weight root) 0 || Qeq_bool (density root) 0 = false).
  { apply orb_false_iff. split.
    - destruct (Qle_bool (weight root) 0) eqn:E; [|done].
      apply Qle_bool_iff in E. lra.
    - destruct (Qeq_bool (density root) 0) eqn:E; [|done].
      apply Qeq_bool_iff in E. contradiction. }
  set (f := fun node : Node =>
              mkTreeNode (children node) (density node / density root)%Q
                         (value node) (weight node)).
  exists (with_nodes t (map f newNodes)), (f root). split; [|split; [|split]].
  - unfold build. rewrite Hlr, Hrec. simpl. rewrite Hat. simpl. by rewrite Hcond.
  - simpl. change (map f newNodes !! 0%nat) with ((f <$> newNodes) !! 0%nat).
    by rewrite list_lookup_fmap, Hroot.
  - simpl. field. exact Hd.
  - unfold tree_mass. simpl.
    change (map f newNodes !! 0%nat) with ((f <$> newNodes) !! 0%nat).
    rewrite list_lookup_fmap, Hroot. simpl. rewrite length_map.
    rewrite (leaf_mass_scaled D (density root) f newNodes); [|done|done].
    assert (Hmean : mean_ok D (length newNodes - 0) newNodes 0%nat).
    { apply (build_rec_mean D fsqrt (m_secondMoment t) (m_nodes t) Hwf
               (length (m_nodes t)) 0%nat 1%Q [] newNodes root);
        [lia|lia|discriminate|exact Hrec|exact Hroot|].
      apply Qle_bool_iff. lra. }
    rewrite Nat.sub_0_r in Hmean.
    rewrite (leaf_mass_mean D newNodes (length newNodes) 0%nat root 1%Q Hmean Hroot).
    field. exact Hd.
Qed.

(** ** Reachable trees *)

Lemma Done_check {A} (m : outcome A) (f : A -> bool) (a : A) :
  m = Done a -> match m with Done x => f x | _ => false end = true -> f a = true.
Proof. by intros ->. Qed.

Lemma dens_leb_sound (M : Q) (P : list Node) : dens_leb M P = true -> dens_le M P.
Proof.
  unfold dens_leb. induction P as [|m P IH]; intros H i n Hn; [done|].
  simpl in H. apply andb_true_iff in H as [Hm HP].
  destruct i as [|i]; simpl in Hn.
  - injection Hn as <-. by apply Qle_bool_iff.
  - by eapply IH.
Qed.

Section Reachable.

Variable D : nat.
Variables target fsqrt : Q -> Q.

Lemma refine_Done (fuel : nat) (t t' : BTreeDistribution) :
  refine D fuel t = Done t' ->
  refine_rec D fuel (m_splitThreshold t) 1%Q 0 (m_nodes t) = Done (m_nodes t')
  /\ t' = with_nodes t (m_nodes t').
Proof.
  unfold refine. intros H. apply obind_Done in H as (nodes & Hn & H).
  injection H as <-. by split.
Qed.

Lemma reachable_wf (t : BTreeDistribution) :
  reachable D target fsqrt int_limit t ->
  wf_pool D (m_nodes t) /\ m_splitThreshold t = (2 # 1000)%Q.
Proof.
  induction 1 as [|t x v w t' _ [IHwf IHthr] Hsplat _|t t' _ [IHwf IHthr] Hbuild _
                  |t fuel t' _ [IHwf IHthr] Hrefine Hlim|t _ _].
  - split; [apply wf_new_tree|done].
  - destruct (splat_wf D target t t' x v w IHwf Hsplat) as (Hs & Hthr & _).
    split; [by eapply wf_same_shape|congruence].
  - destruct (build_wf D fsqrt t IHwf) as (t'' & Hb & Hwf' & Hthr & _).
    rewrite Hb in Hbuild. injection Hbuild as <-. split; [done|congruence].
  - apply refine_Done in Hrefine as [Hrec Heq]. split; [|by rewrite Heq].
    destruct IHwf as [Hpos Hok].
    eapply (refine_rec_post D _ fuel 1%Q 0%nat); [by split|done|exact Hrec|exact Hlim].
  - split; [apply wf_new_tree|done].
Qed.

Lemma reachable_int_limit (t : BTreeDistribution) :
  reachable D target fsqrt int_limit t -> int_limit t.
Proof.
  assert (Hnew : int_limit (new_tree D)).
  { destruct (setUniform_spec D []) as (u & Hu & _).
    unfold int_limit, nodeCount, new_tree. simpl m_nodes. rewrite Hu. simpl. lia. }
  by destruct 1.
Qed.

Lemma sample_terminates (t : BTreeDistribution) (x : Vector) (pdf_in : Q) :
  wf_pool D (m_nodes t) -> terminates (sample D t x pdf_in).
Proof.
  intros Hwf. pose proof Hwf as [Hpos _]. unfold terminates, sample.
  destruct (sample_loop_cases D (m_nodes t) Hwf (length (m_nodes t)) 0%nat x
                              (replicate D 0%Q) 1%Q Hpos ltac:(lia))
    as [Hfail|(i & x' & base' & scale' & Hloop & Hi)];
    change (Z.of_nat 0) with 0 in *.
  - by rewrite Hfail.
  - rewrite Hloop. simpl.
    destruct (lookup_lt_is_Some_2 (m_nodes t) i Hi) as [n Hn].
    rewrite (node_at_nat _ _ _ Hn). simpl.
    by destruct (Qlt_bool 0 (density n)).
Qed.

(** C9, as amended.  A tree reached from a freshly constructed one by
    [splat], [build], [refine] and reset, through trees of at most [2^31]
    nodes, keeps its pool in order: every child index of a non-leaf node
    at index [i] is strictly greater than [i] (and inside the pool).
    Hence [indexAt], [sample], [depth] and [splatFiltered] return,
    visiting no more nodes on a path than the pool holds.  [refine]
    returns a tree of at most [2^31] nodes, within the node count of that
    tree, whenever a full tree of [L] levels fits: every density is below
    [0.002 * Arity^L] and [nodeCount + Arity + ... + Arity^L <= 2^31].
    Whenever [refine] returns a tree of at most [2^31] nodes, it did not
    recurse deeper than that tree's node count; and in at most 30
    dimensions whatever it returns is such a tree. *)
Theorem reachable_ordered_descents (t : BTreeDistribution) :
  reachable D target fsqrt int_limit t ->
  children_above D (m_nodes t)
  /\ wf_pool D (m_nodes t)
  /\ (forall x, exists leaf d,
         indexAt D (m_nodes t) x = Done (leaf, d)
         /\ 0 <= d < Z.of_nat (nodeCount t))
  /\ (forall x pdf_in, terminates (sample D t x pdf_in))
  /\ (exists d, depth D t = Done d /\ 1 <= d <= Z.of_nat (nodeCount t))
  /\ (forall sm originMin originMax v w nodeMin nodeSize,
         terminates (splatFiltered D target (nodeCount t) sm originMin originMax v w
                                   0 nodeMin nodeSize (m_nodes t)))
  /\ (forall (M : Q) (L : nat),
         (0 <= M)%Q -> dens_le M (m_nodes t) ->
         quiet (2 # 1000) M (inject_Z (Z.of_nat (Arity D))) L 1 ->
         Z.of_nat (nodeCount t) + growth (Z.of_nat (Arity D)) L <= 2 ^ 31 ->
         exists t', refine D (nodeCount t') t = Done t'
                    /\ reachable D target fsqrt int_limit t')
  /\ (forall fuel t',
         refine D fuel t = Done t' -> int_limit t' ->
         refine D (nodeCount t') t = Done t')
  /\ ((D <= 30)%nat ->
      forall fuel t',
        refine D fuel t = Done t' -> reachable D target fsqrt int_limit t').
Proof.
  intros Hreach. destruct (reachable_wf t Hreach) as [Hwf Hthr].
  pose proof Hwf as [Hpos Hok].
  split; [|split; [done|]].
  { intros i n Hn Hleaf c Hc. destruct (Hok i n Hn) as [_ Hch].
    specialize (Hch Hleaf c Hc). lia. }
  split; [|split; [|split; [|split; [|split; [|split]]]]].
  - intros x. destruct (indexAt_wf D (m_nodes t) x Hwf) as (i & d & n & Hidx & _ & _ & Hd).
    by exists (Z.of_nat i), d.
  - intros x pdf_in. by apply sample_terminates.
  - destruct (lookup_lt_is_Some_2 (m_nodes t) 0%nat Hpos) as [root Hroot].
    destruct (node_depth_Done D (m_nodes t) Hwf (length (m_nodes t)) 0%nat root Hroot
                              ltac:(lia)) as (d & Hd & Hrange).
    exists d. split; [|unfold nodeCount; lia].
    unfold depth. pose proof (node_at_nat _ _ _ Hroot) as Hat.
    change (Z.of_nat 0) with 0 in Hat. by rewrite Hat.
  - intros sm originMin originMax v w nodeMin nodeSize. unfold terminates, nodeCount.
    destruct (splatFiltered_wf D target sm originMin originMax v w
                               (length (m_nodes t)) (m_nodes t) 0%nat nodeMin nodeSize
                               Hwf Hpos ltac:(lia)) as [Hfail|(P' & HP' & _)];
      change (Z.of_nat 0) with 0 in *.
    + by rewrite Hfail.
    + by rewrite HP'.
  - intros M L HM Hd HL Hroom.
    assert (H01 : (0 < 1)%Q) by reflexivity.
    destruct (refine_rec_returns D (2 # 1000) M HM L 1%Q 0%nat (m_nodes t)
                                 H01 Hwf Hpos Hd HL Hroom)
      as (P' & HP' & _ & Hfit).
    assert (Href : refine D (nodeCount (with_nodes t P')) t = Done (with_nodes t P')).
    { unfold refine, nodeCount. simpl. rewrite Hthr.
      rewrite Nat.sub_0_r in HP'. change (Z.of_nat 0) with 0 in HP'. by rewrite HP'. }
    exists (with_nodes t P'). split; [exact Href|].
    eapply reach_refine; [exact Hreach|exact Href|exact Hfit].
  - intros fuel t' H Hlim. apply refine_Done in H as [H Heq].
    change 0 with (Z.of_nat 0) in H.
    pose proof (refine_rec_fuel_bound D _ _ _ _ _ _ (nodeCount t') Hwf Hpos H Hlim
                                      ltac:(unfold nodeCount; lia)) as H'.
    unfold refine. rewrite Nat.sub_0_r in H'. change (Z.of_nat 0) with 0 in H'.
    rewrite H'. simpl. by rewrite <- Heq.
  - intros HD fuel t' H. eapply reach_refine; [exact Hreach|exact H|].
    apply refine_Done in H as [H _]. change 0 with (Z.of_nat 0) in H.
    exact (refine_rec_fits D HD _ _ _ _ _ _ Hwf Hpos (reachable_int_limit t Hreach) H).
Qed.

End Reachable.

Lemma reachable_refined_line (t : BTreeDistribution) :
  refined_line = Done t -> reachable 1 id_target id_target int_limit t.
Proof.
  intros H. pose proof H as H0. unfold refined_line in H.
  apply obind_Done in H as (t1 & E1 & H).
  apply obind_Done in H as (t2 & E2 & E3).
  assert (E12 : (let* t := splat 1 id_target (new_tree 1) [(1 # 2)%Q] 1%Q 1%Q in
                 build 1 id_target t) = Done t2) by (rewrite E1; exact E2).
  eapply reach_refine; [|exact E3|].
  - eapply reach_build; [|exact E2|].
    + eapply reach_splat; [apply reach_new|exact E1|].
      apply Z.leb_le.
      apply (Done_check _ (fun t => Z.of_nat (nodeCount t) <=? 2 ^ 31) _ E1).
      vm_compute. reflexivity.
    + apply Z.leb_le.
      apply (Done_check _ (fun t => Z.of_nat (nodeCount t) <=? 2 ^ 31) _ E12).
      vm_compute. reflexivity.
  - apply Z.leb_le.
    apply (Done_check _ (fun t => Z.of_nat (nodeCount t) <=? 2 ^ 31) _ H0).
    vm_compute. reflexivity.
Qed.

Lemma reachable_ordered_descents_witness :
  exists t,
    refined_line = Done t
    /\ nodeCount t = 1023%nat
    /\ children_above 1 (m_nodes t)
    /\ (forall x, exists leaf d,
           indexAt 1 (m_nodes t) x = Done (leaf, d) /\ 0 <= d < Z.of_nat (nodeCount t))
    /\ (exists t', refine 1 (nodeCount t') t = Done t'
                   /\ reachable 1 id_target id_target int_limit t').
Proof.
  assert (Hc : match refined_line with Done t => nodeCount t | _ => 0%nat end = 1023%nat)
    by (vm_compute; reflexivity).
  assert (Hb : match refined_line with
               | Done t => dens_leb 1 (m_nodes t)
               | _ => false
               end = true) by (vm_compute; reflexivity).
  destruct refined_line as [t| |] eqn:E; [|discriminate..].
  exists t. split; [reflexivity|]. split; [exact Hc|].
  destruct (reachable_ordered_descents 1 id_target id_target t (reachable_refined_line t E))
    as (Habove & _ & Hidx & _ & _ & _ & Href & _ & _).
  split; [exact Habove|]. split; [exact Hidx|].
  apply (Href 1%Q 9%nat).
  - discriminate.
  - by apply dens_leb_sound.
  - vm_compute. reflexivity.
  - rewrite Hc. vm_compute. discriminate.
Defined.

(** C9 as it is stated fails: one deposit of weight [4194304] at [0.5] on
    a fresh one-dimensional tree is a reachable tree on which [refine]
    does not return.  Its only leaf has density [4194305], which is at
    least [0.002 * 2^d] down to depth 30, so a whole binary tree of
    [2^32 - 1] nodes is asked for; the child indices from [2^31] on do not
    fit an [int], are stored negative, and the call on such a child reads
    outside the pool. *)
Lemma refine_beyond_int :
  exists t,
    splat 1 id_target (new_tree 1) [(1 # 2)%Q] 1%Q (4194304 # 1)%Q = Done t
    /\ reachable 1 id_target id_target no_limit t
    /\ forall fuel t', refine 1 fuel t <> Done t'.
Proof.
  eexists. split; [vm_compute; reflexivity|]. split.
  { apply (reach_splat 1 id_target id_target no_limit (new_tree 1)
                       [(1 # 2)%Q] 1%Q (4194304 # 1)%Q);
      [apply reach_new|vm_compute; reflexivity|exact I]. }
  intros fuel t' H. apply refine_Done in H as [H _]. simpl in H.
  change 0 with (Z.of_nat 0) in H.
  assert (HD : (1 <= 30)%nat) by lia.
  assert (Hg : growth (Z.of_nat (Arity 1)) 31 = 4294967294) by (vm_compute; reflexivity).
  assert (Ha : Z.of_nat (Arity 1) = 2) by reflexivity.
  eapply (refine_rec_leaf_run 1 HD _ fuel 31 1%Q 0%nat) in H;
    [|simpl; lia|reflexivity|reflexivity|reflexivity|].
  - destruct H as (Hgrow & Hub & _). rewrite Hg in Hgrow. rewrite Ha in Hub.
    simpl length in Hgrow. lia.
  - vm_compute. repeat split.
Qed.

(** * Further properties *)

(** ** Checking the order of a pool *)

Lemma node_okb_sound (D len i : nat) (n : Node) :
  node_okb D len i n = true -> node_ok D len i n.
Proof.
  unfold node_okb. intros H. apply andb_true_iff in H as [Hlen Hch].
  apply Nat.eqb_eq in Hlen. split; [done|]. intros Hleaf c Hc.
  rewrite Hleaf in Hch. simpl in Hch.
  rewrite forallb_forall in Hch. specialize (Hch c).
  rewrite andb_true_iff, !Z.ltb_lt in Hch. apply Hch.
  apply in_seq. lia.
Qed.

Lemma nodes_okb_sound (D len : nat) (nodes : list Node) :
  forall i, nodes_okb D len i nodes = true ->
    forall k n, nodes !! k = Some n -> node_ok D len (i + k) n.
Proof.
  induction nodes as [|m rest IH]; intros i H k n Hn; [done|].
  simpl in H. apply andb_true_iff in H as [Hm Hrest].
  destruct k as [|k]; simpl in Hn.
  - injection Hn as <-. rewrite Nat.add_0_r. by apply node_okb_sound.
  - replace (i + Datatypes.S k)%nat with (Datatypes.S i + k)%nat by lia.
    by apply IH.
Qed.

Lemma wf_poolb_sound (D : nat) (nodes : list Node) :
  wf_poolb D nodes = true -> wf_pool D nodes.
Proof.
  unfold wf_poolb. intros H. apply andb_true_iff in H as [Hpos Hok].
  apply Nat.ltb_lt in Hpos. split; [done|]. intros i n Hn.
  by apply (nodes_okb_sound D _ nodes 0%nat Hok i n).
Qed.

(** ** Depth *)

Section DepthProps.

Variable D : nat.
Variable P : list Node.

Lemma depth_children_ge (rec : Node -> outcome Z) (n : Node) (m : Z) :
  depth_children D rec P n = Done m ->
  0 <= m /\
  forall c : nat, (c < Arity D)%nat ->
    exists cn dc, node_at P (child n (Z.of_nat c)) = Done cn
                  /\ rec cn = Done dc /\ dc <= m.
Proof.
  unfold depth_children.
  assert (Hloop : forall k mk,
    foldl (fun acc i =>
             let* maxDepth := acc in
             let* c := node_at P (child n (Z.of_nat i)) in
             let* d := rec c in
             Done (Z.max maxDepth d)) (Done 0) (seq 0 k) = Done mk ->
    0 <= mk /\
    forall c : nat, (c < k)%nat ->
      exists cn dc, node_at P (child n (Z.of_nat c)) = Done cn
                    /\ rec cn = Done dc /\ dc <= mk).
  { induction k as [|k IH]; intros mk H.
    - simpl in H. injection H as <-. split; [lia|]. intros c Hc. lia.
    - rewrite seq_S, foldl_app in H. simpl in H.
      apply obind_Done in H as (m0 & Hm0 & H).
      apply obind_Done in H as (cn & Hcn & H).
      apply obind_Done in H as (dc & Hdc & H). injection H as <-.
      destruct (IH m0 Hm0) as (Hpos & Hall). split; [lia|].
      intros c Hc. destruct (decide (c = k)) as [->|Hne].
      + exists cn, dc. repeat split; auto. lia.
      + destruct (Hall c ltac:(lia)) as (cn' & dc' & H1 & H2 & H3).
        exists cn', dc'. repeat split; auto. lia. }
  apply Hloop.
Qed.

(** The depth [indexAt] reports stays below what [TreeNode::depth]
    returns for the node it started from. *)
Lemma indexAt_loop_depth :
  forall fuel fuel2 (x : Vector) (index d0 i d : Z) (n : Node) (dn : Z),
    node_at P index = Done n ->
    indexAt_loop D fuel P x index d0 = Done (i, d) ->
    node_depth D fuel2 P n = Done dn ->
    d - d0 + 1 <= dn.
Proof.
  induction fuel as [|fuel IH]; intros fuel2 x index d0 i d n dn Hn Hidx Hdepth; [done|].
  destruct fuel2 as [|fuel2]; [done|].
  simpl in Hidx, Hdepth. rewrite Hn in Hidx. simpl in Hidx.
  destruct (isLeaf n) eqn:Hleaf.
  - injection Hidx as <- <-. injection Hdepth as <-. lia.
  - pose proof (indexAt_dims_range D x D) as Hci.
    destruct (foldl indexAt_dim (0, x) (seq 0 D)) as [ci x'] eqn:E. simpl in Hci.
    apply obind_Done in Hidx as (_ & _ & Hidx).
    apply obind_Done in Hdepth as (m & Hm & Hdepth). injection Hdepth as <-.
    destruct (depth_children_ge _ n m Hm) as (_ & Hall).
    destruct (Hall (Z.to_nat ci)) as (cn & dc & Hcn & Hdc & Hle).
    { pose proof (Arity_Z D). lia. }
    rewrite Z2Nat.id in Hcn by lia.
    pose proof (IH fuel2 x' (child n ci) (d0 + 1) i d cn dc Hcn Hidx Hdc). lia.
Qed.

End DepthProps.

(** On an ordered pool the depth [indexAt] reports is below [depth()]. *)
Lemma indexAt_depth_lt (D : nat) (t : BTreeDistribution) (x : Vector) (i d dd : Z) :
  wf_pool D (m_nodes t) ->
  indexAt D (m_nodes t) x = Done (i, d) -> depth D t = Done dd -> d < dd.
Proof.
  intros Hwf Hidx Hdepth. pose proof Hwf as [Hpos _].
  destruct (lookup_lt_is_Some_2 (m_nodes t) 0%nat Hpos) as [root Hroot].
  pose proof (node_at_nat _ _ _ Hroot) as Hat. change (Z.of_nat 0) with 0 in Hat.
  unfold depth in Hdepth. rewrite Hat in Hdepth. simpl in Hdepth.
  pose proof (indexAt_loop_depth D (m_nodes t) _ _ x 0 0 _ d root dd Hat Hidx Hdepth).
  lia.
Qed.

(** X2.  On an ordered pool [indexAt] and [depth()] both return: [indexAt]
    ends in a leaf of the pool, the depth it reports is below [depth()],
    and [depth()] is at most the node count. *)
Theorem indexAt_below_depth (D : nat) (t : BTreeDistribution) (x : Vector) :
  wf_pool D (m_nodes t) ->
  exists (i : nat) (d dd : Z) (leaf : Node),
    indexAt D (m_nodes t) x = Done (Z.of_nat i, d)
    /\ m_nodes t !! i = Some leaf /\ isLeaf leaf = true
    /\ depth D t = Done dd
    /\ 0 <= d < dd /\ dd <= Z.of_nat (nodeCount t).
Proof.
  intros Hwf. pose proof Hwf as [Hpos _].
  destruct (indexAt_wf D (m_nodes t) x Hwf) as (i & d & n & Hidx & Hn & Hleaf & Hd).
  destruct (lookup_lt_is_Some_2 (m_nodes t) 0%nat Hpos) as [root Hroot].
  assert (Hfuel : (length (m_nodes t) - 0 <= length (m_nodes t))%nat) by lia.
  destruct (node_depth_Done D (m_nodes t) Hwf (length (m_nodes t)) 0%nat root Hroot
                            Hfuel) as (dd & Hdd & Hrange).
  pose proof (node_at_nat _ _ _ Hroot) as Hat. change (Z.of_nat 0) with 0 in Hat.
  assert (Hdepth : depth D t = Done dd) by (unfold depth; by rewrite Hat).
  exists i, d, dd, n. split; [done|]. split; [done|]. split; [done|].
  split; [done|].
  pose proof (indexAt_depth_lt D t x _ d dd Hwf Hidx Hdepth).
  unfold nodeCount. lia.
Qed.

(** ** The freshly constructed tree *)

Lemma vget_vset (x : Vector) (k dim : nat) (v : Q) :
  vget (vset x k v) dim = if decide (k = dim /\ (k < length x)%nat) then v else vget x dim.
Proof.
  unfold vget, vset. rewrite !nth_lookup, list_lookup_insert.
  by destruct (decide (k = dim /\ (k < length x)%nat)).
Qed.

Lemma vget_replicate_0 (D k : nat) : vget (replicate D 0%Q) k = 0%Q.
Proof.
  unfold vget. rewrite nth_lookup.
  destruct (replicate D 0%Q !! k) eqn:E; [|done].
  apply lookup_replicate in E as [-> _]. done.
Qed.

Lemma sample_unwarp_id (base : Vector) (x : Vector) :
  (forall k, vget base k = 0%Q) ->
  forall n dim,
    (vget (foldl (fun x dim => vset x dim (vget x dim * 1 + vget base dim)%Q) x (seq 0 n)) dim
     == vget x dim)%Q.
Proof.
  intros Hb. induction n as [|n IH]; intros dim; [reflexivity|].
  rewrite seq_S, foldl_app. simpl. rewrite vget_vset.
  destruct (decide _) as [[-> _]|_]; [|apply IH].
  rewrite Hb, IH. ring.
Qed.

(** X3.  A freshly constructed tree, in every dimension: one node, depth 1,
    [pdf] 1 and value 0 at every point, estimate 0; [sample] returns its
    input with pdf 1. *)
Theorem new_tree_uniform (D : nat) (x : Vector) (pdf_in : Q) :
  nodeCount (new_tree D) = 1%nat
  /\ depth D (new_tree D) = Done 1
  /\ pdf D (new_tree D) x = Done 1%Q
  /\ at_ D (new_tree D) x = Done 0%Q
  /\ estimate (new_tree D) = Done 0%Q
  /\ exists x' p v,
       sample D (new_tree D) x pdf_in = Done (x', p, v)
       /\ (p == 1)%Q /\ v = 0%Q /\ length x' = length x
       /\ forall dim, (vget x' dim == vget x dim)%Q.
Proof.
  destruct (setUniform_spec D []) as (u & Hu & Hleaf & Hd & Hv & Hw & _).
  assert (Hn : m_nodes (new_tree D) = [u]) by exact Hu.
  assert (Hat : node_at [u] 0 = Done u) by reflexivity.
  split; [unfold nodeCount; by rewrite Hn|].
  split; [unfold depth; rewrite Hn, Hat; simpl; by rewrite Hleaf|].
  split; [rewrite (pdf_single_leaf D _ u x Hn Hleaf); by rewrite Hd|].
  split; [unfold at_; rewrite Hn, (indexAt_single_leaf D u x Hleaf); simpl; by rewrite Hv|].
  split; [unfold estimate; rewrite Hn, Hat; simpl; by rewrite Hv|].
  unfold sample. rewrite Hn. simpl. rewrite Hleaf. simpl. rewrite Hd, Hv. simpl.
  eexists _, _, _. split; [reflexivity|]. split; [ring|]. split; [done|]. split.
  - generalize (replicate D 0%Q). intros base. generalize D at 1.
    induction D0 as [|n IH]; [done|].
    rewrite seq_S, foldl_app. simpl. unfold vset. by rewrite length_insert.
  - intros dim. apply sample_unwarp_id. apply vget_replicate_0.
Qed.

Lemma indexAt_below_depth_witness :
  exists (i : nat) (d dd : Z) (leaf : Node),
    indexAt 1 (m_nodes (line_tree 1 (line_leaf (1 # 2) 1 1) (line_leaf (3 # 2) 3 1)))
            [(1 # 4)%Q] = Done (Z.of_nat i, d)
    /\ m_nodes (line_tree 1 (line_leaf (1 # 2) 1 1) (line_leaf (3 # 2) 3 1)) !! i
       = Some leaf
    /\ isLeaf leaf = true
    /\ depth 1 (line_tree 1 (line_leaf (1 # 2) 1 1) (line_leaf (3 # 2) 3 1)) = Done dd
    /\ 0 <= d < dd
    /\ dd <= Z.of_nat (nodeCount (line_tree 1 (line_leaf (1 # 2) 1 1)
                                            (line_leaf (3 # 2) 3 1))).
Proof.
  apply (indexAt_below_depth 1).
  apply wf_poolb_sound. vm_compute. reflexivity.
Defined.

(** ** Splitting a leaf *)

Section SplitProps.

Variable D : nat.

(** The descent of [indexAt] before and after [split]: it ends in the same
    leaf, or in one of the copies of the leaf that was split. *)
Lemma indexAt_loop_split (P P1 : list Node) (j : nat) (n nj : Node) :
  wf_pool D P -> P !! j = Some n -> isLeaf n = true ->
  (forall i, i <> j -> P1 !! i = (P ++ replicate (Arity D) n) !! i) ->
  P1 !! j = Some nj -> isLeaf nj = false ->
  (forall c : nat, (c < Arity D)%nat ->
     child nj (Z.of_nat c) = Z.of_nat (length P) + Z.of_nat c) ->
  forall fuel fuel1 (x : Vector) (i : nat) (d l d' : Z),
    (i < length P)%nat -> (fuel < fuel1)%nat ->
    indexAt_loop D fuel P x (Z.of_nat i) d = Done (l, d') ->
    exists l1 d1 m0 m,
      indexAt_loop D fuel1 P1 x (Z.of_nat i) d = Done (l1, d1)
      /\ node_at P l = Done m0 /\ node_at P1 l1 = Done m
      /\ density m = density m0 /\ value m = value m0 /\ weight m = weight m0
      /\ (l = Z.of_nat j -> d1 = d' + 1 /\ Z.of_nat (length P) <= l1)
      /\ (l <> Z.of_nat j -> l1 = l /\ d1 = d').
Proof.
  intros Hwf Hn Hleaf Hne Hnj Hnjleaf Hnjc.
  induction fuel as [|fuel IH]; intros fuel1 x i d l d' Hi Hfuel H; [done|].
  destruct fuel1 as [|fuel1]; [lia|].
  destruct (lookup_lt_is_Some_2 P i Hi) as [ni Hni].
  simpl in H |- *. rewrite (node_at_nat _ _ _ Hni) in H. simpl in H.
  pose proof (indexAt_dims_range D x D) as Hci.
  destruct (foldl indexAt_dim (0, x) (seq 0 D)) as [ci x'] eqn:E. simpl in Hci.
  assert (Hc : (Z.to_nat ci < Arity D)%nat) by (pose proof (Arity_Z D); lia).
  destruct (decide (i = j)) as [->|Hij].
  - assert (ni = n) as -> by congruence. rewrite Hleaf in H. injection H as <- <-.
    rewrite (node_at_nat _ _ _ Hnj). simpl. rewrite Hnjleaf.
    pose proof (Hnjc _ Hc) as Hchild. rewrite Z2Nat.id in Hchild by lia.
    rewrite Hchild.
    replace (Z.of_nat j <? Z.of_nat (length P) + ci) with true
      by (symmetry; apply Z.ltb_lt; lia).
    simpl. destruct fuel1 as [|fuel1]; [lia|]. simpl.
    assert (Hcopy : P1 !! (length P + Z.to_nat ci)%nat = Some n).
    { rewrite Hne by lia. rewrite lookup_app_r by lia.
      apply lookup_replicate. split; [done|lia]. }
    replace (Z.of_nat (length P) + ci) with (Z.of_nat (length P + Z.to_nat ci)) by lia.
    rewrite (node_at_nat _ _ _ Hcopy). simpl. rewrite Hleaf.
    eexists _, _, n, n. split; [reflexivity|].
    split; [by apply node_at_nat|]. split; [by apply node_at_nat|].
    repeat split; auto; lia.
  - assert (Hni1 : P1 !! i = Some ni).
    { rewrite Hne by done. by rewrite lookup_app_l. }
    rewrite (node_at_nat _ _ _ Hni1). simpl.
    destruct (isLeaf ni) eqn:Hnileaf.
    + injection H as <- <-. eexists _, _, ni, ni. split; [reflexivity|].
      split; [by apply node_at_nat|]. split; [by apply node_at_nat|].
      repeat split; auto; lia.
    + pose proof (wf_child_range D P i ni ci Hwf Hni Hnileaf Hci) as Hrange.
      apply obind_Done in H as ([] & Hassert & H). rewrite Hassert. simpl.
      rewrite <- (Z2Nat.id (child ni ci)) in H |- * by lia.
      apply (IH fuel1 x' _ (d + 1) l d'); [lia|lia|done].
Qed.

(** X4.  [split] of a leaf of an ordered pool, where the [Arity] new
    indices fit an [int] (the pool and they make at most [2^31] nodes),
    returns an ordered pool with [Arity] more nodes; the other nodes stay,
    and so do the density, the value and the weight found at any point.  A
    point that was located in the leaf that was split is now located one
    level deeper, in one of the new nodes. *)
Theorem split_keeps_distribution (t : BTreeDistribution) (j : nat) (n : Node) :
  wf_pool D (m_nodes t) -> m_nodes t !! j = Some n -> isLeaf n = true ->
  Z.of_nat (nodeCount t) + Z.of_nat (Arity D) <= 2 ^ 31 ->
  exists P1,
    split D (Z.of_nat j) (m_nodes t) = Done P1
    /\ wf_pool D P1
    /\ length P1 = (nodeCount t + Arity D)%nat
    /\ (forall i m, i <> j -> m_nodes t !! i = Some m -> P1 !! i = Some m)
    /\ (forall x, pdf D (with_nodes t P1) x = pdf D t x
                  /\ at_ D (with_nodes t P1) x = at_ D t x)
    /\ (forall x, exists i d i1 d1,
          indexAt D (m_nodes t) x = Done (i, d) /\ indexAt D P1 x = Done (i1, d1)
          /\ (i = Z.of_nat j -> d1 = d + 1 /\ Z.of_nat (nodeCount t) <= i1)
          /\ (i <> Z.of_nat j -> i1 = i /\ d1 = d)).
Proof.
  intros Hwf Hn Hleaf Hsmall. pose proof Hwf as [Hpos _].
  destruct (split_spec D _ j n Hwf Hn Hleaf Hsmall)
    as (P1 & nj & Hsplit & Hl & Hne & Hnj & Hnjl & Hnjd & Hnjc).
  pose proof (split_wf D _ P1 j n nj Hwf Hn Hleaf Hl Hne Hnj Hnjl Hnjc) as Hwf1.
  assert (Hnjleaf : isLeaf nj = false).
  { unfold isLeaf. pose proof (Hnjc 0%nat (Arity_pos D)) as H0.
    change (Z.of_nat 0) with 0 in H0. apply Z.eqb_neq. lia. }
  exists P1. split; [done|]. split; [done|]. split; [exact Hl|]. split.
  { intros i m Hij Hm. rewrite Hne by done. rewrite lookup_app_l; [done|].
    by eapply lookup_lt_Some. }
  assert (Hboth : forall x,
    exists i d i1 d1 m0 m,
      indexAt D (m_nodes t) x = Done (i, d) /\ indexAt D P1 x = Done (i1, d1)
      /\ node_at (m_nodes t) i = Done m0 /\ node_at P1 i1 = Done m
      /\ density m = density m0 /\ value m = value m0
      /\ (i = Z.of_nat j -> d1 = d + 1 /\ Z.of_nat (nodeCount t) <= i1)
      /\ (i <> Z.of_nat j -> i1 = i /\ d1 = d)).
  { intros x.
    destruct (indexAt_wf D (m_nodes t) x Hwf) as (i & d & leaf & Hidx & Hi & Hil & _).
    pose proof Hidx as Hidx0. unfold indexAt in Hidx.
    change 0 with (Z.of_nat 0) in Hidx at 1.
    assert (Hfuel : (length (m_nodes t) < length P1)%nat)
      by (pose proof (Arity_pos D); lia).
    destruct (indexAt_loop_split _ P1 j n nj Hwf Hn Hleaf Hne Hnj Hnjleaf Hnjc
                _ (length P1) x 0%nat 0 _ _ Hpos Hfuel Hidx)
      as (l1 & d1 & m0 & m & H1 & Hm0 & Hm & Hd & Hv & _ & Ha & Hb).
    exists (Z.of_nat i), d, l1, d1, m0, m. done. }
  split.
  - intros x.
    destruct (Hboth x) as (i & d & i1 & d1 & m0 & m & H0 & H1 & Hm0 & Hm & Hd & Hv & _).
    unfold pdf, at_. simpl. rewrite H0, H1. simpl. rewrite Hm0, Hm. simpl.
    by rewrite Hd, Hv.
  - intros x.
    destruct (Hboth x) as (i & d & i1 & d1 & m0 & m & H0 & H1 & _ & _ & _ & _ & Ha & Hb).
    by exists i, d, i1, d1.
Qed.

End SplitProps.

Lemma split_keeps_distribution_witness :
  exists P1,
    split 1 (Z.of_nat 1)
          (m_nodes (line_tree 1 (line_leaf (1 # 2) 1 1) (line_leaf (3 # 2) 3 1)))
    = Done P1
    /\ wf_pool 1 P1
    /\ length P1
       = (nodeCount (line_tree 1 (line_leaf (1 # 2) 1 1) (line_leaf (3 # 2) 3 1))
          + Arity 1)%nat
    /\ (forall i m, i <> 1%nat ->
          m_nodes (line_tree 1 (line_leaf (1 # 2) 1 1) (line_leaf (3 # 2) 3 1)) !! i
          = Some m -> P1 !! i = Some m)
    /\ (forall x,
          pdf 1 (with_nodes (line_tree 1 (line_leaf (1 # 2) 1 1) (line_leaf (3 # 2) 3 1))
                            P1) x
          = pdf 1 (line_tree 1 (line_leaf (1 # 2) 1 1) (line_leaf (3 # 2) 3 1)) x
          /\ at_ 1 (with_nodes (line_tree 1 (line_leaf (1 # 2) 1 1)
                                          (line_leaf (3 # 2) 3 1)) P1) x
             = at_ 1 (line_tree 1 (line_leaf (1 # 2) 1 1) (line_leaf (3 # 2) 3 1)) x)
    /\ (forall x, exists i d i1 d1,
          indexAt 1 (m_nodes (line_tree 1 (line_leaf (1 # 2) 1 1)
                                        (line_leaf (3 # 2) 3 1))) x = Done (i, d)
          /\ indexAt 1 P1 x = Done (i1, d1)
          /\ (i = Z.of_nat 1 ->
              d1 = d + 1
              /\ Z.of_nat (nodeCount (line_tree 1 (line_leaf (1 # 2) 1 1)
                                                (line_leaf (3 # 2) 3 1))) <= i1)
          /\ (i <> Z.of_nat 1 -> i1 = i /\ d1 = d)).
Proof.
  apply (split_keeps_distribution 1
           (line_tree 1 (line_leaf (1 # 2) 1 1) (line_leaf (3 # 2) 3 1))
           1%nat (line_leaf (1 # 2) 1 1)).
  - apply wf_poolb_sound. vm_compute. reflexivity.
  - reflexivity.
  - reflexivity.
  - vm_compute. discriminate.
Defined.

(** ** Refine resets the leaves *)

Lemma node_reset_id (n : Node) : is_reset n -> node_reset n = n.
Proof.
  intros (_ & Hd & Hv & Hw). destruct n as [cs d v w]. simpl in *. subst.
  reflexivity.
Qed.

Lemma is_reset_node_reset (n : Node) : isLeaf n = true -> is_reset (node_reset n).
Proof. intros H. repeat split. exact H. Qed.

Lemma settled_mono (D : nat) (P : list Node) :
  forall fuel fuel' i, settled D fuel P i -> (fuel <= fuel')%nat -> settled D fuel' P i.
Proof.
  induction fuel as [|fuel IH]; intros fuel' i H Hle; [done|].
  destruct fuel' as [|fuel']; [lia|].
  destruct H as (n & Hn & H). exists n. split; [done|].
  destruct H as [H|(Hleaf & Hch)]; [by left|]. right. split; [done|].
  intros c Hc. destruct (Hch c Hc) as (k & Hk & Hik & Hs).
  exists k. repeat split; auto. apply (IH fuel'); [done|lia].
Qed.

Lemma settled_stable (D : nat) (P P' : list Node) :
  forall fuel i,
    settled D fuel P i ->
    (forall k n, (i <= k)%nat -> P !! k = Some n ->
                 isLeaf n = false \/ is_reset n -> P' !! k = Some n) ->
    settled D fuel P' i.
Proof.
  induction fuel as [|fuel IH]; intros i H Hkeep; [done|].
  destruct H as (n & Hn & H). exists n.
  destruct H as [H|(Hleaf & Hch)].
  - split; [apply Hkeep; auto|by left].
  - split; [apply Hkeep; auto|]. right. split; [done|].
    intros c Hc. destruct (Hch c Hc) as (k & Hk & Hik & Hs).
    exists k. repeat split; auto. apply IH; [done|].
    intros k' n' Hk'. apply Hkeep. lia.
Qed.

(** Where every leaf is reset, [indexAt] ends in a reset leaf. *)
Lemma indexAt_loop_settled (D : nat) (P : list Node) :
  forall fuel f (x : Vector) (i : nat) (d l d' : Z),
    settled D f P i ->
    indexAt_loop D fuel P x (Z.of_nat i) d = Done (l, d') ->
    exists n, node_at P l = Done n /\ is_reset n.
Proof.
  induction fuel as [|fuel IH]; intros f x i d l d' Hs H; [done|].
  destruct f as [|f]; [done|]. destruct Hs as (n & Hn & Hs).
  simpl in H. rewrite (node_at_nat _ _ _ Hn) in H. simpl in H.
  destruct Hs as [Hr|(Hleaf & Hch)].
  - pose proof Hr as (Hleaf & _). rewrite Hleaf in H. injection H as <- <-.
    exists n. split; [by apply node_at_nat|done].
  - rewrite Hleaf in H.
    pose proof (indexAt_dims_range D x D) as Hci.
    destruct (foldl indexAt_dim (0, x) (seq 0 D)) as [ci x'] eqn:E. simpl in Hci.
    apply obind_Done in H as (_ & _ & H).
    destruct (Hch (Z.to_nat ci)) as (k & Hk & _ & Hsk).
    { pose proof (Arity_Z D). lia. }
    rewrite Z2Nat.id in Hk by lia. rewrite Hk in H.
    by apply (IH f x' k (d + 1) l d').
Qed.

Section RefineResets.

Variable D : nat.
Variable thr : Q.
Hypothesis Hthr : (0 < thr)%Q.

Abbreviation A := (inject_Z (Z.of_nat (Arity D))).

Lemma refine_rec_settles :
  forall fuel (s : Q) (j : nat) (P P' : list Node),
    wf_pool D P -> (j < length P)%nat -> (0 < s)%Q ->
    refine_rec D fuel thr s (Z.of_nat j) P = Done P' -> int_pool P' ->
    (forall i n, P !! i = Some n -> is_reset n -> P' !! i = Some n)
    /\ settled D (length P' - j) P' j.
Proof.
  induction fuel as [|fuel IH]; intros s j P P' Hwf Hj Hs H Hfit; [done|].
  pose proof (refine_rec_post D thr _ _ _ _ _ Hwf Hj H Hfit) as (Hwf' & Hlen' & Hkeep').
  rewrite refine_rec_S in H.
  destruct (lookup_lt_is_Some_2 P j Hj) as [n Hn].
  rewrite (node_at_nat _ _ _ Hn) in H. simpl in H.
  assert (HsA : (0 < s * A)%Q).
  { pose proof (A_ge_1 D). nra. }
  assert (Hdesc : forall P1 nj,
            wf_pool D P1 -> P1 !! j = Some nj -> isLeaf nj = false ->
            refine_children D (refine_rec D fuel thr (s * A)%Q) (Z.of_nat j) P1 = Done P' ->
            (forall i n, P1 !! i = Some n -> is_reset n -> P' !! i = Some n)
            /\ settled D (length P' - j) P' j).
  { intros P1 nj Hwf1 Hnj Hleaf Hc. unfold refine_children in Hc.
    assert (Hloop : forall k Pk, (k <= Arity D)%nat ->
      foldl (fun acc c => let* nodes := acc in
                          let* n := node_at nodes (Z.of_nat j) in
                          refine_rec D fuel thr (s * A)%Q (child n (Z.of_nat c)) nodes)
            (Done P1) (seq 0 k) = Done Pk ->
      int_pool Pk ->
      refine_post D P1 Pk
      /\ (forall i n, P1 !! i = Some n -> is_reset n -> Pk !! i = Some n)
      /\ forall c : nat, (c < k)%nat ->
           exists i : nat, child nj (Z.of_nat c) = Z.of_nat i /\ (j < i)%nat
                           /\ settled D (length Pk - i) Pk i).
    { induction k as [|k IHk]; intros Pk Hk.
      - simpl. intros Hd _. injection Hd as <-.
        split; [by apply refine_post_refl|]. split; [done|]. intros c Hc'. lia.
      - rewrite seq_S, foldl_app. simpl. intros Hd Hfitk.
        apply obind_Done in Hd as (Pc & HPc & Hd).
        assert (Hfitc : int_pool Pc).
        { pose proof Hd as Hd'. apply obind_Done in Hd' as (m & _ & Hd').
          apply (refine_rec_length D) in Hd'. by eapply int_pool_le. }
        destruct (IHk Pc ltac:(lia) HPc Hfitc) as (Hpost & Hres & Hset).
        pose proof Hpost as (Hwfc & Hlc & Hkc).
        rewrite (node_at_nat _ _ _ (Hkc j nj Hnj Hleaf)) in Hd. simpl in Hd.
        destruct (wf_internal_child D Pc j k nj Hwfc (Hkc j nj Hnj Hleaf) Hleaf
                                    ltac:(lia)) as (i & Hi & Hrange).
        rewrite Hi in Hd.
        assert (Hilt : (i < length Pc)%nat) by lia.
        pose proof (refine_rec_post D thr _ _ _ _ _ Hwfc Hilt Hd Hfitk)
          as Hpost2.
        destruct (IH _ _ _ _ Hwfc Hilt HsA Hd Hfitk) as (Hres2 & Hset2).
        pose proof Hpost2 as (_ & Hl2 & Hk2).
        split; [by eapply refine_post_trans|]. split.
        + intros i0 n0 Hn0 Hr0. apply Hres2; [|done]. by apply Hres.
        + intros c Hc'. destruct (decide (c = k)) as [->|Hne].
          * exists i. split; [done|]. split; [lia|done].
          * destruct (Hset c ltac:(lia)) as (ic & Hic & Hjic & Hsc).
            exists ic. split; [done|]. split; [done|].
            apply (settled_mono D Pk (length Pc - ic)); [|lia].
            apply (settled_stable D Pc); [done|].
            intros k' n' _ Hn' [Hl'|Hr']; [by apply Hk2|by apply Hres2]. }
    destruct (Hloop (Arity D) P' ltac:(lia) Hc Hfit) as (Hpost & Hres & Hset).
    split; [done|].
    pose proof Hpost as (_ & Hl & Hk).
    pose proof (lookup_lt_Some _ _ _ Hnj) as Hj1.
    destruct (length P' - j)%nat as [|g] eqn:Eg; [lia|].
    exists nj. split; [by apply Hk|]. right. split; [done|].
    intros c Hc'. destruct (Hset c Hc') as (ic & Hic & Hjic & Hsc).
    exists ic. split; [done|]. split; [done|].
    apply (settled_mono D P' (length P' - ic)); [done|lia]. }
  destruct (isLeaf n) eqn:Hleaf.
  - destruct (Qle_bool thr (density n / s)) eqn:Hcrit.
    + pose proof (split_in_run D _ _ _ _ (refine_rec_length D thr fuel (s * A)%Q) H Hfit)
        as Hsmall.
      destruct (split_spec D P j n Hwf Hn Hleaf Hsmall)
        as (P1 & nj & Hsplit & Hl & Hne & Hnj & Hnjl & Hnjd & Hnjc).
      rewrite Hsplit in H. simpl in H.
      pose proof (split_wf D P P1 j n nj Hwf Hn Hleaf Hl Hne Hnj Hnjl Hnjc) as Hwf1.
      assert (Hnjleaf : isLeaf nj = false).
      { unfold isLeaf. pose proof (Hnjc 0%nat (Arity_pos D)) as H0.
        change (Z.of_nat 0) with 0 in H0. destruct Hwf as [Hpos _].
        apply Z.eqb_neq. lia. }
      destruct (Hdesc P1 nj Hwf1 Hnj Hnjleaf H) as (Hres & Hset).
      split; [|done].
      intros i m Hm Hr. apply Hres; [|done].
      destruct (decide (i = j)) as [->|Hij].
      * exfalso. assert (m = n) as -> by congruence.
        destruct Hr as (_ & Hd & _). rewrite Hd in Hcrit.
        apply Qle_bool_iff in Hcrit. unfold Qdiv in Hcrit.
        rewrite Qmult_0_l in Hcrit. lra.
      * rewrite Hne by done. rewrite lookup_app_l; [done|]. by eapply lookup_lt_Some.
    + injection H as <-. rewrite Nat2Z.id. split.
      * intros i m Hm Hr. destruct (decide (i = j)) as [->|Hij].
        -- rewrite list_lookup_alter_eq, Hm. simpl. by rewrite node_reset_id.
        -- by rewrite list_lookup_alter_ne.
      * rewrite length_alter.
        destruct (length P - j)%nat as [|g] eqn:Eg; [lia|].
        exists (node_reset n). rewrite list_lookup_alter_eq, Hn. split; [done|].
        left. by apply is_reset_node_reset.
  - by apply (Hdesc P n).
Qed.

End RefineResets.

(** After a [refine] with a positive threshold every point is located in
    a reset leaf. *)
Lemma refine_reset_everywhere (D fuel : nat) (t t' : BTreeDistribution) :
  wf_pool D (m_nodes t) -> (0 < m_splitThreshold t)%Q ->
  refine D fuel t = Done t' -> int_limit t' ->
  forall x, pdf D t' x = Done 0%Q /\ at_ D t' x = Done 0%Q.
Proof.
  intros Hwf Hthr H Hlim x. pose proof Hwf as [Hpos _].
  apply refine_Done in H as [H _]. change 0 with (Z.of_nat 0) in H.
  pose proof (refine_rec_post D _ _ _ _ _ _ Hwf Hpos H Hlim) as (Hwf' & _).
  assert (H01 : (0 < 1)%Q) by lra.
  destruct (refine_rec_settles D _ Hthr _ _ _ _ _ Hwf Hpos H01 H Hlim) as (_ & Hset).
  destruct (indexAt_wf D (m_nodes t') x Hwf') as (i & d & leaf & Hidx & Hi & _).
  pose proof Hidx as Hidx'.
  unfold indexAt in Hidx'. change 0 with (Z.of_nat 0) in Hidx' at 1.
  destruct (indexAt_loop_settled D _ _ _ _ _ _ _ _ Hset Hidx') as (n & Hn & Hr).
  destruct Hr as (_ & Hd & Hv & _).
  unfold pdf, at_. rewrite Hidx. simpl. rewrite Hn. simpl. by rewrite Hd, Hv.
Qed.

(** X5.  With a positive split threshold, [refine] on an ordered tree
    returns a tree of at most [2^31] nodes whenever every density is below
    [threshold * Arity^L] for an [L] with
    [nodeCount + Arity + ... + Arity^L <= 2^31].  Whenever it returns a
    tree of at most [2^31] nodes, the pool has not shrunk and keeps its
    internal nodes, and every leaf a point can be located in has been
    reset: the refined tree answers density 0 and value 0 everywhere. *)
Theorem refine_resets_leaves (D : nat) (t : BTreeDistribution) :
  wf_pool D (m_nodes t) -> (0 < m_splitThreshold t)%Q ->
  (forall (M : Q) (L : nat),
      (0 <= M)%Q -> dens_le M (m_nodes t) ->
      quiet (m_splitThreshold t) M (inject_Z (Z.of_nat (Arity D))) L 1 ->
      Z.of_nat (nodeCount t) + growth (Z.of_nat (Arity D)) L <= 2 ^ 31 ->
      exists t', refine D (nodeCount t') t = Done t' /\ int_limit t')
  /\ forall fuel t',
       refine D fuel t = Done t' -> int_limit t' ->
       (nodeCount t <= nodeCount t')%nat
       /\ (forall i n, m_nodes t !! i = Some n -> isLeaf n = false ->
                       m_nodes t' !! i = Some n)
       /\ (forall x, pdf D t' x = Done 0%Q /\ at_ D t' x = Done 0%Q)
       /\ m_splitThreshold t' = m_splitThreshold t
       /\ m_leafReweighting t' = m_leafReweighting t
       /\ m_doFiltering t' = m_doFiltering t
       /\ m_secondMoment t' = m_secondMoment t.
Proof.
  intros Hwf Hthr. pose proof Hwf as [Hpos _]. split.
  - intros M L HM Hd HL Hroom.
    assert (H01 : (0 < 1)%Q) by reflexivity.
    destruct (refine_rec_returns D (m_splitThreshold t) M HM L 1%Q 0%nat (m_nodes t)
                                 H01 Hwf Hpos Hd HL Hroom)
      as (P' & HP' & _ & Hfit).
    exists (with_nodes t P'). split; [|exact Hfit]. unfold refine, nodeCount. simpl.
    rewrite Nat.sub_0_r in HP'. change (Z.of_nat 0) with 0 in HP'.
    by rewrite HP'.
  - intros fuel t' H Hlim.
    pose proof (refine_reset_everywhere D fuel t t' Hwf Hthr H Hlim) as Hzero.
    apply refine_Done in H as [H Heq]. change 0 with (Z.of_nat 0) in H.
    pose proof (refine_rec_post D _ _ _ _ _ _ Hwf Hpos H Hlim) as (Hwf' & Hlen & Hkeep).
    split; [exact Hlen|]. split; [exact Hkeep|]. split; [exact Hzero|].
    by rewrite Heq.
Qed.

Lemma refine_resets_leaves_witness :
  (exists t', refine 1 (nodeCount t') (new_tree 1) = Done t' /\ int_limit t')
  /\ forall fuel t',
       refine 1 fuel (new_tree 1) = Done t' -> int_limit t' ->
       (nodeCount (new_tree 1) <= nodeCount t')%nat
       /\ (forall i n, m_nodes (new_tree 1) !! i = Some n -> isLeaf n = false ->
                       m_nodes t' !! i = Some n)
       /\ (forall x, pdf 1 t' x = Done 0%Q /\ at_ 1 t' x = Done 0%Q)
       /\ m_splitThreshold t' = m_splitThreshold (new_tree 1)
       /\ m_leafReweighting t' = m_leafReweighting (new_tree 1)
       /\ m_doFiltering t' = m_doFiltering (new_tree 1)
       /\ m_secondMoment t' = m_secondMoment (new_tree 1).
Proof.
  destruct (refine_resets_leaves 1 (new_tree 1)) as [Hret Hres].
  - apply wf_poolb_sound. vm_compute. reflexivity.
  - reflexivity.
  - split; [|exact Hres]. apply (Hret 1%Q 9%nat).
    + discriminate.
    + apply dens_leb_sound. vm_compute. reflexivity.
    + vm_compute. reflexivity.
    + vm_compute. discriminate.
Defined.

(** ** Build of a tree whose leaves are reset *)

Section BuildSettled.

Variable D : nat.
Variable fsqrt : Q -> Q.
Variables lr sm : bool.
Variable old : list Node.
Hypothesis Hold : wf_pool D old.

Lemma build_finish_weight (acc : list Node) (a : build_acc) :
  build_inv D acc (Arity D) a -> (acc_weight a <= 0)%Q ->
  exists n, build_finish D lr (length acc) a !! length acc = Some n
            /\ (weight n <= 0)%Q.
Proof.
  intros (Hlt & Hpre & (nk & Hnk & Hnklen & Hnkc) & Hrest) Hw.
  unfold build_finish.
  destruct ((if negb lr then 4 else acc_validCount a) =? 0).
  - rewrite list_lookup_alter_eq, Hnk. simpl. eexists. split; [reflexivity|].
    simpl. discriminate.
  - destruct ((if negb lr then 4 else acc_validCount a) <? Z.of_nat (Arity D)).
    + rewrite list_lookup_alter_eq, lookup_take_lt by lia.
      rewrite list_lookup_alter_eq, Hnk. simpl. eexists. split; [reflexivity|]. done.
    + rewrite list_lookup_alter_eq, Hnk. simpl. eexists. split; [reflexivity|]. done.
Qed.

Lemma build_rec_settled :
  forall fuel f (index : nat) (scale : Q) (acc res : list Node),
    (index < length old)%nat -> (length old - index <= fuel)%nat ->
    (0 <= scale)%Q -> settled D f old index ->
    build_rec D fsqrt fuel lr sm old scale (Z.of_nat index) acc = Done res ->
    exists n, res !! length acc = Some n /\ (weight n <= 0)%Q.
Proof.
  induction fuel as [|fuel IH]; intros f index scale acc res Hlt Hfuel Hs Hset H; [lia|].
  destruct f as [|f]; [done|]. destruct Hset as (node & Hnode & Hset).
  destruct Hold as [_ Hok]. destruct (Hok index node Hnode) as [Hlen Hch].
  simpl in H. rewrite (node_at_nat _ _ _ Hnode) in H. simpl in H.
  destruct Hset as [(Hleaf & Hd & Hv & Hw)|(Hleaf & Hset)].
  - rewrite Hleaf in H. unfold build_leaf in H. rewrite Hw in H.
    change (Qlt_bool 0 (1 # 1000)) with true in H. rewrite andb_true_r in H.
    destruct lr.
    + injection H as <-.
      rewrite list_lookup_alter_eq, list_lookup_middle by done. simpl.
      eexists. split; [reflexivity|]. simpl. discriminate.
    + apply obind_Done in H as ([] & _ & H). injection H as <-.
      rewrite list_lookup_alter_eq, list_lookup_middle by done. simpl.
      eexists. split; [reflexivity|]. simpl. discriminate.
  - rewrite Hleaf in H. apply obind_Done in H as (a & Hfold & H). injection H as <-.
    set (rec := build_rec D fsqrt fuel lr sm old (scale * inject_Z (Z.of_nat (Arity D)))%Q)
      in *.
    assert (HsA : (0 <= scale * inject_Z (Z.of_nat (Arity D)))%Q).
    { apply Qmult_le_0_compat; [done|].
      change 0%Q with (inject_Z 0). rewrite <- Zle_Qle. lia. }
    assert (Hrec : forall (c : nat) acc', (c < Arity D)%nat ->
              exists res, rec (child node (Z.of_nat c)) acc' = Done res
                          /\ build_post D acc' res).
    { intros c acc' Hc. specialize (Hch Hleaf c Hc).
      destruct (build_rec_ok D fsqrt lr sm old Hold fuel
                  (Z.to_nat (child node (Z.of_nat c)))
                  (scale * inject_Z (Z.of_nat (Arity D)))%Q acc')
        as (res & Hres & Hpost); [lia|lia|done|].
      rewrite Z2Nat.id in Hres by lia. eauto. }
    assert (Hloop : forall k, (k <= Arity D)%nat ->
      forall ak,
        foldl (build_child rec node (length acc))
              (Done (mkBuildAcc (acc ++ [node]) 0 0%Q 0%Q 0%Q)) (seq 0 k) = Done ak ->
        build_inv D acc k ak /\ (acc_weight ak <= 0)%Q).
    { induction k as [|k IHk]; intros Hk ak Hak.
      - destruct (build_children_ok D rec node acc Hrec Hlen 0 ltac:(lia))
          as (a0 & Ha0 & Hinv0).
        rewrite Hak in Ha0. injection Ha0 as <-. split; [done|].
        simpl in Hak. injection Hak as <-. simpl. lra.
      - destruct (build_children_ok D rec node acc Hrec Hlen (Datatypes.S k) Hk)
          as (a1 & Ha1 & Hinv1).
        rewrite Hak in Ha1. injection Ha1 as <-. split; [done|].
        rewrite seq_S, foldl_app in Hak. simpl in Hak. unfold build_child in Hak at 1.
        apply obind_Done in Hak as (a0 & Ha0 & Hak).
        destruct (IHk ltac:(lia) a0 Ha0) as ((Hlt0 & _) & Hw0).
        apply obind_Done in Hak as (nn & Hnn & Hak).
        apply obind_Done in Hak as (newChild & Hchild & Hak).
        destruct (Hset k ltac:(lia)) as (ik & Hik & Hiik & Hsk).
        pose proof (Hch Hleaf k ltac:(lia)) as Hrange.
        rewrite Hik in Hnn.
        destruct (IH f ik _ (acc_nodes a0) nn ltac:(lia) ltac:(lia) HsA Hsk Hnn)
          as (n & Hn & Hwn).
        apply node_at_Done in Hchild as [_ Hchild]. rewrite Nat2Z.id in Hchild.
        rewrite list_lookup_alter_ne in Hchild by lia.
        assert (newChild = n) as -> by congruence.
        destruct (Qle_bool 0 (weight n)) eqn:E; injection Hak as <-; simpl; [|done].
        lra. }
    destruct (Hloop (Arity D) ltac:(lia) a Hfold) as (Hinv & Hw).
    by apply build_finish_weight.
Qed.

End BuildSettled.

(** X6.  A tree that is rebuilt right after [refine], before any deposit, is
    the uniform tree again: one leaf of density 1, value 0 and weight 0.
    The refined tree has at most [2^31] nodes, what its [int] child
    indices can address. *)
Theorem build_after_refine_uniform (D : nat) (fsqrt : Q -> Q) (fuel : nat)
        (t t1 : BTreeDistribution) :
  wf_pool D (m_nodes t) -> (0 < m_splitThreshold t)%Q ->
  refine D fuel t = Done t1 -> int_limit t1 ->
  exists u,
    build D fsqrt t1 = Done (with_nodes t1 [u])
    /\ isLeaf u = true /\ density u = 1%Q /\ value u = 0%Q /\ weight u = 0%Q
    /\ forall x, pdf D (with_nodes t1 [u]) x = Done 1%Q.
Proof.
  intros Hwf Hthr H Hlim. pose proof Hwf as [Hpos _].
  apply refine_Done in H as [H Heq]. change 0 with (Z.of_nat 0) in H.
  pose proof (refine_rec_post D _ _ _ _ _ _ Hwf Hpos H Hlim) as (Hwf1 & Hlen & _).
  assert (H01 : (0 < 1)%Q) by lra.
  destruct (refine_rec_settles D _ Hthr _ _ _ _ _ Hwf Hpos H01 H Hlim) as (_ & Hset).
  pose proof Hwf1 as [Hpos1 _].
  destruct (build_rec_ok D fsqrt (m_leafReweighting t1) (m_secondMoment t1) (m_nodes t1)
                         Hwf1 (length (m_nodes t1)) 0%nat 1%Q [])
    as (newNodes & Hrec & Hpost); [lia|lia|discriminate|].
  assert (Hfuel : (length (m_nodes t1) - 0 <= length (m_nodes t1))%nat) by lia.
  assert (H1 : (0 <= 1)%Q) by discriminate.
  destruct (build_rec_settled D fsqrt _ _ _ Hwf1 _ _ 0%nat 1%Q [] newNodes
              Hpos1 Hfuel H1 Hset Hrec) as (root & Hroot & Hw).
  change (Z.of_nat 0) with 0 in Hrec. simpl in Hroot.
  pose proof (node_at_nat newNodes 0%nat root Hroot) as Hat.
  change (Z.of_nat 0) with 0 in Hat.
  unfold build. rewrite Hrec. simpl. rewrite Hat. simpl.
  apply Qle_bool_iff in Hw. rewrite Hw. simpl.
  destruct (setUniform_spec D (m_nodes t1)) as (u & -> & Hleaf & Hd & Hv & Hwu & _).
  exists u. split; [done|]. repeat split; auto.
  intros x. rewrite (pdf_single_leaf D (with_nodes t1 [u]) u x eq_refl Hleaf).
  by rewrite Hd.
Qed.

Lemma build_after_refine_uniform_witness :
  exists t1,
    refine 1 2 (set_splitThreshold (new_tree 1) (6 # 10)) = Done t1
    /\ nodeCount t1 = 3%nat
    /\ exists u,
         build 1 id_target t1 = Done (with_nodes t1 [u])
         /\ isLeaf u = true /\ density u = 1%Q /\ value u = 0%Q /\ weight u = 0%Q
         /\ forall x, pdf 1 (with_nodes t1 [u]) x = Done 1%Q.
Proof.
  eexists. split; [vm_compute; reflexivity|]. split; [reflexivity|].
  apply (build_after_refine_uniform 1 id_target 2
           (set_splitThreshold (new_tree 1) (6 # 10))).
  - apply wf_poolb_sound. vm_compute. reflexivity.
  - reflexivity.
  - vm_compute. reflexivity.
  - vm_compute. discriminate.
Defined.

(** X7.  [build] of an ordered tree returns an ordered tree with the same
    settings whose root has density 1.  Either the root's weight is
    positive, or the result is the uniform tree: one leaf of weight 0. *)
Theorem build_returns_normalized (D : nat) (fsqrt : Q -> Q) (t : BTreeDistribution) :
  wf_pool D (m_nodes t) ->
  exists t' root,
    build D fsqrt t = Done t'
    /\ wf_pool D (m_nodes t')
    /\ m_nodes t' !! 0%nat = Some root
    /\ (density root == 1)%Q
    /\ ((0 < weight root)%Q
        \/ (nodeCount t' = 1%nat /\ isLeaf root = true /\ weight root = 0%Q))
    /\ (forall x, exists p, pdf D t' x = Done p)
    /\ m_splitThreshold t' = m_splitThreshold t
    /\ m_leafReweighting t' = m_leafReweighting t
    /\ m_doFiltering t' = m_doFiltering t
    /\ m_secondMoment t' = m_secondMoment t.
Proof.
  intros Hwf. pose proof Hwf as [Hpos Hok].
  assert (Hfuel : (length (m_nodes t) - 0 <= length (m_nodes t))%nat) by lia.
  assert (H1 : (0 <= 1)%Q) by discriminate.
  destruct (build_rec_ok D fsqrt (m_leafReweighting t) (m_secondMoment t) (m_nodes t)
                         Hwf (length (m_nodes t)) 0%nat 1%Q [] Hpos Hfuel H1)
    as (newNodes & Hrec & Hpost).
  change (Z.of_nat 0) with 0 in Hrec.
  pose proof (build_post_nil_wf D newNodes Hpost) as Hnew.
  pose proof Hnew as [Hnpos Hnok].
  destruct (lookup_lt_is_Some_2 newNodes 0%nat Hnpos) as [root Hroot].
  pose proof (node_at_nat newNodes 0%nat root Hroot) as Hat.
  change (Z.of_nat 0) with 0 in Hat.
  assert (Hpdf : forall t' : BTreeDistribution,
             wf_pool D (m_nodes t') -> forall x, exists p, pdf D t' x = Done p).
  { intros t' Hwf' x.
    destruct (indexAt_wf D (m_nodes t') x Hwf') as (i & d & leaf & Hidx & Hi & _).
    unfold pdf. rewrite Hidx. simpl. rewrite (node_at_nat _ _ _ Hi). simpl. eauto. }
  unfold build. rewrite Hrec. simpl. rewrite Hat. simpl.
  destruct (Qle_bool (weight root) 0 || Qeq_bool (density root) 0) eqn:Hcond.
  - destruct (setUniform_spec D (m_nodes t)) as (u & Hu & Hleaf & Hd & Hv & Hw & Hlen).
    assert (Hwfu : wf_pool D [u]).
    { apply wf_single_leaf; [|done]. rewrite Hlen.
      destruct (lookup_lt_is_Some_2 (m_nodes t) 0%nat Hpos) as [r Hr].
      rewrite Hr. simpl. by destruct (Hok 0%nat r Hr). }
    exists (with_nodes t (setUniform D (m_nodes t))), u.
    split; [done|]. simpl. rewrite Hu.
    split; [done|]. split; [done|]. split; [by rewrite Hd|].
    split; [right; done|]. split; [|done].
    apply (Hpdf (with_nodes t [u])). exact Hwfu.
  - apply orb_false_iff in Hcond as [Hw Hd].
    assert (Hwpos : (0 < weight root)%Q).
    { destruct (Qlt_le_dec 0 (weight root)) as [Hlt|Hle]; [done|].
      apply Qle_bool_iff in Hle. congruence. }
    assert (Hdne : ~ (density root == 0)%Q).
    { intros E. apply Qeq_bool_iff in E. congruence. }
    set (f := fun node : Node =>
                mkTreeNode (children node) (density node / density root)%Q
                           (if negb (m_leafReweighting t)
                            then (value node / weight root)%Q else value node)
                           (weight node)).
    assert (Hwf' : wf_pool D (map f newNodes)).
    { apply (wf_same_shape D newNodes); [done|].
      unfold same_shape. rewrite map_map. done. }
    exists (with_nodes t (map f newNodes)), (f root).
    split; [done|]. simpl. split; [done|]. split.
    { change (map f newNodes !! 0%nat) with ((f <$> newNodes) !! 0%nat).
      by rewrite list_lookup_fmap, Hroot. }
    split; [simpl; field; exact Hdne|]. split; [by left|]. split; [|done].
    apply (Hpdf (with_nodes t (map f newNodes))). exact Hwf'.
Qed.

Lemma build_returns_normalized_witness :
  exists t' root,
    build 1 id_target (line_tree 0 (line_leaf 1 1 1) (line_leaf 3 3 1)) = Done t'
    /\ wf_pool 1 (m_nodes t')
    /\ m_nodes t' !! 0%nat = Some root
    /\ (density root == 1)%Q
    /\ ((0 < weight root)%Q
        \/ (nodeCount t' = 1%nat /\ isLeaf root = true /\ weight root = 0%Q))
    /\ (forall x, exists p, pdf 1 t' x = Done p)
    /\ m_splitThreshold t'
       = m_splitThreshold (line_tree 0 (line_leaf 1 1 1) (line_leaf 3 3 1))
    /\ m_leafReweighting t'
       = m_leafReweighting (line_tree 0 (line_leaf 1 1 1) (line_leaf 3 3 1))
    /\ m_doFiltering t'
       = m_doFiltering (line_tree 0 (line_leaf 1 1 1) (line_leaf 3 3 1))
    /\ m_secondMoment t'
       = m_secondMoment (line_tree 0 (line_leaf 1 1 1) (line_leaf 3 3 1)).
Proof.
  apply (build_returns_normalized 1 id_target
           (line_tree 0 (line_leaf 1 1 1) (line_leaf 3 3 1))).
  apply wf_poolb_sound. vm_compute. reflexivity.
Defined.

Lemma build_reweighted_normalized_witness :
  exists t' root',
    build 1 id_target (line_tree 0 (line_leaf 1 1 1) (line_leaf 3 3 1)) = Done t'
    /\ m_nodes t' !! 0%nat = Some root'
    /\ (density root' == 1)%Q
    /\ (tree_mass 1 t' == 1)%Q.
Proof.
  eapply (build_reweighted_normalized 1 id_target
            (line_tree 0 (line_leaf 1 1 1) (line_leaf 3 3 1))).
  - apply wf_poolb_sound. vm_compute. reflexivity.
  - reflexivity.
  - vm_compute. reflexivity.
  - vm_compute. reflexivity.
  - vm_compute. reflexivity.
  - vm_compute. discriminate.
Defined.

(** ** The overlap of two boxes *)

Lemma Qmax_0_nonneg (q : Q) : (0 <= Qmax q 0)%Q.
Proof. apply Q.le_max_r. Qed.

Lemma Qmax_0_pos (q : Q) : (0 < Qmax q 0 <-> 0 < q)%Q.
Proof.
  destruct (Q.max_spec q 0) as [[H1 H2]|[H1 H2]]; rewrite H2; split; intros H; lra.
Qed.

Lemma product_pos (f : nat -> Q) (k : nat) :
  (forall i, 0 <= f i)%Q ->
  (0 <= foldl (fun acc i => acc * f i)%Q 1%Q (seq 0 k))%Q
  /\ ((0 < foldl (fun acc i => acc * f i)%Q 1%Q (seq 0 k))%Q
      <-> forall i, (i < k)%nat -> (0 < f i)%Q).
Proof.
  intros Hf. induction k as [|k [IH1 IH2]].
  - simpl. split; [lra|]. split; [intros _ i Hi; lia|intros _; lra].
  - rewrite seq_S, foldl_app. simpl.
    set (p := foldl (fun acc i => acc * f i)%Q 1%Q (seq 0 k)) in *.
    pose proof (Hf k) as Hk. split; [nra|]. split.
    + intros Hpos i Hi.
      assert (Hp : (0 < p)%Q) by nra.
      destruct (decide (i = k)) as [->|Hne]; [nra|].
      apply IH2; [done|lia].
    + intros Hall.
      assert (Hp : (0 < p)%Q) by (apply IH2; intros i Hi; apply Hall; lia).
      assert (Hfk : (0 < f k)%Q) by (apply Hall; lia).
      nra.
Qed.

Lemma product_ext (f g : nat -> Q) (k : nat) :
  (forall i, (i < k)%nat -> f i == g i)%Q ->
  (foldl (fun acc i => acc * f i)%Q 1%Q (seq 0 k)
   == foldl (fun acc i => acc * g i)%Q 1%Q (seq 0 k))%Q.
Proof.
  intros H. induction k as [|k IH]; [reflexivity|].
  rewrite !seq_S, !foldl_app. simpl. rewrite IH, (H k) by (intros; auto; lia).
  reflexivity.
Qed.

Lemma computeOverlap_product (D : nat) (min1 max1 min2 max2 : Vector) :
  computeOverlap D min1 max1 min2 max2
  = foldl (fun acc i => acc * Qmax (overlap_edge min1 max1 min2 max2 i) 0)%Q
          1%Q (seq 0 D).
Proof. reflexivity. Qed.

Lemma computeOverlap_nonneg (D : nat) (min1 max1 min2 max2 : Vector) :
  (0 <= computeOverlap D min1 max1 min2 max2)%Q.
Proof.
  rewrite computeOverlap_product.
  apply (product_pos (fun i => Qmax (overlap_edge min1 max1 min2 max2 i) 0) D).
  intros i. apply Qmax_0_nonneg.
Qed.

Lemma computeOverlap_pos_iff (D : nat) (min1 max1 min2 max2 : Vector) :
  (0 < computeOverlap D min1 max1 min2 max2)%Q
  <-> forall i, (i < D)%nat ->
        (vget min1 i < vget max1 i /\ vget min1 i < vget max2 i
         /\ vget min2 i < vget max1 i /\ vget min2 i < vget max2 i)%Q.
Proof.
  rewrite computeOverlap_product.
  destruct (product_pos (fun i => Qmax (overlap_edge min1 max1 min2 max2 i) 0) D)
    as [_ Hpos]; [intros i; apply Qmax_0_nonneg|].
  rewrite Hpos. split; intros H i Hi; specialize (H i Hi).
  - apply (proj1 (Qmax_0_pos _)) in H. unfold overlap_edge in H.
    destruct (Q.max_spec (vget min1 i) (vget min2 i)) as [[? E1]|[? E1]];
      destruct (Q.min_spec (vget max1 i) (vget max2 i)) as [[? E2]|[? E2]];
      rewrite E1, E2 in H; repeat split; lra.
  - apply Qmax_0_pos. unfold overlap_edge.
    destruct (Q.max_spec (vget min1 i) (vget min2 i)) as [[? E1]|[? E1]];
      destruct (Q.min_spec (vget max1 i) (vget max2 i)) as [[? E2]|[? E2]];
      rewrite E1, E2; lra.
Qed.

(** X8.  [computeOverlap] is never negative, it is positive exactly when
    the two boxes overlap along every one of the [D] dimensions, it does
    not depend on the order of the two boxes, and the overlap of a box with
    itself is zero as soon as one of its edges is not positive. *)
Theorem computeOverlap_sign (D : nat) (min1 max1 min2 max2 : Vector) :
  (0 <= computeOverlap D min1 max1 min2 max2)%Q
  /\ ((0 < computeOverlap D min1 max1 min2 max2)%Q
      <-> forall i, (i < D)%nat ->
            (vget min1 i < vget max1 i /\ vget min1 i < vget max2 i
             /\ vget min2 i < vget max1 i /\ vget min2 i < vget max2 i)%Q)
  /\ (computeOverlap D min1 max1 min2 max2 == computeOverlap D min2 max2 min1 max1)%Q
  /\ ((exists i, (i < D)%nat /\ (vget max1 i <= vget min1 i)%Q) ->
      (computeOverlap D min1 max1 min1 max1 == 0)%Q).
Proof.
  split; [apply computeOverlap_nonneg|]. split; [apply computeOverlap_pos_iff|].
  split.
  - rewrite !computeOverlap_product. apply product_ext. intros i _.
    unfold overlap_edge.
    by rewrite (Q.max_comm (vget min1 i)), (Q.min_comm (vget max1 i)).
  - intros (i & Hi & Hle).
    pose proof (computeOverlap_nonneg D min1 max1 min1 max1) as Hnn.
    destruct (Qlt_le_dec 0 (computeOverlap D min1 max1 min1 max1)) as [Hpos|Hz];
      [|lra].
    pose proof (proj1 (computeOverlap_pos_iff D min1 max1 min1 max1) Hpos i Hi)
      as [H1 _]. lra.
Qed.

(** ** Filtered deposits *)

Lemma deposit_post_refl (P : list Node) : deposit_post P P.
Proof.
  split; [done|]. intros i n Hn. exists n. repeat split; auto. lra.
Qed.

Lemma deposit_post_trans (P1 P2 P3 : list Node) :
  deposit_post P1 P2 -> deposit_post P2 P3 -> deposit_post P1 P3.
Proof.
  intros [Hl1 H1] [Hl2 H2]. split; [congruence|]. intros i n Hn.
  destruct (H1 i n Hn) as (n2 & Hn2 & Hc2 & Hw2 & Hi2).
  destruct (H2 i n2 Hn2) as (n3 & Hn3 & Hc3 & Hw3 & Hi3).
  exists n3. split; [done|]. split; [congruence|]. split; [lra|].
  intros Hleaf. specialize (Hi2 Hleaf). subst n2. by apply Hi3.
Qed.

Lemma deposit_post_same_shape (P P' : list Node) :
  deposit_post P P' -> same_shape P P'.
Proof.
  intros [Hlen H]. unfold same_shape. apply list_eq. intros i.
  change (map children P') with (children <$> P').
  change (map children P) with (children <$> P).
  rewrite !list_lookup_fmap.
  destruct (P !! i) as [n|] eqn:E.
  - destruct (H i n E) as (n' & -> & Hc & _). simpl. by rewrite Hc.
  - apply lookup_ge_None in E. rewrite (lookup_ge_None_2 P' i) by lia. done.
Qed.

Section SplatReturns.

Variable D : nat.
Variable target : Q -> Q.

Lemma splatFiltered_Done (sm : bool) (originMin originMax : Vector) (v w : Q) :
  (0 <= v)%Q -> (0 <= w)%Q ->
  forall fuel (P : list Node) (index : nat) (nodeMin : Vector) (nodeSize : Q),
    wf_pool D P -> (index < length P)%nat -> (length P - index <= fuel)%nat ->
    exists P',
      splatFiltered D target fuel sm originMin originMax v w
                    (Z.of_nat index) nodeMin nodeSize P = Done P'
      /\ deposit_post P P'.
Proof.
  intros Hv Hw.
  induction fuel as [|fuel IH]; intros P index nodeMin nodeSize Hwf Hlt Hfuel; [lia|].
  simpl.
  destruct (Qlt_bool 0 _); [|exists P; split; [done|apply deposit_post_refl]].
  destruct (lookup_lt_is_Some_2 P index Hlt) as [node Hnode].
  rewrite (node_at_nat _ _ _ Hnode). simpl.
  destruct (isLeaf node) eqn:Hleaf.
  - set (ov := computeOverlap D originMin originMax nodeMin (nodeMax D nodeMin nodeSize)).
    assert (Hov : (0 <= ov)%Q) by apply computeOverlap_nonneg.
    rewrite (node_splat_Done target node v (w * ov)%Q sm) by (try nra; done).
    simpl. rewrite Nat2Z.id. eexists. split; [reflexivity|].
    split; [by rewrite length_insert|].
    intros i n Hn. destruct (decide (i = index)) as [->|Hne].
    + rewrite list_lookup_insert_eq by done.
      assert (n = node) as -> by congruence.
      eexists. split; [reflexivity|]. simpl. split; [done|]. split; [nra|].
      congruence.
    + rewrite list_lookup_insert_ne by done. exists n. repeat split; auto. lra.
  - unfold splat_children.
    assert (Hloop : forall k, (k <= Arity D)%nat ->
      exists P',
          foldl (fun acc c =>
                   let* nodes' := acc in
                   splatFiltered D target fuel sm originMin originMax v w
                     (child node (Z.of_nat c)) (childMin D nodeMin (nodeSize / 2)%Q c)
                     (nodeSize / 2)%Q nodes')
                (Done P) (seq 0 k) = Done P'
          /\ deposit_post P P').
    { induction k as [|k IHk]; intros Hk.
      - exists P. split; [done|apply deposit_post_refl].
      - rewrite seq_S, foldl_app. simpl.
        destruct IHk as (P1 & HP1 & Hs1); [lia|].
        rewrite HP1. simpl.
        destruct Hwf as [Hpos Hok]. destruct (Hok index node Hnode) as [_ Hch].
        specialize (Hch Hleaf k ltac:(lia)).
        pose proof Hs1 as [Hlen1 _].
        destruct (IH P1 (Z.to_nat (child node (Z.of_nat k)))
                     (childMin D nodeMin (nodeSize / 2)%Q k) (nodeSize / 2)%Q)
          as (P2 & HP2 & Hs2).
        + eapply wf_same_shape; [|apply deposit_post_same_shape; exact Hs1]. by split.
        + lia.
        + lia.
        + rewrite Z2Nat.id in HP2 by lia. exists P2. split; [done|].
          by eapply deposit_post_trans. }
    apply Hloop. lia.
Qed.

(** X9.  A filtered deposit of a non-negative value with a non-negative
    weight into an ordered tree of depth at most 31 returns; no node is
    added, no [children] array and no internal node changes, no weight
    decreases, and the settings stay. *)
Theorem splat_filtered_returns (t : BTreeDistribution) (x : Vector) (v w : Q) (dd : Z) :
  wf_pool D (m_nodes t) -> m_doFiltering t = true ->
  depth D t = Done dd -> dd <= 31 ->
  (0 <= v)%Q -> (0 <= w)%Q ->
  exists t',
    splat D target t x v w = Done t'
    /\ nodeCount t' = nodeCount t
    /\ (forall i n, m_nodes t !! i = Some n ->
          exists n', m_nodes t' !! i = Some n' /\ children n' = children n
                     /\ (weight n <= weight n')%Q
                     /\ (isLeaf n = false -> n' = n))
    /\ m_splitThreshold t' = m_splitThreshold t
    /\ m_leafReweighting t' = m_leafReweighting t
    /\ m_doFiltering t' = m_doFiltering t
    /\ m_secondMoment t' = m_secondMoment t.
Proof.
  intros Hwf Hfilter Hdepth Hdd Hv Hw.
  destruct (indexAt_wf D (m_nodes t) x Hwf) as (i & d & leaf & Hidx & _).
  pose proof (indexAt_depth_lt D t x _ d dd Hwf Hidx Hdepth) as Hd.
  unfold splat. rewrite Hfilter, Hidx. simpl.
  destruct (Z.leb_spec 31 d) as [Hge|_]; [lia|].
  set (size := (1 / inject_Z (Z.shiftl 1 d))%Q).
  assert (Hw' : (0 <= w / (size * size))%Q).
  { unfold Qdiv. apply Qmult_le_0_compat; [done|]. apply Qinv_le_0_compat. nra. }
  pose proof Hwf as [Hpos _].
  destruct (splatFiltered_Done (m_secondMoment t)
              (map (fun dim => vget x dim - size / 2)%Q (seq 0 D))
              (map (fun dim => vget x dim + size / 2)%Q (seq 0 D))
              v (w / (size * size))%Q Hv Hw'
              (length (m_nodes t)) (m_nodes t) 0%nat (replicate D 0%Q) 1%Q
              Hwf Hpos ltac:(lia))
    as (P' & HP' & Hlen & Hpost).
  change (Z.of_nat 0) with 0 in HP'. rewrite HP'. simpl.
  eexists. split; [reflexivity|]. simpl. unfold nodeCount. simpl. done.
Qed.

End SplatReturns.

Lemma splat_filtered_returns_witness :
  exists t',
    splat 1 id_target (line_tree 1 (line_leaf (1 # 2) 1 1) (line_leaf (3 # 2) 3 1))
          [(1 # 4)%Q] 1%Q 1%Q = Done t'
    /\ nodeCount t'
       = nodeCount (line_tree 1 (line_leaf (1 # 2) 1 1) (line_leaf (3 # 2) 3 1))
    /\ (forall i n,
          m_nodes (line_tree 1 (line_leaf (1 # 2) 1 1) (line_leaf (3 # 2) 3 1)) !! i
          = Some n ->
          exists n', m_nodes t' !! i = Some n' /\ children n' = children n
                     /\ (weight n <= weight n')%Q
                     /\ (isLeaf n = false -> n' = n))
    /\ m_splitThreshold t'
       = m_splitThreshold (line_tree 1 (line_leaf (1 # 2) 1 1) (line_leaf (3 # 2) 3 1))
    /\ m_leafReweighting t'
       = m_leafReweighting (line_tree 1 (line_leaf (1 # 2) 1 1) (line_leaf (3 # 2) 3 1))
    /\ m_doFiltering t'
       = m_doFiltering (line_tree 1 (line_leaf (1 # 2) 1 1) (line_leaf (3 # 2) 3 1))
    /\ m_secondMoment t'
       = m_secondMoment (line_tree 1 (line_leaf (1 # 2) 1 1) (line_leaf (3 # 2) 3 1)).
Proof.
  apply (splat_filtered_returns 1 id_target
           (line_tree 1 (line_leaf (1 # 2) 1 1) (line_leaf (3 # 2) 3 1))
           [(1 # 4)%Q] 1%Q 1%Q 2).
  - apply wf_poolb_sound. vm_compute. reflexivity.
  - reflexivity.
  - vm_compute. reflexivity.
  - lia.
  - discriminate.
  - discriminate.
Defined.

(** ** The cells of the tree *)

Lemma land_bit (c k : Z) :
  0 <= k -> (Z.land c (Z.shiftl 1 k) =? 0) = negb (Z.testbit c k).
Proof.
  intros Hk. rewrite Z.shiftl_1_l.
  destruct (Z.testbit c k) eqn:E; simpl.
  - apply Z.eqb_neq. intros H. apply (f_equal (fun z => Z.testbit z k)) in H.
    rewrite Z.land_spec, E, Z.pow2_bits_true, Z.bits_0 in H by done. done.
  - apply Z.eqb_eq. apply Z.bits_inj'. intros m Hm.
    rewrite Z.land_spec, Z.bits_0, Z.pow2_bits_eqb by done.
    destruct (Z.eqb_spec k m) as [<-|]; [by rewrite E|apply andb_false_r].
Qed.

Lemma indexAt_dims_spec (x : Vector) (n : nat) :
  (n <= length x)%nat ->
  length (foldl indexAt_dim (0, x) (seq 0 n)).2 = length x
  /\ (forall k, (k < n)%nat ->
        Z.testbit (foldl indexAt_dim (0, x) (seq 0 n)).1 (Z.of_nat k)
        = Qle_bool (1 # 2) (vget x k)
        /\ vget (foldl indexAt_dim (0, x) (seq 0 n)).2 k
           = if Qle_bool (1 # 2) (vget x k)
             then ((vget x k - (1 # 2)) * 2)%Q else (vget x k * 2)%Q)
  /\ (forall k, (n <= k)%nat ->
        vget (foldl indexAt_dim (0, x) (seq 0 n)).2 k = vget x k).
Proof.
  induction n as [|n IH]; intros Hn.
  - simpl. split; [done|]. split; [intros k Hk; lia|done].
  - destruct IH as (Hlen & Hlow & Hhigh); [lia|].
    pose proof (indexAt_dims_range 0 x n) as Hrange.
    rewrite seq_S, foldl_app. simpl.
    destruct (foldl indexAt_dim (0, x) (seq 0 n)) as [ci x1] eqn:E. simpl in *.
    assert (Hxn : vget x1 n = vget x n) by (apply Hhigh; lia).
    rewrite Hxn.
    set (slab := Qle_bool (1 # 2) (vget x n)).
    set (x1' := if slab then vset x1 n (vget x n - (1 # 2))%Q else x1).
    assert (Hlen' : length x1' = length x).
    { unfold x1'. destruct slab; [unfold vset; by rewrite length_insert|done]. }
    assert (Hget' : forall k, vget x1' k
                      = if decide (k = n) then
                          (if slab then (vget x n - (1 # 2))%Q else vget x n)
                        else vget x1 k).
    { intros k. unfold x1'. destruct slab.
      - rewrite vget_vset. destruct (decide (k = n)) as [->|Hne].
        + destruct (decide _) as [_|Hc]; [done|]. exfalso. apply Hc. split; [done|lia].
        + destruct (decide _) as [[Hc _]|_]; [congruence|done].
      - destruct (decide (k = n)) as [->|Hne]; done. }
    split; [unfold vset; by rewrite length_insert|]. split.
    + intros k Hk. rewrite Z.lor_spec, vget_vset.
      destruct (decide (k = n)) as [->|Hne].
      * destruct (decide _) as [_|Hc]; [|exfalso; apply Hc; split; [done|lia]].
        rewrite (Hget' n). destruct (decide (n = n)) as [_|]; [|done].
        split; [|fold slab; by destruct slab].
        rewrite Z.shiftl_spec, Z.sub_diag, Z.b2z_bit0 by lia.
        rewrite (proj2 (Z.testbit_false ci (Z.of_nat n) ltac:(lia))); [done|].
        rewrite Z.div_small by lia. done.
      * destruct (decide _) as [[Hc _]|_]; [congruence|].
        rewrite Z.shiftl_spec_low, orb_false_r by lia.
        rewrite (Hget' k). destruct (decide (k = n)); [done|].
        apply Hlow. lia.
    + intros k Hk. rewrite vget_vset.
      destruct (decide _) as [[Hc _]|_]; [lia|].
      rewrite (Hget' k). destruct (decide (k = n)); [lia|]. apply Hhigh. lia.
Qed.

Lemma childMin_spec (D : nat) (nodeMin : Vector) (s : Q) (c : nat) (n : nat) :
  (n <= length nodeMin)%nat ->
  let m := foldl (fun m dim =>
                    if Z.land (Z.of_nat c) (Z.shiftl 1 (Z.of_nat dim)) =? 0 then m
                    else vset m dim (vget m dim + s)%Q)
                 nodeMin (seq 0 n) in
  length m = length nodeMin
  /\ (forall k, (k < n)%nat ->
        vget m k = if Z.testbit (Z.of_nat c) (Z.of_nat k)
                   then (vget nodeMin k + s)%Q else vget nodeMin k)
  /\ (forall k, (n <= k)%nat -> vget m k = vget nodeMin k).
Proof.
  induction n as [|n IH]; intros Hn.
  - simpl. split; [done|]. split; [intros k Hk; lia|done].
  - destruct IH as (Hlen & Hlow & Hhigh); [lia|].
    intros m. unfold m. rewrite seq_S, foldl_app. simpl.
    set (m0 := foldl _ nodeMin (seq 0 n)) in *.
    rewrite land_bit by lia.
    destruct (Z.testbit (Z.of_nat c) (Z.of_nat n)) eqn:E; simpl.
    + split; [unfold vset; by rewrite length_insert|]. split.
      * intros k Hk. rewrite vget_vset.
        destruct (decide (k = n)) as [->|Hne].
        -- destruct (decide _) as [_|Hc]; [|exfalso; apply Hc; split; [done|lia]].
           rewrite E. by rewrite Hhigh by lia.
        -- destruct (decide _) as [[Hc _]|_]; [congruence|]. apply Hlow. lia.
      * intros k Hk. rewrite vget_vset.
        destruct (decide _) as [[Hc _]|_]; [lia|]. apply Hhigh. lia.
    + split; [done|]. split.
      * intros k Hk. destruct (decide (k = n)) as [->|Hne].
        -- rewrite E. apply Hhigh. lia.
        -- apply Hlow. lia.
      * intros k Hk. apply Hhigh. lia.
Qed.

Lemma nodeMax_spec (D : nat) (nodeMin : Vector) (s : Q) (n : nat) :
  (n <= length nodeMin)%nat ->
  let m := foldl (fun m dim => vset m dim (vget m dim + s)%Q) nodeMin (seq 0 n) in
  length m = length nodeMin
  /\ (forall k, (k < n)%nat -> vget m k = (vget nodeMin k + s)%Q)
  /\ (forall k, (n <= k)%nat -> vget m k = vget nodeMin k).
Proof.
  induction n as [|n IH]; intros Hn.
  - simpl. split; [done|]. split; [intros k Hk; lia|done].
  - destruct IH as (Hlen & Hlow & Hhigh); [lia|].
    intros m. unfold m. rewrite seq_S, foldl_app. simpl.
    set (m0 := foldl _ nodeMin (seq 0 n)) in *.
    split; [unfold vset; by rewrite length_insert|]. split.
    + intros k Hk. rewrite vget_vset.
      destruct (decide (k = n)) as [->|Hne].
      * destruct (decide _) as [_|Hc]; [|exfalso; apply Hc; split; [done|lia]].
        by rewrite Hhigh by lia.
      * destruct (decide _) as [[Hc _]|_]; [congruence|]. apply Hlow. lia.
    + intros k Hk. rewrite vget_vset.
      destruct (decide _) as [[Hc _]|_]; [lia|]. apply Hhigh. lia.
Qed.

Lemma vget_map_seq (f : nat -> Q) (D k : nat) :
  (k < D)%nat -> vget (map f (seq 0 D)) k = f k.
Proof.
  intros Hk. unfold vget. rewrite nth_lookup.
  change (map f (seq 0 D)) with (f <$> seq 0 D).
  rewrite list_lookup_fmap, lookup_seq_lt by done. done.
Qed.

(** [indexAt] looks at the [children] arrays only. *)
Lemma indexAt_loop_same_shape (D : nat) (P P' : list Node) :
  same_shape P P' ->
  forall fuel (x : Vector) (i d : Z),
    indexAt_loop D fuel P' x i d = indexAt_loop D fuel P x i d.
Proof.
  intros Hs. pose proof (same_shape_length _ _ Hs) as Hlen.
  induction fuel as [|fuel IH]; intros x i d; [done|].
  simpl. unfold node_at. destruct (i <? 0); [done|].
  destruct (P' !! Z.to_nat i) as [n'|] eqn:E'.
  - destruct (same_shape_lookup _ _ _ _ Hs E') as (n & -> & Hc). simpl.
    unfold isLeaf, child. rewrite Hc.
    destruct (nth (Z.to_nat 0) (children n) 0 =? 0); [done|].
    destruct (foldl indexAt_dim (0, x) (seq 0 D)) as [ci x']. by rewrite IH.
  - apply lookup_ge_None in E'. rewrite (lookup_ge_None_2 P) by lia. done.
Qed.

Section Cells.

Variable D : nat.
Variable target : Q -> Q.
Variable sm : bool.

(** The deposit point, the half edge of its box, the box, the value and
    the weight. *)
Variables (y : Vector) (h : Q) (originMin originMax : Vector) (v w : Q).
Hypothesis Hh : (0 < h)%Q.
Hypothesis HoriginMin : forall k, (k < D)%nat -> (vget originMin k == vget y k - h)%Q.
Hypothesis HoriginMax : forall k, (k < D)%nat -> (vget originMax k == vget y k + h)%Q.
Hypothesis Hv : (0 <= v)%Q.
Hypothesis Hw : (0 < w)%Q.

Lemma in_cell_overlap (x nodeMin : Vector) (nodeSize : Q) :
  in_cell D y x nodeMin nodeSize ->
  (0 < computeOverlap D originMin originMax nodeMin (nodeMax D nodeMin nodeSize))%Q.
Proof.
  intros (Hlx & Hlm & Hs & Hcell).
  apply computeOverlap_pos_iff. intros k Hk.
  destruct (Hcell k Hk) as [[H0 H1] Hy].
  pose proof (HoriginMin k Hk) as Hmin. pose proof (HoriginMax k Hk) as Hmax.
  destruct (nodeMax_spec D nodeMin nodeSize D ltac:(lia)) as (_ & Hnm & _).
  unfold nodeMax. rewrite (Hnm k Hk).
  assert (0 <= vget x k * nodeSize < nodeSize)%Q by nra.
  repeat split; lra.
Qed.

Lemma in_cell_child (x nodeMin : Vector) (nodeSize : Q) :
  in_cell D y x nodeMin nodeSize ->
  in_cell D y (foldl indexAt_dim (0, x) (seq 0 D)).2
          (childMin D nodeMin (nodeSize / 2)%Q
                    (Z.to_nat (foldl indexAt_dim (0, x) (seq 0 D)).1))
          (nodeSize / 2)%Q.
Proof.
  intros (Hlx & Hlm & Hs & Hcell).
  destruct (indexAt_dims_spec x D ltac:(lia)) as (Hlen & Hlow & _).
  pose proof (indexAt_dims_range 0 x D) as Hrange.
  set (ci := (foldl indexAt_dim (0, x) (seq 0 D)).1) in *.
  set (x' := (foldl indexAt_dim (0, x) (seq 0 D)).2) in *.
  destruct (childMin_spec D nodeMin (nodeSize / 2)%Q (Z.to_nat ci) D ltac:(lia))
    as (Hclen & Hclow & _).
  split; [lia|]. split; [unfold childMin; lia|].
  split; [change (nodeSize / 2)%Q with (nodeSize * (1 # 2))%Q; lra|].
  intros k Hk. destruct (Hlow k Hk) as [Hbit Hx']. destruct (Hcell k Hk) as [[H0 H1] Hy].
  unfold childMin. rewrite (Hclow k Hk), Z2Nat.id by lia. rewrite Hbit, Hx'.
  change (nodeSize / 2)%Q with (nodeSize * (1 # 2))%Q.
  destruct (Qle_bool (1 # 2) (vget x k)) eqn:E.
  - apply Qle_bool_iff in E. split; [lra|]. rewrite Hy. ring.
  - assert (vget x k < 1 # 2)%Q.
    { destruct (Qlt_le_dec (vget x k) (1 # 2)) as [Hlt|Hge]; [done|].
      apply Qle_bool_iff in Hge. congruence. }
    split; [lra|]. rewrite Hy. ring.
Qed.

Lemma splatFiltered_hits :
  forall fuel fuel2 (P : list Node) (i : nat) (x : Vector) (d l d' : Z)
         (nodeMin : Vector) (nodeSize : Q),
    wf_pool D P -> (i < length P)%nat -> (length P - i <= fuel)%nat ->
    in_cell D y x nodeMin nodeSize ->
    indexAt_loop D fuel2 P x (Z.of_nat i) d = Done (l, d') ->
    exists P' nl nl',
      splatFiltered D target fuel sm originMin originMax v w
                    (Z.of_nat i) nodeMin nodeSize P = Done P'
      /\ deposit_post P P'
      /\ node_at P l = Done nl /\ node_at P' l = Done nl'
      /\ (weight nl < weight nl')%Q.
Proof.
  assert (Hw0 : (0 <= w)%Q) by lra.
  induction fuel as [|fuel IH];
    intros fuel2 P i x d l d' nodeMin nodeSize Hwf Hi Hfuel Hcell H; [lia|].
  destruct fuel2 as [|fuel2]; [done|].
  pose proof (in_cell_overlap x nodeMin nodeSize Hcell) as Hov.
  simpl. simpl in H.
  set (ov := computeOverlap D originMin originMax nodeMin (nodeMax D nodeMin nodeSize)) in *.
  assert (Hlt : Qlt_bool 0 ov = true).
  { unfold Qlt_bool. apply negb_true_iff.
    destruct (Qle_bool ov 0) eqn:E; [|done]. apply Qle_bool_iff in E. lra. }
  rewrite Hlt.
  destruct (lookup_lt_is_Some_2 P i Hi) as [node Hnode].
  rewrite (node_at_nat _ _ _ Hnode) in H |- *. simpl in H |- *.
  destruct (isLeaf node) eqn:Hleaf.
  - injection H as <- <-.
    rewrite (node_splat_Done target node v (w * ov)%Q sm) by (try nra; done).
    simpl. rewrite Nat2Z.id. eexists _, node, _. split; [reflexivity|].
    split; [|split; [by apply node_at_nat|split]].
    + split; [by rewrite length_insert|].
      intros j n Hn. destruct (decide (j = i)) as [->|Hne].
      * rewrite list_lookup_insert_eq by done.
        assert (n = node) as -> by congruence.
        eexists. split; [reflexivity|]. simpl. split; [done|]. split; [nra|].
        congruence.
      * rewrite list_lookup_insert_ne by done. exists n. repeat split; auto. lra.
    + apply node_at_nat. by rewrite list_lookup_insert_eq.
    + simpl. nra.
  - pose proof (indexAt_dims_range D x D) as Hci.
    pose proof (in_cell_child x nodeMin nodeSize Hcell) as Hcell'.
    destruct (foldl indexAt_dim (0, x) (seq 0 D)) as [ci x'] eqn:E.
    simpl in Hci, Hcell'.
    apply obind_Done in H as ([] & _ & H).
    assert (Hc : (Z.to_nat ci < Arity D)%nat) by (pose proof (Arity_Z D); lia).
    unfold splat_children.
    assert (Hloop : forall k, (k <= Arity D)%nat ->
      exists Pk,
        foldl (fun acc c =>
                 let* nodes' := acc in
                 splatFiltered D target fuel sm originMin originMax v w
                   (child node (Z.of_nat c)) (childMin D nodeMin (nodeSize / 2)%Q c)
                   (nodeSize / 2)%Q nodes')
              (Done P) (seq 0 k) = Done Pk
        /\ deposit_post P Pk
        /\ ((Z.to_nat ci < k)%nat ->
            exists nl nl', node_at P l = Done nl /\ node_at Pk l = Done nl'
                           /\ (weight nl < weight nl')%Q)).
    { induction k as [|k IHk]; intros Hk.
      - exists P. split; [done|]. split; [apply deposit_post_refl|]. lia.
      - rewrite seq_S, foldl_app. simpl.
        destruct IHk as (Pk & HPk & Hpost & Hhit); [lia|].
        rewrite HPk. simpl.
        destruct (wf_internal_child D P i k node Hwf Hnode Hleaf ltac:(lia))
          as (ik & Hik & Hrange).
        rewrite Hik.
        pose proof (deposit_post_same_shape _ _ Hpost) as Hshape.
        pose proof (wf_same_shape D _ _ Hwf Hshape) as Hwfk.
        pose proof Hpost as [Hlenk Hpk].
        assert (Hikk : (ik < length Pk)%nat) by lia.
        assert (Hfk : (length Pk - ik <= fuel)%nat) by lia.
        destruct (decide (k = Z.to_nat ci)) as [->|Hne].
        + rewrite Z2Nat.id in Hik by lia. rewrite Hik in H.
          rewrite <- (indexAt_loop_same_shape D P Pk Hshape) in H.
          destruct (IH fuel2 Pk ik x' (d + 1) l d' _ _ Hwfk Hikk Hfk Hcell' H)
            as (Pk' & nlk & nl' & HPk' & Hpost' & Hnlk & Hnl' & Hlt').
          exists Pk'. split; [done|]. split; [by eapply deposit_post_trans|].
          intros _. apply node_at_Done in Hnlk as [Hl0 Hnlk].
          pose proof (lookup_lt_Some _ _ _ Hnlk) as Hll.
          destruct (lookup_lt_is_Some_2 P (Z.to_nat l)) as [nl Hnl]; [lia|].
          destruct (Hpk _ _ Hnl) as (nlk' & Hnlk' & _ & Hwk & _).
          assert (nlk' = nlk) as -> by congruence.
          exists nl, nl'. split; [by apply node_at_Done|]. split; [done|]. lra.
        + destruct (splatFiltered_Done D target sm originMin originMax v w Hv Hw0
                      fuel Pk ik (childMin D nodeMin (nodeSize / 2)%Q k)
                      (nodeSize / 2)%Q Hwfk Hikk Hfk)
            as (Pk' & HPk' & Hpost').
          exists Pk'. split; [done|]. split; [by eapply deposit_post_trans|].
          intros Hlt2. destruct Hhit as (nl & nlk & Hnl & Hnlk & Hlt'); [lia|].
          apply node_at_Done in Hnlk as [Hl0 Hnlk].
          destruct Hpost' as [_ Hpk'].
          destruct (Hpk' _ _ Hnlk) as (nl' & Hnl' & _ & Hwk & _).
          exists nl, nl'. split; [done|]. split; [by apply node_at_Done|]. lra. }
    destruct (Hloop (Arity D) ltac:(lia)) as (P' & HP' & Hpost & Hhit).
    destruct Hhit as (nl & nl' & Hnl & Hnl' & Hlt'); [lia|].
    by exists P', nl, nl'.
Qed.

End Cells.

(** X10.  On an ordered tree of depth at most 31, a filtered deposit of a
    non-negative value with a positive weight at a point of the unit cube
    reaches the leaf the point is located in: the deposit returns, and that
    leaf's weight grows. *)
Theorem splat_filtered_hits_leaf (D : nat) (target : Q -> Q)
        (t : BTreeDistribution) (x : Vector) (v w : Q) (dd : Z) :
  wf_pool D (m_nodes t) -> m_doFiltering t = true ->
  depth D t = Done dd -> dd <= 31 ->
  length x = D -> (forall k, (k < D)%nat -> (0 <= vget x k < 1)%Q) ->
  (0 <= v)%Q -> (0 < w)%Q ->
  exists i d leaf t' leaf',
    indexAt D (m_nodes t) x = Done (i, d)
    /\ node_at (m_nodes t) i = Done leaf /\ isLeaf leaf = true
    /\ splat D target t x v w = Done t'
    /\ node_at (m_nodes t') i = Done leaf'
    /\ (weight leaf < weight leaf')%Q.
Proof.
  intros Hwf Hfilter Hdepth Hdd Hlen Hx Hv Hw.
  destruct (indexAt_wf D (m_nodes t) x Hwf)
    as (i0 & d0 & leaf & Hidx & Hi0 & Hleaf & Hd0).
  pose proof (indexAt_depth_lt D t x _ d0 dd Hwf Hidx Hdepth) as Hd.
  unfold splat. rewrite Hfilter, Hidx. simpl.
  destruct (Z.leb_spec 31 d0) as [Hge|_]; [lia|].
  set (size := (1 / inject_Z (Z.shiftl 1 d0))%Q).
  assert (Hsize : (0 < size)%Q).
  { unfold size. rewrite Z.shiftl_1_l.
    assert (0 < 2 ^ d0) by (apply Z.pow_pos_nonneg; lia).
    apply Qlt_shift_div_l; [|lra].
    change 0%Q with (inject_Z 0). by rewrite <- Zlt_Qlt. }
  assert (Hw' : (0 < w / (size * size))%Q).
  { apply Qlt_shift_div_l; nra. }
  assert (Hh : (0 < size / 2)%Q)
    by (change (size / 2)%Q with (size * (1 # 2))%Q; lra).
  pose proof Hwf as [Hpos _].
  unfold indexAt in Hidx. change 0 with (Z.of_nat 0) in Hidx at 1.
  destruct (splatFiltered_hits D target (m_secondMoment t) x (size / 2)%Q
              (map (fun dim => vget x dim - size / 2)%Q (seq 0 D))
              (map (fun dim => vget x dim + size / 2)%Q (seq 0 D))
              v (w / (size * size))%Q Hh)
    with (fuel := length (m_nodes t)) (fuel2 := length (m_nodes t))
         (P := m_nodes t) (i := 0%nat) (x := x) (d := 0) (l := Z.of_nat i0) (d' := d0)
         (nodeMin := replicate D 0%Q) (nodeSize := 1%Q)
    as (P' & nl & nl' & HP' & _ & Hnl & Hnl' & Hlt); try done.
  - intros k Hk. by rewrite vget_map_seq.
  - intros k Hk. by rewrite vget_map_seq.
  - lia.
  - split; [done|]. split; [by rewrite length_replicate|]. split; [lra|].
    intros k Hk. split; [by apply Hx|]. rewrite vget_replicate_0. ring.
  - change (Z.of_nat 0) with 0 in HP'. rewrite HP'. simpl.
    exists (Z.of_nat i0), d0, leaf, (with_nodes t P'), nl'.
    split; [done|]. split; [by apply node_at_nat|]. split; [done|].
    split; [done|]. split; [done|].
    rewrite (node_at_nat _ _ _ Hi0) in Hnl. by injection Hnl as <-.
Qed.

Lemma splat_filtered_hits_leaf_witness :
  exists i d leaf t' leaf',
    indexAt 1 (m_nodes (line_tree 1 (line_leaf (1 # 2) 1 1) (line_leaf (3 # 2) 3 1)))
            [(1 # 4)%Q] = Done (i, d)
    /\ node_at (m_nodes (line_tree 1 (line_leaf (1 # 2) 1 1) (line_leaf (3 # 2) 3 1))) i
       = Done leaf
    /\ isLeaf leaf = true
    /\ splat 1 id_target (line_tree 1 (line_leaf (1 # 2) 1 1) (line_leaf (3 # 2) 3 1))
             [(1 # 4)%Q] 1%Q 1%Q = Done t'
    /\ node_at (m_nodes t') i = Done leaf'
    /\ (weight leaf < weight leaf')%Q.
Proof.
  apply (splat_filtered_hits_leaf 1 id_target
           (line_tree 1 (line_leaf (1 # 2) 1 1) (line_leaf (3 # 2) 3 1))
           [(1 # 4)%Q] 1%Q 1%Q 2).
  - apply wf_poolb_sound. vm_compute. reflexivity.
  - reflexivity.
  - vm_compute. reflexivity.
  - lia.
  - reflexivity.
  - intros [|k] Hk; [|lia]. vm_compute. split; [discriminate|reflexivity].
  - discriminate.
  - reflexivity.
Defined.

(** ** Unfiltered deposits land in the leaf that contains the point *)

Section UnfilteredCell.

Variable D : nat.
Variable P : list Node.
Hypothesis Hwf : wf_pool D P.
Variable y : Vector.

(** The descent of [indexAt] stays in the cells that contain the point. *)
Lemma indexAt_loop_cell :
  forall fuel (x : Vector) (i : nat) (d l d' : Z) (lo : Vector) (size : Q),
    (i < length P)%nat ->
    cell_of D P i lo size -> in_cell D y x lo size ->
    indexAt_loop D fuel P x (Z.of_nat i) d = Done (l, d') ->
    exists (k : nat) lo' size',
      l = Z.of_nat k /\ cell_of D P k lo' size' /\ in_box D y lo' size'.
Proof.
  induction fuel as [|fuel IH]; intros x i d l d' lo size Hi Hcell Hin H; [done|].
  destruct (lookup_lt_is_Some_2 P i Hi) as [n Hn].
  simpl in H. rewrite (node_at_nat _ _ _ Hn) in H. simpl in H.
  destruct (isLeaf n) eqn:Hleaf.
  - injection H as <- <-. exists i, lo, size. split; [done|]. split; [done|].
    destruct Hin as (_ & _ & Hs & Hc). intros dim Hdim.
    destruct (Hc dim Hdim) as [[H0 H1] Hy]. split; nra.
  - pose proof (indexAt_dims_range D x D) as Hci.
    pose proof (in_cell_child D y x lo size Hin) as Hin'.
    destruct (foldl indexAt_dim (0, x) (seq 0 D)) as [ci x'] eqn:E.
    simpl in Hci, Hin'.
    pose proof (wf_child_range D P i n ci Hwf Hn Hleaf Hci) as Hrange.
    apply obind_Done in H as ([] & _ & H).
    rewrite <- (Z2Nat.id (child n ci)) in H by lia.
    pose proof Hin as (_ & Hllo & _).
    destruct (childMin_spec D lo (size / 2)%Q (Z.to_nat ci) D ltac:(lia))
      as (Hclen & Hclow & _).
    apply (IH x' (Z.to_nat (child n ci)) (d + 1) l d'
              (childMin D lo (size / 2)%Q (Z.to_nat ci)) (size / 2)%Q);
      [lia| |exact Hin'|exact H].
    apply (cell_child D P i n (Z.to_nat ci) _ lo size); try done.
    + pose proof (Arity_Z D). lia.
    + rewrite !Z2Nat.id by lia. done.
    + unfold childMin. lia.
    + intros dim Hdim. unfold childMin. rewrite (Hclow dim Hdim).
      destruct (Z.testbit (Z.of_nat (Z.to_nat ci)) (Z.of_nat dim)); ring.
Qed.

Lemma cell_of_size (k : nat) (lo : Vector) (size : Q) :
  cell_of D P k lo size -> (0 < size)%Q.
Proof.
  induction 1 as [|i n c k lo size lo' _ IH _ _ _ _ _ _]; [done|].
  change (size / 2)%Q with (size * (1 # 2))%Q. lra.
Qed.

(** In a cell that contains the point, the child [indexAt] picks is the
    one whose cell contains the point. *)
Lemma cell_step (x lo lo' : Vector) (size : Q) (c : nat) :
  in_cell D y x lo size -> length lo' = D -> (c < Arity D)%nat ->
  (forall dim, (dim < D)%nat ->
     (vget lo' dim == vget lo dim
        + (if Z.testbit (Z.of_nat c) (Z.of_nat dim) then size / 2 else 0))%Q) ->
  in_box D y lo' (size / 2)%Q ->
  (foldl indexAt_dim (0, x) (seq 0 D)).1 = Z.of_nat c
  /\ in_cell D y (foldl indexAt_dim (0, x) (seq 0 D)).2 lo' (size / 2)%Q.
Proof.
  intros (Hlx & Hll & Hs & Hcell) Hl' Hc Hlo Hbox.
  destruct (indexAt_dims_spec x D ltac:(lia)) as (Hlen & Hlow & _).
  pose proof (indexAt_dims_range D x D) as Hrange.
  set (ci := (foldl indexAt_dim (0, x) (seq 0 D)).1) in *.
  set (x' := (foldl indexAt_dim (0, x) (seq 0 D)).2) in *.
  assert (Hbit : forall k, (k < D)%nat ->
            Z.testbit (Z.of_nat c) (Z.of_nat k) = Qle_bool (1 # 2) (vget x k)).
  { intros k Hk. destruct (Hcell k Hk) as [[H0 H1] Heq].
    pose proof (Hbox k Hk) as Hy. pose proof (Hlo k Hk) as Hl.
    change (size / 2)%Q with (size * (1 # 2))%Q in Hy, Hl.
    destruct (Z.testbit (Z.of_nat c) (Z.of_nat k)); symmetry.
    - apply Qle_bool_iff. nra.
    - destruct (Qle_bool (1 # 2) (vget x k)) eqn:E; [|done].
      apply Qle_bool_iff in E. nra. }
  assert (Heq : ci = Z.of_nat c).
  { pose proof (Arity_Z D) as HA.
    apply Z.bits_inj'. intros m Hm.
    destruct (decide (m < Z.of_nat D)) as [Hlt|Hge].
    - replace m with (Z.of_nat (Z.to_nat m)) by lia.
      destruct (Hlow (Z.to_nat m) ltac:(lia)) as [-> _].
      symmetry. apply Hbit. lia.
    - rewrite (proj2 (Z.testbit_false ci m Hm)),
              (proj2 (Z.testbit_false (Z.of_nat c) m Hm)); [done| |].
      + rewrite Z.div_small; [done|].
        pose proof (Z.pow_le_mono_r 2 (Z.of_nat D) m). lia.
      + rewrite Z.div_small; [done|].
        pose proof (Z.pow_le_mono_r 2 (Z.of_nat D) m). lia. }
  split; [done|].
  split; [lia|]. split; [done|].
  split; [change (size / 2)%Q with (size * (1 # 2))%Q; lra|].
  intros k Hk. destruct (Hlow k Hk) as [_ Hx']. destruct (Hcell k Hk) as [[H0 H1] Hyk].
  pose proof (Hlo k Hk) as Hl. rewrite (Hbit k Hk) in Hl.
  rewrite Hx'. change (size / 2)%Q with (size * (1 # 2))%Q in *.
  destruct (Qle_bool (1 # 2) (vget x k)) eqn:E.
  - apply Qle_bool_iff in E. split; [lra|]. rewrite Hyk, Hl. ring.
  - assert (vget x k < 1 # 2)%Q.
    { destruct (Qlt_le_dec (vget x k) (1 # 2)) as [Hlt|Hge]; [done|].
      apply Qle_bool_iff in Hge. congruence. }
    split; [lra|]. rewrite Hyk, Hl. ring.
Qed.

(** Every cell that contains the point lies on the descent of [indexAt]:
    after as many steps as the cell is deep, the descent stands at the
    cell's node. *)
Lemma cell_on_path (k : nat) (lo : Vector) (size : Q) :
  length y = D -> (forall dim, (dim < D)%nat -> (0 <= vget y dim < 1)%Q) ->
  cell_of D P k lo size -> in_box D y lo size ->
  exists (x : Vector) (d : nat),
    in_cell D y x lo size /\ (d <= k)%nat
    /\ forall F, indexAt_loop D (d + F) P y 0 0
                 = indexAt_loop D F P x (Z.of_nat k) (Z.of_nat d).
Proof.
  intros Hly Hy Hcell.
  induction Hcell as [|i n c k lo size lo' Hcell IH Hn Hleaf Hc Hchild Hlen Hlo];
    intros Hbox.
  - exists y, 0%nat. split; [|split; [lia|done]].
    split; [done|]. split; [by rewrite length_replicate|]. split; [reflexivity|].
    intros k Hk. split; [by apply Hy|]. rewrite vget_replicate_0. ring.
  - pose proof (cell_of_size _ _ _ Hcell) as Hs.
    destruct IH as (xi & di & Hin & Hdi & Hpath).
    { intros dim Hdim. pose proof (Hbox dim Hdim) as Hb. pose proof (Hlo dim Hdim) as Hl.
      change (size / 2)%Q with (size * (1 # 2))%Q in Hb, Hl.
      destruct (Z.testbit (Z.of_nat c) (Z.of_nat dim)); lra. }
    destruct (cell_step xi lo lo' size c Hin Hlen Hc Hlo Hbox) as [Hci Hin'].
    destruct (wf_internal_child D P i c n Hwf Hn Hleaf Hc) as (k' & Hk' & Hik).
    assert (k' = k) by (apply Nat2Z.inj; congruence). subst k'.
    exists (foldl indexAt_dim (0, xi) (seq 0 D)).2, (Datatypes.S di).
    split; [done|]. split; [lia|].
    intros F. replace (Datatypes.S di + F)%nat with (di + Datatypes.S F)%nat by lia.
    rewrite Hpath. simpl. rewrite (node_at_nat _ _ _ Hn). simpl. rewrite Hleaf.
    destruct (foldl indexAt_dim (0, xi) (seq 0 D)) as [ci x'] eqn:E.
    simpl in Hci. subst ci. rewrite Hchild.
    replace (Z.of_nat i <? Z.of_nat k) with true by (symmetry; apply Z.ltb_lt; lia).
    simpl. by replace (Z.of_nat di + 1) with (Z.of_nat (Datatypes.S di)) by lia.
Qed.

(** The leaf [indexAt] returns is the only leaf whose cell contains the
    point. *)
Lemma indexAt_cell_unique (i : nat) (d : Z) (k : nat) (lo : Vector) (size : Q)
      (n : Node) :
  length y = D -> (forall dim, (dim < D)%nat -> (0 <= vget y dim < 1)%Q) ->
  indexAt D P y = Done (Z.of_nat i, d) ->
  cell_of D P k lo size -> in_box D y lo size ->
  P !! k = Some n -> isLeaf n = true -> k = i.
Proof.
  intros Hly Hy Hidx Hcell Hbox Hn Hleaf.
  destruct (cell_on_path k lo size Hly Hy Hcell Hbox) as (x & dk & _ & Hdk & Hpath).
  pose proof (lookup_lt_Some _ _ _ Hn) as Hk.
  unfold indexAt in Hidx.
  replace (length P) with (dk + Datatypes.S (length P - dk - 1))%nat in Hidx at 1 by lia.
  rewrite Hpath in Hidx. simpl in Hidx.
  rewrite (node_at_nat _ _ _ Hn) in Hidx. simpl in Hidx. rewrite Hleaf in Hidx.
  injection Hidx as Hki _. by apply Nat2Z.inj.
Qed.

End UnfilteredCell.

(** C10.  With filtering disabled, [splat(x, value, weight)] on a
    well-formed pool, with the non-negative [value] and [weight] its
    assertions ask for, changes exactly one node: the leaf [indexAt(x)]
    returns, which for a point [x] of the unit cube is the one leaf whose
    cell contains [x].  Its [weight] grows by [weight], its [value] by
    [value * weight] and its [density] by [target(value) * weight], the
    target squared in second-moment mode.  Every other node, every
    [children] array, the node count and the settings stay as they were. *)
Theorem splat_unfiltered_frame (D : nat) (target : Q -> Q) (t : BTreeDistribution)
        (x : Vector) (v w : Q) :
  wf_pool D (m_nodes t) -> m_doFiltering t = false ->
  (0 <= w)%Q -> (0 <= v)%Q ->
  exists (i : nat) (d : Z) (leaf : Node) (t' : BTreeDistribution),
    indexAt D (m_nodes t) x = Done (Z.of_nat i, d)
    /\ m_nodes t !! i = Some leaf /\ isLeaf leaf = true
    /\ (length x = D -> (forall k, (k < D)%nat -> (0 <= vget x k < 1)%Q) ->
        exists lo size,
          cell_of D (m_nodes t) i lo size /\ in_box D x lo size
          /\ forall k lo' size' n,
               cell_of D (m_nodes t) k lo' size' -> in_box D x lo' size' ->
               m_nodes t !! k = Some n -> isLeaf n = true -> k = i)
    /\ splat D target t x v w = Done t'
    /\ m_nodes t' !! i =
       Some (mkTreeNode (children leaf)
               (density leaf
                + (if m_secondMoment t then target v * target v else target v) * w)%Q
               (value leaf + v * w)%Q (weight leaf + w)%Q)
    /\ (forall j, j <> i -> m_nodes t' !! j = m_nodes t !! j)
    /\ length (m_nodes t') = length (m_nodes t)
    /\ (forall j n n', m_nodes t !! j = Some n -> m_nodes t' !! j = Some n' ->
                       children n' = children n)
    /\ m_splitThreshold t' = m_splitThreshold t
    /\ m_leafReweighting t' = m_leafReweighting t
    /\ m_doFiltering t' = m_doFiltering t
    /\ m_secondMoment t' = m_secondMoment t.
Proof.
  intros Hwf Hnf Hw Hv. pose proof Hwf as [Hpos _].
  destruct (indexAt_wf D (m_nodes t) x Hwf) as (i & d & leaf & Hidx & Hi & Hleaf & _).
  pose proof (lookup_lt_Some _ _ _ Hi) as Hlt.
  set (leaf' := mkTreeNode (children leaf)
                  (density leaf
                   + (if m_secondMoment t then target v * target v else target v) * w)%Q
                  (value leaf + v * w)%Q (weight leaf + w)%Q).
  exists i, d, leaf, (with_nodes t (<[i := leaf']> (m_nodes t))).
  split; [done|]. split; [done|]. split; [done|]. split.
  { intros Hlx Hx.
    assert (Hin : in_cell D x x (replicate D 0%Q) 1%Q).
    { split; [done|]. split; [by rewrite length_replicate|]. split; [reflexivity|].
      intros k Hk. split; [by apply Hx|]. rewrite vget_replicate_0. ring. }
    pose proof Hidx as Hidx'. unfold indexAt in Hidx'.
    change 0 with (Z.of_nat 0) in Hidx' at 1.
    destruct (indexAt_loop_cell D (m_nodes t) Hwf x _ x 0%nat 0 _ _ _ 1%Q Hpos
                                (cell_root D (m_nodes t)) Hin Hidx')
      as (k & lo & size & Hk & Hcell & Hbox).
    apply Nat2Z.inj in Hk. subst k. exists lo, size.
    split; [done|]. split; [done|].
    intros k lo' size' n Hcell' Hbox' Hn Hleaf'.
    exact (indexAt_cell_unique D (m_nodes t) Hwf x i d k lo' size' n
                               Hlx Hx Hidx Hcell' Hbox' Hn Hleaf'). }
  repeat split; auto.
  - unfold splat. rewrite Hnf, Hidx. simpl.
    rewrite (node_at_nat _ _ _ Hi). simpl.
    rewrite (node_splat_Done target leaf v w (m_secondMoment t) Hw Hv). simpl.
    by rewrite Nat2Z.id.
  - simpl. by apply list_lookup_insert_eq.
  - intros j Hj. simpl. by apply list_lookup_insert_ne.
  - simpl. apply length_insert.
  - intros j n n' Hn Hn'. simpl in Hn'.
    destruct (decide (i = j)) as [Heq|Hne].
    + subst j. rewrite list_lookup_insert_eq in Hn' by done.
      simplify_eq. reflexivity.
    + rewrite list_lookup_insert_ne in Hn' by done. congruence.
Qed.

Lemma splat_unfiltered_frame_witness :
  exists t',
    indexAt 2 (m_nodes quad_tree) [(1 # 4)%Q; (3 # 4)%Q] = Done (3, 1)
    /\ splat 2 id_target quad_tree [(1 # 4)%Q; (3 # 4)%Q] 3%Q 2%Q = Done t'
    /\ m_nodes t' !! 3%nat
       = Some (mkTreeNode [0; 0; 0; 0] ((1 # 2) + 3 * 2)%Q (5 + 3 * 2)%Q (1 + 2)%Q)
    /\ (forall j, j <> 3%nat -> m_nodes t' !! j = m_nodes quad_tree !! j)
    /\ exists lo size,
         cell_of 2 (m_nodes quad_tree) 3 lo size
         /\ in_box 2 [(1 # 4)%Q; (3 # 4)%Q] lo size
         /\ forall k lo' size' n,
              cell_of 2 (m_nodes quad_tree) k lo' size' ->
              in_box 2 [(1 # 4)%Q; (3 # 4)%Q] lo' size' ->
              m_nodes quad_tree !! k = Some n -> isLeaf n = true -> k = 3%nat.
Proof.
  destruct (splat_unfiltered_frame 2 id_target quad_tree [(1 # 4)%Q; (3 # 4)%Q] 3%Q 2%Q)
    as (i & d & leaf & t' & Hidx & Hleaf & _ & Hcell & Hsplat & Hnew & Hframe & _).
  - apply wf_poolb_sound. vm_compute. reflexivity.
  - reflexivity.
  - discriminate.
  - discriminate.
  - assert (Hc : indexAt 2 (m_nodes quad_tree) [(1 # 4)%Q; (3 # 4)%Q] = Done (3, 1))
      by (vm_compute; reflexivity).
    pose proof (eq_trans (eq_sym Hc) Hidx) as Heq. injection Heq as Hi _.
    assert (i = 3%nat) as -> by lia.
    vm_compute in Hleaf. injection Hleaf as <-.
    exists t'. split; [exact Hc|]. split; [exact Hsplat|]. split; [exact Hnew|].
    split; [exact Hframe|]. apply Hcell; [reflexivity|].
    intros [|[|k]] Hk; [vm_compute; split; [discriminate|reflexivity]..|lia].
Defined.

(** ** What [sample] returns *)

Lemma sample_loop_leaf (D : nat) (P : list Node) :
  forall fuel (x base : Vector) (scale : Q) (index i : Z) x' base' scale',
    sample_loop D fuel P x base scale index = Done (i, x', base', scale') ->
    exists n, node_at P i = Done n /\ isLeaf n = true
              /\ length x' = length x.
Proof.
  induction fuel as [|fuel IH]; intros x base scale index i x' base' scale' H; [done|].
  simpl in H. apply obind_Done in H as (node & Hnode & H).
  destruct (isLeaf node) eqn:Hleaf.
  - injection H as <- <- <- <-. by exists node.
  - apply obind_Done in H as ([[ci x1] base1] & Hdims & H).
    apply obind_Done in H as ([] & _ & H).
    destruct (IH _ _ _ _ _ _ _ _ H) as (n & Hn & Hnl & Hlen).
    exists n. split; [done|]. split; [done|]. rewrite Hlen.
    clear H IH Hn Hlen.
    assert (Hgen : forall k ci x1 base1,
              foldl (sample_dim D P node scale) (Done (0, x, base)) (seq 0 k)
              = Done (ci, x1, base1) -> length x1 = length x); [|by eapply Hgen].
    clear. induction k as [|k IHk]; intros ci x1 base1 Hdims.
    + simpl in Hdims. by injection Hdims as _ <- _.
    + rewrite seq_S, foldl_app in Hdims. simpl in Hdims.
      unfold sample_dim in Hdims at 1.
      apply obind_Done in Hdims as ([[ci0 x0] base0] & H0 & Hdims).
      apply obind_Done in Hdims as ([p0 p1] & _ & Hdims).
      apply obind_Done in Hdims as ([] & _ & Hdims).
      rewrite <- (IHk _ _ _ H0).
      destruct (Qlt_bool _ _); injection Hdims as _ <- _;
        unfold vset; by rewrite length_insert.
Qed.

(** X11.  When [sample] returns, the pdf and the value it returns are the
    density and the value of one leaf, the pdf is positive, and the point
    has as many coordinates as before. *)
Theorem sample_returns_leaf (D : nat) (t : BTreeDistribution) (x : Vector) (pdf_in : Q)
        (x' : Vector) (p v : Q) :
  sample D t x pdf_in = Done (x', p, v) ->
  (0 < p)%Q /\ length x' = length x
  /\ exists (i : nat) (leaf : Node),
       m_nodes t !! i = Some leaf /\ isLeaf leaf = true
       /\ (p == density leaf)%Q /\ v = value leaf.
Proof.
  unfold sample. intros H.
  apply obind_Done in H as ([[[i x1] base] scale] & Hloop & H).
  apply obind_Done in H as (n & Hn & H).
  apply obind_Done in H as ([] & Hpos & H). injection H as <- <- <-.
  destruct (sample_loop_leaf D _ _ _ _ _ _ _ _ _ _ Hloop) as (n' & Hn' & Hleaf & Hlen).
  assert (n' = n) as -> by congruence.
  unfold assert in Hpos. destruct (Qlt_bool 0 (density n)) eqn:E; [|done].
  unfold Qlt_bool in E. apply negb_true_iff in E.
  assert (Hd : (0 < density n)%Q).
  { destruct (Qlt_le_dec 0 (density n)) as [Hlt|Hge]; [done|].
    apply Qle_bool_iff in Hge. congruence. }
  split; [lra|]. split.
  - rewrite <- Hlen.
    assert (Hgen : forall k (z : Vector),
              length (foldl (fun x dim => vset x dim (vget x dim * scale + vget base dim)%Q)
                            z (seq 0 k)) = length z); [|apply Hgen].
    clear. induction k as [|k IH]; intros z; [done|].
    rewrite seq_S, foldl_app. simpl. unfold vset. by rewrite length_insert.
  - apply node_at_Done in Hn as [_ Hn]. exists (Z.to_nat i), n.
    split; [done|]. split; [done|]. split; [ring|done].
Qed.

Lemma sample_returns_leaf_witness :
  exists x' p v,
    sample 1 (line_tree 1 (line_leaf (1 # 2) 1 1) (line_leaf (3 # 2) 3 1))
           [(1 # 4)%Q] 1%Q = Done (x', p, v)
    /\ (0 < p)%Q /\ length x' = length [(1 # 4)%Q]
    /\ exists (i : nat) (leaf : Node),
         m_nodes (line_tree 1 (line_leaf (1 # 2) 1 1) (line_leaf (3 # 2) 3 1)) !! i
         = Some leaf
         /\ isLeaf leaf = true /\ (p == density leaf)%Q /\ v = value leaf.
Proof.
  eexists _, _, _. split; [vm_compute; reflexivity|].
  apply (sample_returns_leaf 1
           (line_tree 1 (line_leaf (1 # 2) 1 1) (line_leaf (3 # 2) 3 1))
           [(1 # 4)%Q] 1%Q).
  vm_compute. reflexivity.
Defined.

(** ** Type tags *)

Lemma Z_of_byte_inj (x y : Byte.byte) : Z_of_byte x = Z_of_byte y -> x = y.
Proof.
  unfold Z_of_byte. intros H. apply N2Z.inj in H.
  apply (f_equal Byte.of_N) in H. rewrite !Byte.of_to_N in H. congruence.
Qed.

Lemma Z_of_byte_0 (x : Byte.byte) : Z_of_byte x = 0 -> x = Byte.x00.
Proof. intros H. by apply Z_of_byte_inj. Qed.

Lemma byte_eqb_spec (x y : Byte.byte) : Byte.eqb x y = true <-> x = y.
Proof.
  split; [apply Byte.byte_dec_bl|apply Byte.byte_dec_lb].
Qed.

Lemma byte_eqb_refl (x : Byte.byte) : Byte.eqb x x = true.
Proof. by apply byte_eqb_spec. Qed.

Lemma strcmp_0 (a b : list Byte.byte) : strcmp a b = 0 <-> cstr a = cstr b.
Proof.
  revert b. induction a as [|x a IH]; intros [|y b]; cbn [strcmp cstr].
  - done.
  - destruct (Byte.eqb y Byte.x00) eqn:E.
    + apply byte_eqb_spec in E. subst y. done.
    + split; [|done]. intros H. assert (y = Byte.x00) by (apply Z_of_byte_0; lia).
      subst y. by rewrite byte_eqb_refl in E.
  - destruct (Byte.eqb x Byte.x00) eqn:E.
    + apply byte_eqb_spec in E. subst x. done.
    + split; [|done]. intros H. apply Z_of_byte_0 in H.
      subst x. by rewrite byte_eqb_refl in E.
  - destruct (Byte.eqb x y) eqn:Exy.
    + apply byte_eqb_spec in Exy. subst y.
      destruct (Byte.eqb x Byte.x00); [done|].
      rewrite IH. split; [congruence|]. intros H. by injection H.
    + assert (Hne : x <> y).
      { intros ->. by rewrite byte_eqb_refl in Exy. }
      split.
      * intros H. exfalso. apply Hne, Z_of_byte_inj. lia.
      * destruct (Byte.eqb x Byte.x00) eqn:Ex; destruct (Byte.eqb y Byte.x00) eqn:Ey;
          intros H; try discriminate.
        -- apply byte_eqb_spec in Ex, Ey. congruence.
        -- injection H as H _. contradiction.
Qed.

Lemma cstr_no_NUL (bs : list Byte.byte) : Byte.x00 ∉ cstr bs.
Proof.
  induction bs as [|b bs IH]; simpl; [apply not_elem_of_nil|].
  destruct (Byte.eqb b Byte.x00) eqn:E; [apply not_elem_of_nil|].
  apply not_elem_of_cons. split; [|done].
  intros <-. by rewrite byte_eqb_refl in E.
Qed.

Lemma cstr_app_NUL (bs rest : list Byte.byte) :
  Byte.x00 ∉ bs -> cstr (bs ++ Byte.x00 :: rest) = bs.
Proof.
  induction bs as [|b bs IH]; intros H; simpl; [done|].
  apply not_elem_of_cons in H as [Hb Hbs].
  destruct (Byte.eqb b Byte.x00) eqn:E.
  - apply byte_eqb_spec in E. congruence.
  - by rewrite IH.
Qed.

Lemma cstr_prefix (bs : list Byte.byte) :
  exists rest, bs = cstr bs ++ rest.
Proof.
  induction bs as [|b bs [rest IH]]; simpl; [by exists []|].
  destruct (Byte.eqb b Byte.x00); [by eexists|].
  exists rest. simpl. by rewrite <- IH.
Qed.

Lemma take_cstr (bs : list Byte.byte) (k : nat) :
  (k <= length (cstr bs))%nat -> take k bs = take k (cstr bs).
Proof.
  intros Hk. destruct (cstr_prefix bs) as [rest H].
  rewrite H at 1. by rewrite take_app_le.
Qed.

(** X14.  The tag [writeType] writes for [name] is accepted by [readType]
    exactly for the types whose name is the part of [name] that was
    written, and the bytes after the tag are left unread.  That part is
    [name] itself as long as [name] is shorter than [2^16]; a longer name
    is cut, and [readType] then rejects the tag of its own type. *)
Theorem readType_writeType (name expected rest : list Byte.byte) :
  let written :=
    take (Z.to_nat (Z.of_nat (length (cstr name)) mod 2 ^ 16)) (cstr name) in
  (cstr expected = written ->
   readType expected (writeType name ++ rest) = Done rest)
  /\ (cstr expected <> written ->
      readType expected (writeType name ++ rest) = AssertFailed)
  /\ (Z.of_nat (length (cstr name)) < 2 ^ 16 -> written = cstr name)
  /\ (2 ^ 16 <= Z.of_nat (length (cstr name)) ->
      readType name (writeType name ++ rest) = AssertFailed).
Proof.
  intros written.
  set (len := Z.of_nat (length (cstr name)) mod 2 ^ 16) in *.
  assert (Hlen : 0 <= len < 2 ^ 16) by (apply Z.mod_pos_bound; lia).
  assert (Hle : len <= Z.of_nat (length (cstr name))) by (apply Z.mod_le; lia).
  assert (Hmain : forall e,
            readType e (writeType name ++ rest)
            = if strcmp (written ++ [Byte.x00]) e =? 0 then Done rest else AssertFailed).
  { intros e. unfold readType, writeType. fold len. rewrite <- app_assoc.
    pose proof (stream_read_app (le_bytes 2 len) (take (Z.to_nat len) name ++ rest)) as H2.
    rewrite length_le_bytes in H2. rewrite H2.
    rewrite le_value_le_bytes. change (256 ^ Z.of_nat 2) with (2 ^ 16).
    rewrite Z.mod_small by done.
    rewrite take_cstr by lia. fold written.
    pose proof (stream_read_app written rest) as H3.
    unfold written in H3 at 1. rewrite length_take, Nat.min_l in H3 by lia.
    by rewrite H3. }
  assert (Hw : cstr (written ++ [Byte.x00]) = written).
  { apply cstr_app_NUL. intros Hin. apply elem_of_take in Hin as (i & Hi & _).
    apply (cstr_no_NUL name). by eapply list_elem_of_lookup_2. }
  assert (Hiff : forall e, (strcmp (written ++ [Byte.x00]) e =? 0) = true
                           <-> cstr e = written).
  { intros e. rewrite Z.eqb_eq, strcmp_0, Hw. split; congruence. }
  split; [|split; [|split]].
  - intros H. rewrite Hmain. apply Hiff in H. by rewrite H.
  - intros H. rewrite Hmain.
    destruct (strcmp (written ++ [Byte.x00]) expected =? 0) eqn:E; [|done].
    by apply Hiff in E.
  - intros Hshort. apply take_ge. unfold len. rewrite Z.mod_small by lia. lia.
  - intros Hlong. rewrite Hmain.
    destruct (strcmp (written ++ [Byte.x00]) name =? 0) eqn:E; [|done].
    apply Hiff in E. apply (f_equal length) in E. unfold written in E.
    rewrite length_take in E. lia.
Qed.

(** ** The wrapper around any distribution *)

Section WrapperMore.

Context {C : Type} `{Dist : Distribution C}.
Variable S : Type.
Variable target_aux : S -> Q * dist_Aux.

(** X15.  [Wrapper::pdf] is the mixture; with [uniformProb] in [0, 1] and a
    non-negative tree pdf it is at least [uniformProb], and at most
    [uniformProb + (1 - uniformProb) * pmax] for every bound [pmax] on the
    tree's pdf. *)
Theorem Wrapper_pdf_bounds (w : Wrapper C) (x : Vector) (p : Q) :
  (0 <= uniformProb w <= 1)%Q ->
  dist_pdf (m_sampling w) (child_settings w) x = Done p -> (0 <= p)%Q ->
  exists q, Wrapper_pdf w x = Done q
            /\ (uniformProb w <= q)%Q
            /\ forall pmax, (p <= pmax)%Q ->
                 (q <= uniformProb w + (1 - uniformProb w) * pmax)%Q.
Proof.
  intros Hu Hp Hp0. unfold Wrapper_pdf.
  destruct (Qeq_bool (uniformProb w) 1) eqn:E.
  - apply Qeq_bool_iff in E. exists 1%Q. split; [done|]. split; [lra|].
    intros pmax _. rewrite E. lra.
  - rewrite Hp. simpl. eexists. split; [reflexivity|]. split; [nra|].
    intros pmax Hmax. nra.
Qed.

(** X16.  In the uniform branch of [Wrapper::sample] the returned pdf is what
    [Wrapper::pdf] answers at the returned point, and the point is the
    input with [x[0]] stretched from [[0, uniformProb)] to [[0, 1)]. *)
Theorem Wrapper_sample_uniform_branch (w : Wrapper C) (x : Vector) (p : Q) :
  (0 < uniformProb w)%Q -> ~ (uniformProb w == 1)%Q ->
  (0 <= vget x 0 < uniformProb w)%Q ->
  dist_pdf (m_sampling w) (child_settings w)
           (vset x 0 (vget x 0 / uniformProb w)%Q) = Done p ->
  exists q q',
    Wrapper_sample w x = Done (vset x 0 (vget x 0 / uniformProb w)%Q, q)
    /\ Wrapper_pdf w (vset x 0 (vget x 0 / uniformProb w)%Q) = Done q'
    /\ (q == q')%Q
    /\ (0 <= vget x 0 / uniformProb w < 1)%Q.
Proof.
  intros Hu0 Hu1 [Hx0 Hx1] Hp. unfold Wrapper_sample, Wrapper_pdf.
  assert (E : Qeq_bool (uniformProb w) 1 = false).
  { destruct (Qeq_bool (uniformProb w) 1) eqn:E; [|done].
    apply Qeq_bool_iff in E. contradiction. }
  assert (Hlt : Qlt_bool (vget x 0) (uniformProb w) = true).
  { unfold Qlt_bool. apply negb_true_iff.
    destruct (Qle_bool (uniformProb w) (vget x 0)) eqn:E'; [|done].
    apply Qle_bool_iff in E'. lra. }
  rewrite E, Hlt, Hp. simpl. eexists _, _. split; [reflexivity|].
  split; [reflexivity|]. split; [ring|]. split.
  - apply Qle_shift_div_l; lra.
  - apply Qlt_shift_div_r; lra.
Qed.

Lemma schedule_step (n m : Z) :
  schedule_ok n m -> m < 2 ^ 63 ->
  wrap64 (n + 1) = n + 1
  /\ schedule_ok (n + 1) (if m <? wrap64 (n + 1) then wrap64 (m * 2) else m)
  /\ ((m <? wrap64 (n + 1)) = true <-> n = m).
Proof.
  intros (k & Hk & Hm & Hn & Hhalf) Hbound.
  assert (Hpow : 1 <= 2 ^ k) by (pose proof (Z.pow_pos_nonneg 2 k); lia).
  assert (Hw : wrap64 (n + 1) = n + 1).
  { unfold wrap64. apply Z.mod_small. lia. }
  rewrite Hw. split; [done|].
  destruct (Z.ltb_spec m (n + 1)) as [Hlt|Hge].
  - split; [|split; [lia|done]].
    assert (wrap64 (m * 2) = m * 2) as -> by (unfold wrap64; apply Z.mod_small; lia).
    exists (k + 1). split; [lia|]. split; [rewrite Z.pow_add_r by lia; lia|].
    split; [lia|]. right. lia.
  - split; [|split; [discriminate|lia]].
    exists k. split; [done|]. split; [done|]. split; [lia|]. lia.
Qed.

(** X17.  The rebuild schedule.  Fed one sample at a time, a wrapper whose
    counters satisfy [schedule_ok] keeps them so: the count grows by one
    per sample, and the milestone stays the least [1024 * 2^k] that the
    count has not passed. *)
Theorem Wrapper_schedule (samples : list (S * Q)) :
  forall w w' : Wrapper C,
    schedule_ok (m_samplesSoFar w) (m_nextMilestone w) ->
    m_samplesSoFar w + Z.of_nat (length samples) <= 2 ^ 62 ->
    Wrapper_splats S target_aux w samples = Done w' ->
    m_samplesSoFar w' = m_samplesSoFar w + Z.of_nat (length samples)
    /\ schedule_ok (m_samplesSoFar w') (m_nextMilestone w').
Proof.
  induction samples as [|[s weight] rest IH]; intros w w' Hok Hbound Hrun.
  - simpl in Hrun. injection Hrun as <-. simpl. split; [lia|done].
  - simpl in Hrun. apply obind_Done in Hrun as (w1 & H1 & Hrest).
    destruct (Wrapper_splat_counters S target_aux w w1 s weight H1) as (Hs & Hm & _).
    assert (Hmb : m_nextMilestone w < 2 ^ 63).
    { destruct Hok as (k & Hk & Hmk & Hn & Hhalf).
      simpl length in Hbound. destruct Hhalf as [->|Hh]; [simpl in Hmk|]; lia. }
    destruct (schedule_step _ _ Hok Hmb) as (Hw & Hok1 & _).
    rewrite <- Hm in Hok1. rewrite Hw in Hs. rewrite <- Hs in Hok1.
    destruct (IH w1 w' Hok1) as (Hcount & Hok'); [|done|].
    + rewrite Hs. simpl length in Hbound. lia.
    + split; [|done]. rewrite Hcount, Hs. simpl length. lia.
Qed.

(** X18.  While the counters are on schedule, a call of [splat] doubles the
    milestone, that is it rebuilds, exactly when the count before the call
    equals the milestone. *)
Theorem Wrapper_splat_rebuild_iff (w w' : Wrapper C) (s : S) (weight : Q) :
  schedule_ok (m_samplesSoFar w) (m_nextMilestone w) ->
  m_nextMilestone w < 2 ^ 63 ->
  Wrapper_splat S target_aux w s weight = Done w' ->
  (m_nextMilestone w' = 2 * m_nextMilestone w <-> m_samplesSoFar w = m_nextMilestone w).
Proof.
  intros Hok Hmb H.
  destruct (Wrapper_splat_counters S target_aux w w' s weight H) as (Hs & Hm & _).
  destruct (schedule_step _ _ Hok Hmb) as (Hw & _ & Hiff).
  destruct Hok as (k & Hk & Hmk & Hn & _).
  assert (1024 <= m_nextMilestone w) by (pose proof (Z.pow_pos_nonneg 2 k); lia).
  rewrite Hm. destruct (m_nextMilestone w <? wrap64 (m_samplesSoFar w + 1)) eqn:E.
  - assert (wrap64 (m_nextMilestone w * 2) = m_nextMilestone w * 2) as ->
      by (unfold wrap64; apply Z.mod_small; lia).
    split; [intros _; by apply Hiff|lia].
  - split; [lia|]. intros Heq. apply Hiff in Heq. congruence.
Qed.

End WrapperMore.

Lemma Wrapper_pdf_bounds_witness :
  exists q, Wrapper_pdf line_wrapper [(1 # 4)%Q] = Done q
            /\ (uniformProb line_wrapper <= q)%Q
            /\ forall pmax, (1 <= pmax)%Q ->
                 (q <= uniformProb line_wrapper + (1 - uniformProb line_wrapper) * pmax)%Q.
Proof.
  apply (Wrapper_pdf_bounds (Dist := line_dist) line_wrapper [(1 # 4)%Q] 1%Q).
  - vm_compute. split; discriminate.
  - reflexivity.
  - discriminate.
Defined.

Lemma Wrapper_sample_uniform_branch_witness :
  exists q q',
    Wrapper_sample line_wrapper [(1 # 4)%Q]
    = Done (vset [(1 # 4)%Q] 0 (vget [(1 # 4)%Q] 0 / uniformProb line_wrapper)%Q, q)
    /\ Wrapper_pdf line_wrapper
                   (vset [(1 # 4)%Q] 0 (vget [(1 # 4)%Q] 0 / uniformProb line_wrapper)%Q)
       = Done q'
    /\ (q == q')%Q
    /\ (0 <= vget [(1 # 4)%Q] 0 / uniformProb line_wrapper < 1)%Q.
Proof.
  apply (Wrapper_sample_uniform_branch (Dist := line_dist) line_wrapper [(1 # 4)%Q] 1%Q).
  - reflexivity.
  - vm_compute. discriminate.
  - vm_compute. split; [discriminate|reflexivity].
  - reflexivity.
Defined.

Lemma Wrapper_schedule_witness :
  exists w',
    line_splats line_wrapper [((1 # 2)%Q, 1%Q, 1%Q); ((1 # 4)%Q, 1%Q, 1%Q)] = Done w'
    /\ m_samplesSoFar w'
       = m_samplesSoFar line_wrapper
         + Z.of_nat (length [((1 # 2)%Q, 1%Q, 1%Q); ((1 # 4)%Q, 1%Q, 1%Q)])
    /\ schedule_ok (m_samplesSoFar w') (m_nextMilestone w').
Proof.
  assert (Hd : match line_splats line_wrapper
                       [((1 # 2)%Q, 1%Q, 1%Q); ((1 # 4)%Q, 1%Q, 1%Q)]
               with Done _ => true | _ => false end = true)
    by (vm_compute; reflexivity).
  destruct (line_splats line_wrapper [((1 # 2)%Q, 1%Q, 1%Q); ((1 # 4)%Q, 1%Q, 1%Q)])
    as [w'| |] eqn:E; [|discriminate..].
  exists w'. split; [reflexivity|].
  apply (Wrapper_schedule (Dist := line_dist) (Q * Q) line_target
           [((1 # 2)%Q, 1%Q, 1%Q); ((1 # 4)%Q, 1%Q, 1%Q)] line_wrapper w').
  - exists 0. cbn. lia.
  - cbn. lia.
  - exact E.
Defined.

Lemma Wrapper_splat_rebuild_iff_witness :
  exists w',
    line_splat line_wrapper ((1 # 2)%Q, 1%Q) 1%Q = Done w'
    /\ (m_nextMilestone w' = 2 * m_nextMilestone line_wrapper
        <-> m_samplesSoFar line_wrapper = m_nextMilestone line_wrapper).
Proof.
  assert (Hd : match line_splat line_wrapper ((1 # 2)%Q, 1%Q) 1%Q
               with Done _ => true | _ => false end = true)
    by (vm_compute; reflexivity).
  destruct (line_splat line_wrapper ((1 # 2)%Q, 1%Q) 1%Q) as [w'| |] eqn:E;
    [|discriminate..].
  exists w'. split; [reflexivity|].
  apply (Wrapper_splat_rebuild_iff (Dist := line_dist) (Q * Q) line_target
           line_wrapper w' ((1 # 2)%Q, 1%Q) 1%Q).
  - exists 0. cbn. lia.
  - cbn. lia.
  - exact E.
Defined.

(** ** A wrapper after [reset] *)

(** ** Pruning *)

Section BuildPrunes.

Variable D : nat.
Variable fsqrt : Q -> Q.
Variable sm : bool.
Variable old : list Node.
Hypothesis Hold : wf_pool D old.

(** With leaf reweighting, below a node that comes out of the first pass
    valid no invalid node is left. *)
Lemma build_rec_valid :
  forall fuel (index : nat) (scale : Q) (acc res : list Node) (n : Node),
    (index < length old)%nat -> (length old - index <= fuel)%nat ->
    (0 <= scale)%Q ->
    build_rec D fsqrt fuel true sm old scale (Z.of_nat index) acc = Done res ->
    res !! length acc = Some n -> Qle_bool 0 (weight n) = true ->
    forall k m, (length acc <= k)%nat -> res !! k = Some m -> (0 <= weight m)%Q.
Proof.
  induction fuel as [|fuel IH]; intros index scale acc res n Hlt Hfuel Hs Hrec Hn Hvalid;
    [lia|].
  destruct (lookup_lt_is_Some_2 old index Hlt) as [node Hnode].
  pose proof Hold as [_ Hok]. destruct (Hok index node Hnode) as [Hlen Hch].
  simpl in Hrec. rewrite (node_at_nat _ _ _ Hnode) in Hrec. simpl in Hrec.
  apply Qle_bool_iff in Hvalid.
  destruct (isLeaf node) eqn:Hleaf.
  - destruct (build_leaf_ok D fsqrt true sm node scale acc Hs Hlen Hleaf)
      as (res' & Hres' & _ & Hl).
    rewrite Hrec in Hres'. injection Hres' as <-.
    intros k m Hk Hm. pose proof (lookup_lt_Some _ _ _ Hm).
    assert (k = length acc) as -> by lia. congruence.
  - apply obind_Done in Hrec as (a & Hfold & Hrec). injection Hrec as <-.
    set (rec := build_rec D fsqrt fuel true sm old (scale * inject_Z (Z.of_nat (Arity D)))%Q)
      in *.
    assert (HsA : (0 <= scale * inject_Z (Z.of_nat (Arity D)))%Q).
    { apply Qmult_le_0_compat; [done|].
      change 0%Q with (inject_Z 0). rewrite <- Zle_Qle. lia. }
    assert (Hrec : forall (c : nat) acc', (c < Arity D)%nat ->
              exists res, rec (child node (Z.of_nat c)) acc' = Done res
                          /\ build_post D acc' res).
    { intros c acc' Hc. specialize (Hch eq_refl c Hc).
      destruct (build_rec_ok D fsqrt true sm old Hold fuel
                  (Z.to_nat (child node (Z.of_nat c)))
                  (scale * inject_Z (Z.of_nat (Arity D)))%Q acc')
        as (r & Hr & Hpost); [lia|lia|done|].
      rewrite Z2Nat.id in Hr by lia. eauto. }
    assert (Hloop : forall k, (k <= Arity D)%nat ->
      forall ak,
        foldl (build_child rec node (length acc))
              (Done (mkBuildAcc (acc ++ [node]) 0 0%Q 0%Q 0%Q)) (seq 0 k) = Done ak ->
        build_inv D acc k ak
        /\ 0 <= acc_validCount ak <= Z.of_nat k
        /\ (acc_validCount ak = Z.of_nat k ->
            forall j m, (length acc < j)%nat -> acc_nodes ak !! j = Some m ->
                        (0 <= weight m)%Q)).
    { induction k as [|k IHk]; intros Hk ak Hak.
      - destruct (build_children_ok D rec node acc Hrec Hlen 0 ltac:(lia))
          as (a0 & Ha0 & Hinv0).
        rewrite Hak in Ha0. injection Ha0 as <-. split; [done|].
        simpl in Hak. injection Hak as <-. simpl. split; [lia|].
        intros _ j m Hj Hm. apply lookup_lt_Some in Hm.
        rewrite length_app in Hm. simpl in Hm. lia.
      - destruct (build_children_ok D rec node acc Hrec Hlen (Datatypes.S k) Hk)
          as (a1 & Ha1 & Hinv1).
        rewrite Hak in Ha1. injection Ha1 as <-. split; [done|].
        rewrite seq_S, foldl_app in Hak. simpl in Hak. unfold build_child in Hak at 1.
        apply obind_Done in Hak as (a0 & Ha0 & Hak).
        destruct (IHk ltac:(lia) a0 Ha0) as ((Hlt0 & _) & Hvc0 & Hall0).
        apply obind_Done in Hak as (r & Hr & Hak).
        apply obind_Done in Hak as (newChild & Hchild & Hak).
        destruct (Hrec k (acc_nodes a0) ltac:(lia)) as (r' & Hr' & Hrlt & Hrpre & _).
        rewrite Hr in Hr'. injection Hr' as <-.
        pose proof (Hch eq_refl k ltac:(lia)) as Hrange.
        apply node_at_Done in Hchild as [_ Hchild]. rewrite Nat2Z.id in Hchild.
        rewrite list_lookup_alter_ne in Hchild by lia.
        destruct (Qle_bool 0 (weight newChild)) eqn:E; injection Hak as <-; simpl;
          (split; [lia|]); [|lia].
        intros Hfull j m Hj Hm. rewrite list_lookup_alter_ne in Hm by lia.
        destruct (decide (j < length (acc_nodes a0))%nat) as [Hold'|Hnew].
        + rewrite Hrpre in Hm by done. apply (Hall0 ltac:(lia) j m Hj Hm).
        + rewrite <- (Z2Nat.id (child node (Z.of_nat k))) in Hr by lia.
          apply (IH (Z.to_nat (child node (Z.of_nat k))) _ (acc_nodes a0) r newChild
                    ltac:(lia) ltac:(lia) HsA Hr Hchild E j m ltac:(lia) Hm). }
    destruct (Hloop (Arity D) ltac:(lia) a Hfold) as (Hinv & Hvc & Hall).
    destruct Hinv as (Hlta & Hpre & (nk & Hnk & Hnklen & Hnkc) & Hrest).
    unfold build_finish in Hn |- *. simpl in Hn |- *.
    destruct (Z.eqb_spec (acc_validCount a) 0) as [Hz|Hnz].
    { rewrite list_lookup_alter_eq, Hnk in Hn. simpl in Hn. injection Hn as <-.
      simpl in Hvalid. lra. }
    destruct (Z.ltb_spec (acc_validCount a) (Z.of_nat (Arity D))) as [Hless|Hfull].
    + intros k m Hk Hm. pose proof (lookup_lt_Some _ _ _ Hm) as Hkl.
      rewrite length_alter, length_take, length_alter in Hkl.
      assert (k = length acc) as -> by lia. congruence.
    + intros k m Hk Hm. destruct (decide (k = length acc)) as [->|Hne]; [congruence|].
      rewrite list_lookup_alter_ne in Hm by done.
      apply (Hall ltac:(lia) k m ltac:(lia) Hm).
Qed.

End BuildPrunes.

(** X20.  With leaf reweighting, [build] leaves no pruned node behind: in
    the tree it returns no node has a negative weight. *)
Theorem build_reweighted_prunes (D : nat) (fsqrt : Q -> Q) (t : BTreeDistribution) :
  wf_pool D (m_nodes t) -> m_leafReweighting t = true ->
  exists t',
    build D fsqrt t = Done t'
    /\ forall i n, m_nodes t' !! i = Some n -> (0 <= weight n)%Q.
Proof.
  intros Hwf Hlr. pose proof Hwf as [Hpos Hok].
  assert (Hfuel : (length (m_nodes t) - 0 <= length (m_nodes t))%nat) by lia.
  assert (H1 : (0 <= 1)%Q) by discriminate.
  destruct (build_rec_ok D fsqrt (m_leafReweighting t) (m_secondMoment t) (m_nodes t)
                         Hwf (length (m_nodes t)) 0%nat 1%Q [] Hpos Hfuel H1)
    as (newNodes & Hrec & Hpost).
  pose proof (build_post_nil_wf D newNodes Hpost) as [Hnpos _].
  destruct (lookup_lt_is_Some_2 newNodes 0%nat Hnpos) as [root Hroot].
  pose proof (node_at_nat newNodes 0%nat root Hroot) as Hat.
  change (Z.of_nat 0) with 0 in Hat, Hrec.
  unfold build. rewrite Hrec. simpl. rewrite Hat. simpl.
  destruct (Qle_bool (weight root) 0 || Qeq_bool (density root) 0) eqn:Hcond.
  - destruct (setUniform_spec D (m_nodes t)) as (u & Hu & _ & _ & _ & Hw & _).
    eexists. split; [reflexivity|]. simpl. rewrite Hu.
    intros [|i] n Hn; simpl in Hn; [|done]. injection Hn as <-. rewrite Hw. lra.
  - apply orb_false_iff in Hcond as [Hw _].
    assert (Hvalid : Qle_bool 0 (weight root) = true).
    { apply Qle_bool_iff. destruct (Qlt_le_dec 0 (weight root)) as [Hlt|Hle]; [lra|].
      apply Qle_bool_iff in Hle. congruence. }
    eexists. split; [reflexivity|]. simpl. intros i n Hn.
    match type of Hn with map ?f _ !! _ = _ =>
      change (map f newNodes !! i) with ((f <$> newNodes) !! i) in Hn end.
    rewrite list_lookup_fmap in Hn.
    destruct (newNodes !! i) as [m|] eqn:Hm; [|done]. simpl in Hn. injection Hn as <-.
    simpl. rewrite Hlr in Hrec. change 0 with (Z.of_nat 0) in Hrec.
    apply (build_rec_valid D fsqrt (m_secondMoment t) (m_nodes t) Hwf
             (length (m_nodes t)) 0%nat 1%Q [] newNodes root Hpos Hfuel H1 Hrec Hroot
             Hvalid i m); [simpl; lia|done].
Qed.

Lemma build_reweighted_prunes_witness :
  exists t',
    build 1 id_target (line_tree 0 (line_leaf 1 1 1) (line_leaf 0 0 0)) = Done t'
    /\ forall i n, m_nodes t' !! i = Some n -> (0 <= weight n)%Q.
Proof.
  apply (build_reweighted_prunes 1 id_target
           (line_tree 0 (line_leaf 1 1 1) (line_leaf 0 0 0))).
  - apply wf_poolb_sound. vm_compute. reflexivity.
  - reflexivity.
Defined.

(** ** Refine within the range of [int] *)

(** X24.  [refine] returns no tree with a child index that was cut to fit
    an [int].  In at most 30 dimensions, on an ordered tree of at most
    [2^31] nodes, a [refine] that returns has returned an ordered tree of
    at most [2^31] nodes, and has not recursed deeper than that tree's
    node count. *)
Theorem refine_returns_within_int (D fuel : nat) (t t' : BTreeDistribution) :
  (D <= 30)%nat -> wf_pool D (m_nodes t) -> int_limit t ->
  refine D fuel t = Done t' ->
  int_limit t' /\ wf_pool D (m_nodes t') /\ (nodeCount t <= nodeCount t')%nat
  /\ refine D (nodeCount t') t = Done t'.
Proof.
  intros HD Hwf Hlim H. pose proof Hwf as [Hpos _].
  apply refine_Done in H as [H Heq]. change 0 with (Z.of_nat 0) in H.
  pose proof (refine_rec_fits D HD _ _ _ _ _ _ Hwf Hpos Hlim H) as Hfit.
  pose proof (refine_rec_post D _ _ _ _ _ _ Hwf Hpos H Hfit) as (Hwf' & Hlen & _).
  split; [exact Hfit|]. split; [exact Hwf'|]. split; [exact Hlen|].
  assert (Hn : (length (m_nodes t') <= nodeCount t')%nat) by (unfold nodeCount; lia).
  pose proof (refine_rec_fuel_bound D _ _ _ _ _ _ (nodeCount t') Hwf Hpos H Hfit Hn) as H'.
  unfold refine. rewrite Nat.sub_0_r in H'. change (Z.of_nat 0) with 0 in H'.
  rewrite H'. simpl. by rewrite <- Heq.
Qed.

Lemma refine_returns_within_int_witness :
  exists t',
    refine 1 2 (set_splitThreshold (new_tree 1) (6 # 10)) = Done t'
    /\ nodeCount t' = 3%nat
    /\ int_limit t' /\ wf_pool 1 (m_nodes t')
    /\ (nodeCount (set_splitThreshold (new_tree 1) (6 # 10)) <= nodeCount t')%nat
    /\ refine 1 (nodeCount t') (set_splitThreshold (new_tree 1) (6 # 10)) = Done t'.
Proof.
  eexists. split; [vm_compute; reflexivity|]. split; [reflexivity|].
  apply (refine_returns_within_int 1 2 (set_splitThreshold (new_tree 1) (6 # 10))).
  - lia.
  - apply wf_poolb_sound. vm_compute. reflexivity.
  - vm_compute. discriminate.
  - vm_compute. reflexivity.
Defined.

(** ** Refine with a threshold that is not positive *)

Lemma foldl_obind_Stuck {A B} (f : A -> B -> outcome A) (l : list B) :
  foldl (fun acc c => let* a := acc in f a c) Stuck l = Stuck.
Proof. induction l as [|b l IH]; [done|]. simpl. exact IH. Qed.

Section RefineDiverges.

Variable D : nat.
Variable thr : Q.
Hypothesis Hthr : (thr <= 0)%Q.

Lemma split_returns (P : list Node) (index : Z) (n : Node) :
  node_at P index = Done n -> isLeaf n = true ->
  exists P1, split D index P = Done P1.
Proof.
  intros Hn Hleaf. pose proof Hn as Hn'. apply node_at_Done in Hn' as [H0 Hl].
  apply lookup_lt_Some in Hl. unfold split.
  replace (index <? Z.of_nat (length P)) with true by (symmetry; apply Z.ltb_lt; lia).
  simpl. rewrite Hn. simpl. rewrite Hleaf. simpl. eauto.
Qed.

(** The recursion goes on below the first child, in every pool and at
    every index: neither the order of the pool nor the range of [int]
    matters. *)
Lemma refine_rec_diverges :
  forall fuel (s : Q) (index : Z) (P : list Node),
    (forall i n, P !! i = Some n -> (0 <= density n)%Q) -> (0 < s)%Q ->
    refine_rec D fuel thr s index P = Stuck.
Proof.
  induction fuel as [|fuel IH]; intros s index P Hdens Hs; [done|].
  rewrite refine_rec_S.
  destruct (node_at P index) as [n| |] eqn:Hn; [|by apply node_at_not_failed in Hn|done].
  simpl.
  assert (HsA : (0 < s * inject_Z (Z.of_nat (Arity D)))%Q).
  { pose proof (A_ge_1 D). nra. }
  assert (Hdesc : forall P1,
            (forall i m, P1 !! i = Some m -> (0 <= density m)%Q) ->
            refine_children D (refine_rec D fuel thr (s * inject_Z (Z.of_nat (Arity D)))%Q)
                            index P1 = Stuck).
  { intros P1 Hdens1. unfold refine_children.
    pose proof (Arity_pos D) as Hpos.
    destruct (Arity D) as [|a] eqn:Ea; [lia|].
    change (seq 0 (Datatypes.S a)) with (0%nat :: seq 1 a). cbn [foldl].
    cbn [obind].
    replace (let* n0 := node_at P1 index in
             refine_rec D fuel thr (s * inject_Z (Z.of_nat (Datatypes.S a)))%Q
                        (child n0 (Z.of_nat 0)) P1)
      with (@Stuck (list Node)).
    - apply (foldl_obind_Stuck
               (fun nodes c =>
                  let* n0 := node_at nodes index in
                  refine_rec D fuel thr (s * inject_Z (Z.of_nat (Datatypes.S a)))%Q
                             (child n0 (Z.of_nat c)) nodes)).
    - destruct (node_at P1 index) as [n0| |] eqn:Hn0; simpl;
        [|by apply node_at_not_failed in Hn0|done].
      symmetry. by apply IH. }
  destruct (isLeaf n) eqn:Hleaf.
  - assert (Hcrit : Qle_bool thr (density n / s) = true).
    { apply Qle_bool_iff. apply node_at_Done in Hn as [_ Hn].
      pose proof (Hdens _ n Hn) as Hd.
      assert (0 <= density n / s)%Q; [|lra].
      unfold Qdiv. apply Qmult_le_0_compat; [done|].
      apply Qinv_le_0_compat. lra. }
    rewrite Hcrit.
    destruct (split_returns P index n Hn Hleaf) as [P1 Hsplit].
    rewrite Hsplit. simpl. apply Hdesc.
    apply (split_Done D) in Hsplit
      as (j & n0 & nj & _ & Hn0 & _ & _ & Hne & Hnj & Hnjd & _).
    intros i m Hm. destruct (decide (i = j)) as [->|Hij].
    + assert (m = nj) as -> by congruence. rewrite Hnjd. by apply (Hdens j).
    + rewrite Hne in Hm by done.
      apply lookup_app_Some in Hm as [Hm|[_ Hm]]; [by apply (Hdens i)|].
      apply lookup_replicate in Hm as [-> _]. by apply (Hdens j).
  - by apply Hdesc.
Qed.

End RefineDiverges.

(** X21.  With a split threshold that is not positive, [refine] on an
    ordered tree without negative densities does not return: every leaf it
    meets is split and the recursion goes on in the copies. *)
Theorem refine_nonpositive_threshold_diverges (D : nat) (t : BTreeDistribution) :
  wf_pool D (m_nodes t) -> (m_splitThreshold t <= 0)%Q ->
  (forall i n, m_nodes t !! i = Some n -> (0 <= density n)%Q) ->
  forall fuel, refine D fuel t = Stuck.
Proof.
  intros Hwf Hthr Hdens fuel. unfold refine.
  assert (H01 : (0 < 1)%Q) by reflexivity.
  by rewrite (refine_rec_diverges D _ Hthr fuel 1%Q 0 (m_nodes t) Hdens H01).
Qed.

Lemma refine_nonpositive_threshold_diverges_witness :
  refine 1 1000 (set_splitThreshold (new_tree 1) 0) = Stuck.
Proof.
  apply (refine_nonpositive_threshold_diverges 1 (set_splitThreshold (new_tree 1) 0)).
  - apply wf_poolb_sound. vm_compute. reflexivity.
  - discriminate.
  - intros [|i] n Hn; [|discriminate]. injection Hn as <-. discriminate.
Defined.

(** ** The point [sample] returns *)

Lemma lor_bit_spec (ci : Z) (b : bool) (n k : nat) :
  0 <= ci < 2 ^ Z.of_nat n -> (k <= n)%nat ->
  Z.testbit (Z.lor ci (Z.shiftl (Z.b2z b) (Z.of_nat n))) (Z.of_nat k)
  = if decide (k = n) then b else Z.testbit ci (Z.of_nat k).
Proof.
  intros Hci Hk. rewrite Z.lor_spec. destruct (decide (k = n)) as [->|Hne].
  - rewrite Z.shiftl_spec, Z.sub_diag, Z.b2z_bit0 by lia.
    rewrite (proj2 (Z.testbit_false ci (Z.of_nat n) ltac:(lia))); [done|].
    rewrite Z.div_small by lia. done.
  - rewrite Z.shiftl_spec_low, orb_false_r by lia. done.
Qed.

Section SampleCells.

Variable D : nat.
Variable P : list Node.

(** The loop over [dim] in [sample] moves [base] by half the edge along
    the dimensions whose bit is set in the child index. *)
Lemma sample_dims_geom (node : Node) (scale : Q) (x base : Vector) :
  forall n ci x1 base1,
    (n <= length base)%nat ->
    foldl (sample_dim D P node scale) (Done (0, x, base)) (seq 0 n)
    = Done (ci, x1, base1) ->
    length base1 = length base
    /\ 0 <= ci < 2 ^ Z.of_nat n
    /\ (forall k, (k < n)%nat ->
          vget base1 k = if Z.testbit ci (Z.of_nat k)
                         then (vget base k + (1 # 2) * scale)%Q else vget base k)
    /\ (forall k, (n <= k)%nat -> vget base1 k = vget base k).
Proof.
  induction n as [|n IH]; intros ci x1 base1 Hn H.
  - simpl in H. injection H as <- <- <-. split; [done|]. split; [simpl; lia|].
    split; [intros k Hk; lia|done].
  - rewrite seq_S, foldl_app in H. simpl in H. unfold sample_dim in H at 1.
    apply obind_Done in H as ([[ci0 x0] base0] & H0 & H).
    destruct (IH ci0 x0 base0 ltac:(lia) H0) as (Hlen & Hci & Hlow & Hhigh).
    apply obind_Done in H as ([p0 p1] & _ & H).
    apply obind_Done in H as ([] & _ & H).
    set (slab := Qlt_bool (p0 / (p0 + p1)) (vget x0 n)) in *.
    assert (Hrange : 0 <= Z.lor ci0 (Z.shiftl (Z.b2z slab) (Z.of_nat n))
                     < 2 ^ Z.of_nat (Datatypes.S n)).
    { rewrite Nat2Z.inj_succ, <- Z.add_1_r. apply lor_bit_range; lia. }
    assert (Hbits : forall k, (k <= n)%nat ->
              Z.testbit (Z.lor ci0 (Z.shiftl (Z.b2z slab) (Z.of_nat n))) (Z.of_nat k)
              = if decide (k = n) then slab else Z.testbit ci0 (Z.of_nat k)).
    { intros k Hk. by apply lor_bit_spec. }
    destruct slab eqn:Eslab; injection H as <- <- <-; cbn [Z.b2z] in *.
    + split; [unfold vset; by rewrite length_insert|]. split; [done|]. split.
      * intros k Hk. rewrite (Hbits k) by lia. rewrite vget_vset.
        destruct (decide (k = n)) as [->|Hne].
        -- destruct (decide _) as [_|Hc]; [|exfalso; apply Hc; split; [done|lia]].
           by rewrite Hhigh by lia.
        -- destruct (decide _) as [[Hc _]|_]; [congruence|]. apply Hlow. lia.
      * intros k Hk. rewrite vget_vset.
        destruct (decide _) as [[Hc _]|_]; [lia|]. apply Hhigh. lia.
    + split; [done|]. split; [done|]. split.
      * intros k Hk. rewrite (Hbits k) by lia.
        destruct (decide (k = n)) as [->|Hne]; [apply Hhigh; lia|apply Hlow; lia].
      * intros k Hk. apply Hhigh. lia.
Qed.

(** The cell [sample] ends in lies inside every cell it passed. *)
Lemma sample_loop_cell :
  forall fuel (x base : Vector) (scale : Q) (j i : Z) (xl base_f : Vector) (scale_f : Q),
    sample_loop D fuel P x base scale j = Done (i, xl, base_f, scale_f) ->
    length base = D -> (0 < scale)%Q ->
    length base_f = D /\ (0 < scale_f)%Q
    /\ forall y : Vector,
         (forall k, (k < D)%nat ->
            (vget base_f k <= vget y k < vget base_f k + scale_f)%Q) ->
         forall k, (k < D)%nat -> (vget base k <= vget y k < vget base k + scale)%Q.
Proof.
  induction fuel as [|fuel IH]; intros x base scale j i xl base_f scale_f H Hlen Hs;
    [done|].
  simpl in H. apply obind_Done in H as (node & Hnode & H).
  destruct (isLeaf node).
  - injection H as <- <- <- <-. done.
  - apply obind_Done in H as ([[ci x1] base1] & Hdims & H).
    apply obind_Done in H as ([] & _ & H).
    destruct (sample_dims_geom node scale x base D ci x1 base1 ltac:(lia) Hdims)
      as (Hlen1 & Hci & Hlow & _).
    assert (Hs2 : (0 < scale / 2)%Q)
      by (change (scale / 2)%Q with (scale * (1 # 2))%Q; lra).
    destruct (IH _ _ _ _ _ _ _ _ H ltac:(lia) Hs2) as (Hlf & Hsf & Hin).
    split; [done|]. split; [done|].
    intros y Hy k Hk. specialize (Hin y Hy k Hk). rewrite (Hlow k Hk) in Hin.
    change (scale / 2)%Q with (scale * (1 # 2))%Q in Hin.
    destruct (Z.testbit ci (Z.of_nat k)); lra.
Qed.

Lemma in_cell_step (y yl base base1 : Vector) (scale : Q) (ci : Z) :
  in_cell D y yl base scale -> length base1 = D ->
  (forall k, (k < D)%nat ->
     vget base1 k = if Z.testbit ci (Z.of_nat k)
                    then (vget base k + (1 # 2) * scale)%Q else vget base k) ->
  (forall k, (k < D)%nat ->
     (vget base1 k <= vget y k < vget base1 k + scale / 2)%Q) ->
  0 <= ci < 2 ^ Z.of_nat D ->
  (foldl indexAt_dim (0, yl) (seq 0 D)).1 = ci
  /\ in_cell D y (foldl indexAt_dim (0, yl) (seq 0 D)).2 base1 (scale / 2)%Q.
Proof.
  intros (Hly & Hlb & Hs & Hcell) Hl1 Hb1 Hy Hci.
  destruct (indexAt_dims_spec yl D ltac:(lia)) as (Hlen & Hlow & _).
  pose proof (indexAt_dims_range 0 yl D) as Hrange.
  set (ci' := (foldl indexAt_dim (0, yl) (seq 0 D)).1) in *.
  set (yl' := (foldl indexAt_dim (0, yl) (seq 0 D)).2) in *.
  assert (Hbit : forall k, (k < D)%nat ->
            Z.testbit ci (Z.of_nat k) = Qle_bool (1 # 2) (vget yl k)).
  { intros k Hk. destruct (Hcell k Hk) as [[H0 H1] Heq].
    specialize (Hy k Hk). rewrite (Hb1 k Hk) in Hy.
    change (scale / 2)%Q with (scale * (1 # 2))%Q in Hy.
    destruct (Z.testbit ci (Z.of_nat k)); symmetry.
    - apply Qle_bool_iff. nra.
    - destruct (Qle_bool (1 # 2) (vget yl k)) eqn:E; [|done].
      apply Qle_bool_iff in E. nra. }
  assert (Heq : ci' = ci).
  { apply Z.bits_inj'. intros m Hm.
    destruct (decide (m < Z.of_nat D)) as [Hlt|Hge].
    - replace m with (Z.of_nat (Z.to_nat m)) by lia.
      destruct (Hlow (Z.to_nat m) ltac:(lia)) as [-> _].
      symmetry. apply Hbit. lia.
    - rewrite (proj2 (Z.testbit_false ci' m Hm)), (proj2 (Z.testbit_false ci m Hm));
        [done| |].
      + rewrite Z.div_small; [done|].
        pose proof (Z.pow_le_mono_r 2 (Z.of_nat D) m). lia.
      + rewrite Z.div_small; [done|].
        pose proof (Z.pow_le_mono_r 2 (Z.of_nat D) m). lia. }
  split; [done|].
  split; [lia|]. split; [done|].
  split; [change (scale / 2)%Q with (scale * (1 # 2))%Q; lra|].
  intros k Hk. destruct (Hlow k Hk) as [_ Hx']. destruct (Hcell k Hk) as [[H0 H1] Hyk].
  rewrite Hx', (Hb1 k Hk), (Hbit k Hk).
  change (scale / 2)%Q with (scale * (1 # 2))%Q.
  destruct (Qle_bool (1 # 2) (vget yl k)) eqn:E.
  - apply Qle_bool_iff in E. split; [lra|]. rewrite Hyk. ring.
  - assert (vget yl k < 1 # 2)%Q.
    { destruct (Qlt_le_dec (vget yl k) (1 # 2)) as [Hlt|Hge]; [done|].
      apply Qle_bool_iff in Hge. congruence. }
    split; [lra|]. rewrite Hyk. ring.
Qed.

Hypothesis Hwf : wf_pool D P.

(** [indexAt] follows the path of [sample] to any point of the cell
    [sample] ended in. *)
Lemma sample_loop_indexAt :
  forall fuel fuel2 (x base : Vector) (scale : Q) (j : nat) (i : Z)
         (xl base_f : Vector) (scale_f : Q) (y yl : Vector) (d : Z),
    sample_loop D fuel P x base scale (Z.of_nat j) = Done (i, xl, base_f, scale_f) ->
    (j < length P)%nat -> (length P - j <= fuel2)%nat ->
    (forall k, (k < D)%nat ->
       (vget base_f k <= vget y k < vget base_f k + scale_f)%Q) ->
    in_cell D y yl base scale ->
    exists d', indexAt_loop D fuel2 P yl (Z.of_nat j) d = Done (i, d').
Proof.
  induction fuel as [|fuel IH];
    intros fuel2 x base scale j i xl base_f scale_f y yl d H Hj Hfuel Hy Hcell; [done|].
  destruct fuel2 as [|fuel2]; [lia|].
  destruct (lookup_lt_is_Some_2 P j Hj) as [node Hnode].
  simpl in H |- *. rewrite (node_at_nat _ _ _ Hnode) in H |- *. simpl in H |- *.
  destruct (isLeaf node) eqn:Hleaf.
  - injection H as <- _ _ _. eauto.
  - apply obind_Done in H as ([[ci x1] base1] & Hdims & H).
    apply obind_Done in H as ([] & Hassert & H).
    pose proof Hcell as (Hly & Hlb & Hs & _).
    destruct (sample_dims_geom node scale x base D ci x1 base1 ltac:(lia) Hdims)
      as (Hlen1 & Hci & Hlow & _).
    assert (Hs2 : (0 < scale / 2)%Q)
      by (change (scale / 2)%Q with (scale * (1 # 2))%Q; lra).
    destruct (sample_loop_cell _ _ _ _ _ _ _ _ _ H ltac:(lia) Hs2) as (_ & _ & Hin).
    destruct (in_cell_step y yl base base1 scale ci Hcell ltac:(lia) Hlow (Hin y Hy) Hci)
      as (Hsame & Hcell').
    destruct (foldl indexAt_dim (0, yl) (seq 0 D)) as [ci' yl'] eqn:E.
    simpl in Hsame, Hcell'. subst ci'. rewrite Hassert. simpl.
    pose proof (wf_child_range D P j node ci Hwf Hnode Hleaf Hci) as Hrange.
    rewrite <- (Z2Nat.id (child node ci)) in H |- * by lia.
    apply (IH fuel2 x1 base1 (scale / 2)%Q _ i xl base_f scale_f y yl' (d + 1) H);
      [lia|lia|exact Hy|exact Hcell'].
Qed.

End SampleCells.

Lemma unwarp_spec (base : Vector) (scale : Q) :
  forall n (xl : Vector),
    (n <= length xl)%nat ->
    length (foldl (fun x dim => vset x dim (vget x dim * scale + vget base dim)%Q)
                  xl (seq 0 n)) = length xl
    /\ forall k,
         vget (foldl (fun x dim => vset x dim (vget x dim * scale + vget base dim)%Q)
                     xl (seq 0 n)) k
         = if decide (k < n)%nat then (vget xl k * scale + vget base k)%Q else vget xl k.
Proof.
  induction n as [|n IH]; intros xl Hn.
  - simpl. split; [done|]. intros k. destruct (decide (k < 0)%nat); [lia|done].
  - destruct (IH xl ltac:(lia)) as (Hlen & Hget).
    rewrite seq_S, foldl_app. simpl.
    split; [unfold vset; by rewrite length_insert|].
    intros k. rewrite vget_vset, !Hget.
    destruct (decide (n = k /\ _)) as [[-> _]|Hc].
    + destruct (decide (k < k)%nat); [lia|].
      destruct (decide (k < Datatypes.S k)%nat); [done|lia].
    + destruct (decide (k < n)%nat); destruct (decide (k < Datatypes.S n)%nat);
        try done; lia.
Qed.

(** X23.  When the loop of [sample] ends with the point inside the unit cube
    of the leaf it reached, the point [sample] returns lies in the unit
    cube and in that leaf's cell: [pdf] and [at], asked at the returned
    point, answer the pdf and the value that [sample] returned. *)
Theorem sample_pdf_inside_cell (D : nat) (t : BTreeDistribution) (x : Vector) (pdf_in : Q)
        (i : Z) (xl base : Vector) (scale : Q) (x' : Vector) (p v : Q) :
  wf_pool D (m_nodes t) -> length x = D ->
  sample_loop D (nodeCount t) (m_nodes t) x (replicate D 0%Q) 1%Q 0
  = Done (i, xl, base, scale) ->
  (forall k, (k < D)%nat -> (0 <= vget xl k < 1)%Q) ->
  sample D t x pdf_in = Done (x', p, v) ->
  (exists q, pdf D t x' = Done q /\ (q == p)%Q)
  /\ at_ D t x' = Done v
  /\ forall k, (k < D)%nat -> (0 <= vget x' k < 1)%Q.
Proof.
  intros Hwf Hlen Hloop Hxl Hsample. pose proof Hwf as [Hpos _].
  unfold sample, nodeCount in *. rewrite Hloop in Hsample. simpl in Hsample.
  apply obind_Done in Hsample as (leaf & Hleaf & Hsample).
  apply obind_Done in Hsample as ([] & _ & Hsample).
  injection Hsample as <- <- <-.
  destruct (sample_loop_leaf D _ _ _ _ _ _ _ _ _ _ Hloop) as (_ & _ & _ & Hlxl).
  destruct (unwarp_spec base scale D xl ltac:(lia)) as (Hlx' & Hget).
  set (x' := foldl (fun x dim => vset x dim (vget x dim * scale + vget base dim)%Q)
                   xl (seq 0 D)) in *.
  destruct (sample_loop_cell D _ _ _ _ _ _ _ _ _ _ Hloop
              ltac:(by rewrite length_replicate) ltac:(lra))
    as (Hlb & Hs & Hin).
  assert (Hy : forall k, (k < D)%nat ->
            (vget base k <= vget x' k < vget base k + scale)%Q).
  { intros k Hk. rewrite Hget. destruct (decide (k < D)%nat); [|lia].
    specialize (Hxl k Hk). nra. }
  assert (Hunit : forall k, (k < D)%nat -> (0 <= vget x' k < 1)%Q).
  { intros k Hk. pose proof (Hin x' Hy k Hk) as H. rewrite vget_replicate_0 in H. lra. }
  assert (Hcell : in_cell D x' x' (replicate D 0%Q) 1%Q).
  { split; [lia|]. split; [by rewrite length_replicate|]. split; [lra|].
    intros k Hk. split; [by apply Hunit|]. rewrite vget_replicate_0. ring. }
  change 0 with (Z.of_nat 0) in Hloop.
  destruct (sample_loop_indexAt D _ Hwf _ (length (m_nodes t)) _ _ _ _ _ _ _ _ x' x' 0
              Hloop Hpos ltac:(lia) Hy Hcell) as (d' & Hidx).
  change (Z.of_nat 0) with 0 in Hidx.
  split; [|split; [|exact Hunit]].
  - exists (density leaf). split; [|ring].
    unfold pdf, indexAt. rewrite Hidx. simpl. by rewrite Hleaf.
  - unfold at_, indexAt. rewrite Hidx. simpl. by rewrite Hleaf.
Qed.

Lemma sample_pdf_inside_cell_witness :
  exists x' p v,
    sample 1 (line_tree 1 (line_leaf (1 # 2) 1 1) (line_leaf (3 # 2) 3 1))
           [(1 # 8)%Q] 1%Q = Done (x', p, v)
    /\ (exists q,
          pdf 1 (line_tree 1 (line_leaf (1 # 2) 1 1) (line_leaf (3 # 2) 3 1)) x' = Done q
          /\ (q == p)%Q)
    /\ at_ 1 (line_tree 1 (line_leaf (1 # 2) 1 1) (line_leaf (3 # 2) 3 1)) x' = Done v
    /\ forall k, (k < 1)%nat -> (0 <= vget x' k < 1)%Q.
Proof.
  eexists _, _, _. split; [vm_compute; reflexivity|].
  eapply (sample_pdf_inside_cell 1
            (line_tree 1 (line_leaf (1 # 2) 1 1) (line_leaf (3 # 2) 3 1))
            [(1 # 8)%Q] 1%Q).
  - apply wf_poolb_sound. vm_compute. reflexivity.
  - reflexivity.
  - vm_compute. reflexivity.
  - intros [|k] Hk; [|lia]. vm_compute. split; [discriminate|reflexivity].
  - vm_compute. reflexivity.
Defined.
